(** * Surf Foil: wave surface field and rider dynamics

    A shallow embedding of the wave physics bridge (the CPU-side Gerstner
    surface), of the vertex shader of [WaveSurface.tsx] that draws the same
    surface, and of the per-frame rider integrator of the [Player]
    component, together with the properties the specification states about
    them.

    Numbers.  A TypeScript [number] is modelled by the type [number] below:
    the three kinds of special value of an IEEE-754 double ([NaN], the two
    infinities) and the finite values, the latter carried by a real number.
    Arithmetic on finite values is exact (no rounding, no overflow, one
    zero whose sign is taken to be positive); arithmetic on special values
    follows IEEE-754, which is what makes [isNaN] guards and divisions by
    zero meaningful in the model. *)

From Stdlib Require Import Reals Lra List String Bool Arith ZArith Lia.
Import ListNotations.

Open Scope R_scope.

(** ** The [number] type and its arithmetic *)

Inductive number : Type :=
| NaN
| PosInf
| NegInf
| Fin (r : R).

Declare Scope js_scope.
Delimit Scope js_scope with js.
Bind Scope js_scope with number.

Coercion Fin : R >-> number.

Module Num.

Definition infinity (positive : bool) : number :=
  if positive then PosInf else NegInf.

Definition add (a b : number) : number :=
  match a, b with
  | Fin x, Fin y => Fin (x + y)
  | NaN, _ | _, NaN => NaN
  | PosInf, NegInf | NegInf, PosInf => NaN
  | PosInf, _ | _, PosInf => PosInf
  | NegInf, _ | _, NegInf => NegInf
  end.

Definition neg (a : number) : number :=
  match a with
  | Fin x => Fin (- x)
  | NaN => NaN
  | PosInf => NegInf
  | NegInf => PosInf
  end.

Definition sub (a b : number) : number :=
  match a, b with
  | Fin x, Fin y => Fin (x - y)
  | _, _ => add a (neg b)
  end.

(** An infinity of the given sign times [b]. *)
Definition mul_infinity (positive : bool) (b : number) : number :=
  match b with
  | NaN => NaN
  | PosInf => infinity positive
  | NegInf => infinity (negb positive)
  | Fin y =>
      if Req_dec_T y 0 then NaN
      else if Rlt_dec 0 y then infinity positive
      else infinity (negb positive)
  end.

Definition mul (a b : number) : number :=
  match a, b with
  | Fin x, Fin y => Fin (x * y)
  | NaN, _ | _, NaN => NaN
  | PosInf, _ => mul_infinity true b
  | NegInf, _ => mul_infinity false b
  | _, PosInf => mul_infinity true a
  | _, NegInf => mul_infinity false a
  end.

Definition div (a b : number) : number :=
  match a, b with
  | Fin x, Fin y =>
      if Req_dec_T y 0 then
        if Req_dec_T x 0 then NaN
        else if Rlt_dec 0 x then PosInf else NegInf
      else Fin (x / y)
  | NaN, _ | _, NaN => NaN
  | Fin _, _ => Fin 0
  | _, PosInf | _, NegInf => NaN
  | PosInf, Fin y => if Rlt_dec y 0 then NegInf else PosInf
  | NegInf, Fin y => if Rlt_dec y 0 then PosInf else NegInf
  end.

(** Comparisons: every comparison with [NaN] is [false]. *)
Definition ltb (a b : number) : bool :=
  match a, b with
  | Fin x, Fin y => if Rlt_dec x y then true else false
  | NaN, _ | _, NaN => false
  | NegInf, NegInf | PosInf, _ => false
  | NegInf, _ => true
  | Fin _, PosInf => true
  | Fin _, NegInf => false
  end.

Definition leb (a b : number) : bool :=
  match a, b with
  | Fin x, Fin y => if Rle_dec x y then true else false
  | NaN, _ | _, NaN => false
  | NegInf, _ | _, PosInf => true
  | PosInf, _ | _, NegInf => false
  end.

Definition gtb (a b : number) : bool := ltb b a.
Definition geb (a b : number) : bool := leb b a.

End Num.

Infix "+" := Num.add : js_scope.
Infix "-" := Num.sub : js_scope.
Infix "*" := Num.mul : js_scope.
Infix "/" := Num.div : js_scope.
Notation "- a" := (Num.neg a) : js_scope.
Infix "<?" := Num.ltb (at level 70, no associativity) : js_scope.
Infix "<=?" := Num.leb (at level 70, no associativity) : js_scope.
Infix ">?" := Num.gtb (at level 70, no associativity) : js_scope.
Infix ">=?" := Num.geb (at level 70, no associativity) : js_scope.

(** The global [isNaN]. *)
Definition isNaN (a : number) : bool :=
  match a with NaN => true | _ => false end.

Definition finite (a : number) : Prop := exists r : R, a = Fin r.

(** ** The [Math] object *)

Module Math.

Definition PI : number := Fin Rtrigo1.PI.

(** [Math.max] and [Math.min] return [NaN] as soon as one argument is. *)
Definition max (a b : number) : number :=
  match a, b with
  | Fin x, Fin y => Fin (Rmax x y)
  | NaN, _ | _, NaN => NaN
  | PosInf, _ | _, PosInf => PosInf
  | NegInf, c | c, NegInf => c
  end.

Definition min (a b : number) : number :=
  match a, b with
  | Fin x, Fin y => Fin (Rmin x y)
  | NaN, _ | _, NaN => NaN
  | NegInf, _ | _, NegInf => NegInf
  | PosInf, c | c, PosInf => c
  end.

Definition abs (a : number) : number :=
  match a with
  | Fin x => Fin (Rabs x)
  | NaN => NaN
  | PosInf | NegInf => PosInf
  end.

Definition sqrt (a : number) : number :=
  match a with
  | Fin x => if Rlt_dec x 0 then NaN else Fin (R_sqrt.sqrt x)
  | PosInf => PosInf
  | NaN | NegInf => NaN
  end.

Definition sin (a : number) : number :=
  match a with
  | Fin x => Fin (Rtrigo_def.sin x)
  | _ => NaN
  end.

Definition cos (a : number) : number :=
  match a with
  | Fin x => Fin (Rtrigo_def.cos x)
  | _ => NaN
  end.

End Math.

(** ** The parts of three.js the program uses

    [THREE.Vector3] and the two [THREE.MathUtils] helpers, as three.js
    defines them: [lerp(x, y, t) = (1 - t) * x + t * y] and
    [clamp(value, min, max) = Math.max(min, Math.min(max, value))]. *)

Module THREE.

Record Vector3 : Type := mkVector3 { x : number; y : number; z : number }.

Module MathUtils.

Definition lerp (x y t : number) : number := ((1 - t) * x + t * y)%js.

Definition clamp (value min max : number) : number :=
  Math.max min (Math.min max value).

End MathUtils.

(** The [Vector3] methods the bridge calls, as three.js defines them;
    [normalize] divides by [length() || 1], and [a || b] on numbers is [b]
    when [a] is 0 or [NaN]. *)
Definition orElse (a b : number) : number :=
  match a with
  | NaN => b
  | Fin r => if Req_dec_T r 0 then b else a
  | _ => a
  end.

Definition crossVectors (a b : Vector3) : Vector3 :=
  mkVector3 (y a * z b - z a * y b)%js (z a * x b - x a * z b)%js
    (x a * y b - y a * x b)%js.

Definition length (v : Vector3) : number :=
  Math.sqrt (x v * x v + y v * y v + z v * z v)%js.

Definition multiplyScalar (v : Vector3) (scalar : number) : Vector3 :=
  mkVector3 (x v * scalar)%js (y v * scalar)%js (z v * scalar)%js.

Definition divideScalar (v : Vector3) (scalar : number) : Vector3 :=
  multiplyScalar v (1 / scalar)%js.

Definition normalize (v : Vector3) : Vector3 :=
  divideScalar v (orElse (length v) 1).

End THREE.

(** ** systems/WavePhysicsBridge *)

Module WavePhysicsBridge.

Local Open Scope js_scope.

Record WaveDef : Type := mkWaveDef {
  dirX : number;
  dirZ : number;
  steepness : number;
  wavelength : number;
  amplitude : number;
  speed : number
}.

Definition WAVES : list WaveDef :=
  [ mkWaveDef 0.0 1.0 0.12 25.0 1.2 4.0;
    mkWaveDef 0.15 0.99 0.08 15.0 0.4 3.5;
    mkWaveDef (-0.2)%R 0.98 0.06 8.0 0.15 5.0 ].

Definition SHORE_ANGLE : number := 0.42.
Definition DEPTH_DEEP : number := 10.0.
Definition DEPTH_SHALLOW : number := 1.5.
Definition SHORE_Z_CENTER : number := 30.0.
Definition DEPTH_GRADIENT : number := 0.12.

Definition WAVE_COUNT : nat := List.length WAVES.

(** Diagonal beach depth, world coordinates. *)
Definition getDepth (x z : number) : number :=
  let effectiveZ := z - x * SHORE_ANGLE in
  let rawDepth := DEPTH_DEEP - (effectiveZ - SHORE_Z_CENTER) * DEPTH_GRADIENT in
  Math.max DEPTH_SHALLOW (Math.min DEPTH_DEEP rawDepth).

Definition getDepthAt (x z : number) : number := getDepth x z.

(** GLSL-compatible smoothstep. *)
Definition smoothstep (edge0 edge1 x : number) : number :=
  let t := Math.max 0 (Math.min ((x - edge0) / (edge1 - edge0)) 1.0) in
  t * t * (3 - 2 * t).

(** [WAVES[i]]; the indices the program uses are all below [WAVE_COUNT]. *)
Definition WAVES_at (i : nat) : WaveDef :=
  nth i WAVES (mkWaveDef NaN NaN NaN NaN NaN NaN).

(** The phase of wave 0, computed ahead of the loop for the breaking fold. *)
Definition phase0 (x z time : number) : number :=
  let k0 := (2 * Math.PI) / wavelength (WAVES_at 0) in
  k0 * (dirX (WAVES_at 0) * x + dirZ (WAVES_at 0) * z
        - speed (WAVES_at 0) * time).

(** What one iteration of the loop over the waves binds before it
    accumulates: the shoaled amplitude [a], the phase [f] and the
    displacement factor [q] of wave [i]. *)
Record WaveLocals : Type := mkWaveLocals {
  loc_a : number;
  loc_f : number;
  loc_q : number
}.

Definition waveLocals (i : nat) (x z time : number) : WaveLocals :=
  let w := WAVES_at i in
  let amplitude := amplitude w in
  let steepness := steepness w in
  let depth := getDepth x z in
  let depthRatio := Math.max (depth / DEPTH_DEEP) 0.05 in
  let shoalFactor := 1.0 / Math.sqrt depthRatio in
  let shoalWeight : number := if Nat.eqb i 0 then 1.0 else 0.3 in
  let effectiveShoal := 1.0 + (shoalFactor - 1.0) * shoalWeight in
  let amplitude := amplitude * effectiveShoal in
  let steepness := steepness * effectiveShoal in
  let steepness := Math.min steepness 0.4 in
  let k := (2 * Math.PI) / wavelength w in
  let f := k * (dirX w * x + dirZ w * z - speed w * time) in
  let a := amplitude in
  let q := Math.max 0 (Math.min (steepness / (k * a * INR WAVE_COUNT)) 0.5) in
  mkWaveLocals a f q.

(** One iteration of the loop: the three accumulations into [rx, ry, rz]. *)
Definition waveStep (x z time : number) (r : THREE.Vector3) (i : nat)
  : THREE.Vector3 :=
  let w := WAVES_at i in
  let l := waveLocals i x z time in
  let q := loc_q l in
  let a := loc_a l in
  let f := loc_f l in
  THREE.mkVector3
    (THREE.x r + q * a * dirX w * Math.cos f)
    (THREE.y r + a * Math.sin f)
    (THREE.z r + q * a * dirZ w * Math.cos f).

(** The loop [for (let i = 0; i < WAVE_COUNT; i++)], from [(x, 0, z)]. *)
Definition waveSum (x z time : number) : THREE.Vector3 :=
  fold_left (waveStep x z time) (seq 0 WAVE_COUNT) (THREE.mkVector3 x 0 z).

(** Compute the displaced surface position at world (x, z). *)
Definition gerstnerDisplace (x z time : number) : THREE.Vector3 :=
  let f0 := phase0 x z time in
  let r := waveSum x z time in
  let rx := THREE.x r in
  let ry := THREE.y r in
  let rz := THREE.z r in
  let depth := getDepth x z in
  let breakStrength := smoothstep 5.0 2.0 depth in
  if breakStrength >? 0.001 then
    let sinF0 := Math.sin f0 in
    let crestFactor := smoothstep 0.0 0.8 sinF0 in
    let breakAmount := crestFactor * crestFactor * breakStrength in
    let foldAngle := breakAmount * 3.0 in
    let aboveWater := Math.max ry 0 in
    let belowWater := Math.min ry 0 in
    let ry := belowWater + aboveWater * Math.cos foldAngle in
    let rz := rz + aboveWater * Math.sin foldAngle in
    let throwForward := breakAmount * breakAmount * aboveWater * 1.8 in
    let rz := rz + throwForward in
    THREE.mkVector3 rx ry rz
  else
    THREE.mkVector3 rx ry rz.

Definition _eps : number := 0.2.

(** Get just the wave height. *)
Definition getWaveHeightAt (x z time : number) : number :=
  THREE.y (gerstnerDisplace x z time).

Record Slope : Type := mkSlope { slopeX : number; slopeZ : number }.

(** Get the wave slope at a point (gradient of the height field). *)
Definition getWaveSlopeAt (x z time : number) : Slope :=
  let hRight := THREE.y (gerstnerDisplace (x + _eps) z time) in
  let hLeft := THREE.y (gerstnerDisplace (x - _eps) z time) in
  let hFront := THREE.y (gerstnerDisplace x (z + _eps) time) in
  let hBack := THREE.y (gerstnerDisplace x (z - _eps) time) in
  mkSlope ((hRight - hLeft) / (2 * _eps)) ((hFront - hBack) / (2 * _eps)).

Module WaveSurfaceSample.
Record t : Type := mk {
  height : number;
  normal : THREE.Vector3;
  velocity : THREE.Vector3
}.
End WaveSurfaceSample.

(** Sample the wave surface at a given world X/Z coordinate: height,
    surface normal and surface velocity at that point. *)
Definition getWaterSurfaceAt (x z time : number) : WaveSurfaceSample.t :=
  let center := gerstnerDisplace x z time in
  let posX := gerstnerDisplace (x + _eps) z time in
  let negX := gerstnerDisplace (x - _eps) z time in
  let posZ := gerstnerDisplace x (z + _eps) time in
  let negZ := gerstnerDisplace x (z - _eps) time in
  let _v1 :=
    THREE.mkVector3
      ((THREE.x posX - THREE.x negX) / (2 * _eps))
      ((THREE.y posX - THREE.y negX) / (2 * _eps))
      ((THREE.z posX - THREE.z negX) / (2 * _eps)) in
  let _v2 :=
    THREE.mkVector3
      ((THREE.x posZ - THREE.x negZ) / (2 * _eps))
      ((THREE.y posZ - THREE.y negZ) / (2 * _eps))
      ((THREE.z posZ - THREE.z negZ) / (2 * _eps)) in
  let normal := THREE.normalize (THREE.crossVectors _v2 _v1) in
  let dt : number := 0.01 in
  let future := gerstnerDisplace x z (time + dt) in
  let velocity :=
    THREE.mkVector3
      ((THREE.x future - THREE.x center) / dt)
      ((THREE.y future - THREE.y center) / dt)
      ((THREE.z future - THREE.z center) / dt) in
  WaveSurfaceSample.mk (THREE.y center) normal velocity.

End WavePhysicsBridge.

(** ** components/WaveSurface: the vertex shader

    The GLSL functions [getDepth] and [gerstnerWaves] of the vertex shader
    of [GerstnerWaveMaterial], with the uniforms at the defaults the
    material declares.  A GLSL [float] is modelled by [number] like a
    TypeScript number, and the built-ins by their definitions in the GLSL
    specification: [clamp(x, lo, hi) = min(max(x, lo), hi)] and
    [smoothstep(e0, e1, x) = t * t * (3 - 2 * t)] with
    [t = clamp((x - e0) / (e1 - e0), 0, 1)]. *)

Module WaveSurface.

Local Open Scope js_scope.

Module GLSL.

Definition clamp (x minVal maxVal : number) : number :=
  Math.min (Math.max x minVal) maxVal.

Definition smoothstep (edge0 edge1 x : number) : number :=
  let t := clamp ((x - edge0) / (edge1 - edge0)) 0.0 1.0 in
  t * t * (3.0 - 2.0 * t).

End GLSL.

Definition WAVE_COUNT : nat := 3.

Definition uWaveDirX : list number := [Fin 0.0; Fin 0.15; Fin (-0.2)].
Definition uWaveDirZ : list number := [Fin 1.0; Fin 0.99; Fin 0.98].
Definition uWaveSteepness : list number := [Fin 0.12; Fin 0.08; Fin 0.06].
Definition uWaveLength : list number := [Fin 25.0; Fin 15.0; Fin 8.0].
Definition uWaveAmplitude : list number := [Fin 1.2; Fin 0.4; Fin 0.15].
Definition uWaveSpeed : list number := [Fin 4.0; Fin 3.5; Fin 5.0].
Definition uDepthDeep : number := 10.0.
Definition uDepthShallow : number := 1.5.
Definition uShoreAngle : number := 0.42.
Definition uShoreZCenter : number := 30.0.
Definition uDepthGradient : number := 0.12.

(** [u[i]] for a uniform array [u]. *)
Definition at_ (u : list number) (i : nat) : number := nth i u NaN.

Definition getDepth (x z : number) : number :=
  let effectiveZ := z - x * uShoreAngle in
  let rawDepth := uDepthDeep - (effectiveZ - uShoreZCenter) * uDepthGradient in
  GLSL.clamp rawDepth uDepthShallow uDepthDeep.

Definition phase0 (pos : THREE.Vector3) (time : number) : number :=
  let k0 := 6.28318 / at_ uWaveLength 0 in
  k0 * (at_ uWaveDirX 0 * THREE.x pos + at_ uWaveDirZ 0 * THREE.z pos
        - at_ uWaveSpeed 0 * time).

Record WaveLocals : Type := mkWaveLocals {
  loc_a : number;
  loc_f : number;
  loc_q : number
}.

Definition waveLocals (i : nat) (pos : THREE.Vector3) (time : number)
  : WaveLocals :=
  let amplitude := at_ uWaveAmplitude i in
  let steepness := at_ uWaveSteepness i in
  let depth := getDepth (THREE.x pos) (THREE.z pos) in
  let depthRatio := Math.max (depth / uDepthDeep) 0.05 in
  let shoalFactor := 1.0 / Math.sqrt depthRatio in
  let shoalWeight : number := if Nat.eqb i 0 then 1.0 else 0.3 in
  let effectiveShoal := 1.0 + (shoalFactor - 1.0) * shoalWeight in
  let amplitude := amplitude * effectiveShoal in
  let steepness := steepness * effectiveShoal in
  let steepness := Math.min steepness 0.4 in
  let k := 6.28318 / at_ uWaveLength i in
  let f := k * (at_ uWaveDirX i * THREE.x pos + at_ uWaveDirZ i * THREE.z pos
                - at_ uWaveSpeed i * time) in
  let a := amplitude in
  let q := GLSL.clamp (steepness / (k * a * INR WAVE_COUNT)) 0.0 0.5 in
  mkWaveLocals a f q.

Definition waveStep (pos : THREE.Vector3) (time : number)
  (result : THREE.Vector3) (i : nat) : THREE.Vector3 :=
  let l := waveLocals i pos time in
  let q := loc_q l in
  let a := loc_a l in
  let f := loc_f l in
  THREE.mkVector3
    (THREE.x result + q * a * at_ uWaveDirX i * Math.cos f)
    (THREE.y result + a * Math.sin f)
    (THREE.z result + q * a * at_ uWaveDirZ i * Math.cos f).

Definition waveSum (pos : THREE.Vector3) (time : number) : THREE.Vector3 :=
  fold_left (waveStep pos time) (seq 0 WAVE_COUNT) pos.

Definition gerstnerWaves (pos : THREE.Vector3) (time : number)
  : THREE.Vector3 :=
  let f0 := phase0 pos time in
  let result := waveSum pos time in
  let depth := getDepth (THREE.x pos) (THREE.z pos) in
  let breakStrength := GLSL.smoothstep 5.0 2.0 depth in
  if breakStrength >? 0.001 then
    let sinF0 := Math.sin f0 in
    let crestFactor := GLSL.smoothstep 0.0 0.8 sinF0 in
    let breakAmount := crestFactor * crestFactor * breakStrength in
    let foldAngle := breakAmount * 3.0 in
    let aboveWater := Math.max (THREE.y result) 0.0 in
    let belowWater := Math.min (THREE.y result) 0.0 in
    let result_y := belowWater + aboveWater * Math.cos foldAngle in
    let result_z := THREE.z result + aboveWater * Math.sin foldAngle in
    let throwForward := breakAmount * breakAmount * aboveWater * 1.8 in
    let result_z := result_z + throwForward in
    THREE.mkVector3 (THREE.x result) result_y result_z
  else
    result.

End WaveSurface.

(** ** App: the [Player] component and the game scene around it

    The state the component keeps across frames is gathered in [World]:
    the React state of [GameScene] ([gameState], [crashReason]) and of
    [Player] ([keys]), and the refs ([stateRef], [clockRef], the player
    group, [sprayStateRef]).  A React state update made during a frame is
    taken to be rendered before the next frame runs.  The camera follow and
    the HUD text written at the end of a frame read the rider state and
    write none of it; they are not part of [World], and the camera follow
    is modelled on its own in [cameraFollow]. *)

Module App.

Local Open Scope string_scope.
Local Open Scope js_scope.

Definition WAVE_DIR_X : number := 0.
Definition WAVE_DIR_Z : number := 1.
Definition GRAVITY : number := 9.8.

Definition START_X : number := 5.
Definition START_Z : number := 20.
Definition START_YAW : number := - Math.PI / 2.

Inductive GameState : Type := start | playing | gameover.

Module SprayState.
Record t : Type := mk {
  roll : number;
  height : number;
  speed : number;
  rollRate : number;
  isSnapping : bool;
  isPlaying : bool
}.
Definition set_isPlaying (b : bool) (ss : t) : t :=
  mk (roll ss) (height ss) (speed ss) (rollRate ss) (isSnapping ss) b.
End SprayState.

(** The object held by [stateRef]. *)
Record PhysicsState : Type := mkPhysicsState {
  pitch : number;
  roll : number;
  yaw : number;
  cameraYaw : number;
  height : number;
  vY : number;
  speed : number;
  prevPitch : number;
  prevRoll : number
}.

(** [THREE.Euler] and the part of [THREE.Group] the component writes. *)
Record Euler : Type := mkEuler {
  euler_x : number;
  euler_y : number;
  euler_z : number;
  order : string
}.

Record Group : Type := mkGroup {
  position : THREE.Vector3;
  rotation : Euler
}.

(** [v.applyAxisAngle(axis, angle)], as three.js computes it: through the
    quaternion [(axis * sin(angle / 2), cos(angle / 2))]. *)
Definition applyAxisAngle (v axis : THREE.Vector3) (angle : number)
  : THREE.Vector3 :=
  let halfAngle := angle / 2 in
  let s := Math.sin halfAngle in
  let qx := THREE.x axis * s in
  let qy := THREE.y axis * s in
  let qz := THREE.z axis * s in
  let qw := Math.cos halfAngle in
  let vx := THREE.x v in
  let vy := THREE.y v in
  let vz := THREE.z v in
  let tx := 2 * (qy * vz - qz * vy) in
  let ty := 2 * (qz * vx - qx * vz) in
  let tz := 2 * (qx * vy - qy * vx) in
  THREE.mkVector3
    (vx + qw * tx + qy * tz - qz * ty)
    (vy + qw * ty + qz * tx - qx * tz)
    (vz + qw * tz + qx * ty - qy * tx).

Definition multiplyScalar (v : THREE.Vector3) (s : number) : THREE.Vector3 :=
  THREE.mkVector3 (THREE.x v * s) (THREE.y v * s) (THREE.z v * s).

Definition addVector (v w : THREE.Vector3) : THREE.Vector3 :=
  THREE.mkVector3
    (THREE.x v + THREE.x w) (THREE.y v + THREE.y w) (THREE.z v + THREE.z w).

(** [keys[code]], read for its truth value. *)
Definition Keys : Type := string -> bool.

Record World : Type := mkWorld {
  gameState : GameState;
  crashReason : string;
  keys : Keys;
  stateRef : PhysicsState;
  clockRef : number;
  groupRef : option Group;
  sprayStateRef : SprayState.t
}.

(** *** The stages of a frame *)

(** 1. Read input: the target pitch, the target roll and the snap flag. *)
Definition readInput (keys : Keys) : number * number * bool :=
  let targetPitch : number := 0.05 in
  let targetPitch : number :=
    if keys "ArrowUp" || keys "KeyW" then Fin (-0.2) else targetPitch in
  let targetPitch : number :=
    if keys "ArrowDown" || keys "KeyS" then Fin 0.3 else targetPitch in
  let targetRoll : number := 0 in
  let targetRoll : number :=
    if keys "ArrowLeft" || keys "KeyA" then Fin 0.55 else targetRoll in
  let targetRoll : number :=
    if keys "ArrowRight" || keys "KeyD" then Fin (-0.55) else targetRoll in
  let isSnapping := keys "ShiftLeft" || keys "ShiftRight" || keys "Shift" in
  let targetPitch : number :=
    if isSnapping && (Math.abs targetRoll >? 0) then Fin 0.25
    else targetPitch in
  (targetPitch, targetRoll, isSnapping).

Definition slopeInDirection (slope : WavePhysicsBridge.Slope) (yaw : number)
  : number :=
  let forwardX := - Math.sin yaw in
  let forwardZ := - Math.cos yaw in
  WavePhysicsBridge.slopeX slope * forwardX
  + WavePhysicsBridge.slopeZ slope * forwardZ.

Definition slopeMag (slope : WavePhysicsBridge.Slope) : number :=
  Math.sqrt (WavePhysicsBridge.slopeX slope * WavePhysicsBridge.slopeX slope
             + WavePhysicsBridge.slopeZ slope * WavePhysicsBridge.slopeZ slope).

(** Foil catch: full effect going downhill or sideways, halved uphill. *)
Definition uphillRatio (slope : WavePhysicsBridge.Slope) (yaw : number)
  : number :=
  if slopeMag slope >? 0.001
  then Math.max 0 (slopeInDirection slope yaw / slopeMag slope)
  else 0.

Definition foilCatchThrust (slope : WavePhysicsBridge.Slope) (yaw : number)
  : number :=
  slopeMag slope * 1.5 * (1.0 - 0.5 * uphillRatio slope yaw).

(** Drag: base drag, stall drag and carve drag, and the snap penalty. *)
Definition dragOf (s_pitch s_roll s_speed : number) (isSnapping : bool)
  : number :=
  let drag :=
    (s_speed * 0.08) + (Math.max 0 s_pitch * s_speed * 1.2)
    + (Math.abs s_roll * s_speed * 0.2) in
  if isSnapping && (Math.abs s_roll >? 0.1) then drag + s_speed * 2.5
  else drag.

(** The three statements that integrate the speed: the sum, the [isNaN]
    guard and the clamp. *)
Definition integrateSpeed
  (s_speed waveSlopeThrust foilCatchThrust pumpThrust drag dt : number)
  : number :=
  let s_speed :=
    s_speed + (waveSlopeThrust + foilCatchThrust + pumpThrust - drag) * dt in
  let s_speed := if isNaN s_speed then Fin 0 else s_speed in
  THREE.MathUtils.clamp s_speed 1.0 25.0.

(** Ground effect assist. *)
Definition groundEffectOf (s_height : number) : number :=
  let groundEffect : number := 0 in
  let groundEffect :=
    if s_height <? 0.3 then (0.3 - s_height) * 15.0 else groundEffect in
  let groundEffect :=
    if s_height >? 1.0 then - (s_height - 1.0) * 10.0 else groundEffect in
  groundEffect.

(** 4. Crash detection: the pair [(crashed, reason)]. *)
Definition crashDetection (s_height : number) : bool * string :=
  if s_height <=? Fin (-0.05) then
    (true, "TOUCHDOWN! Board dug into the water.")
  else if s_height >=? 1.3 then
    (true, "BREACHED! Foil wing came out of the water.")
  else (false, EmptyString).

(** *** React state and effects *)

Definition GameState_eqb (a b : GameState) : bool :=
  match a, b with
  | start, start | playing, playing | gameover, gameover => true
  | _, _ => false
  end.

(** The physics state [stateRef] starts from, and is reset to. *)
Definition initialPhysicsState : PhysicsState :=
  mkPhysicsState 0 0 START_YAW START_YAW 0.4 0 12 0 0.

(** The effect on [gameState]: reset physics when game starts. *)
Definition resetEffect (w : World) : World :=
  match gameState w with
  | playing =>
      let group :=
        match groupRef w with
        | Some g =>
            let t := clockRef w in
            Some (mkGroup
                    (THREE.mkVector3 START_X
                       (WavePhysicsBridge.getWaveHeightAt START_X START_Z t
                        + 0.4)
                       START_Z)
                    (mkEuler 0 START_YAW 0 (order (rotation g))))
        | None => None
        end in
      mkWorld (gameState w) (crashReason w) (keys w) initialPhysicsState
        (clockRef w) group (sprayStateRef w)
  | _ => w
  end.

(** [setGameState(g)]: a new value is rendered and the effect that depends
    on [gameState] runs; the value already held changes nothing. *)
Definition setGameState (g : GameState) (w : World) : World :=
  if GameState_eqb g (gameState w) then w
  else
    resetEffect
      (mkWorld g (crashReason w) (keys w) (stateRef w) (clockRef w)
         (groupRef w) (sprayStateRef w)).

Definition setCrashReason (reason : string) (w : World) : World :=
  mkWorld (gameState w) reason (keys w) (stateRef w) (clockRef w)
    (groupRef w) (sprayStateRef w).

Definition setKey (code : string) (down : bool) (w : World) : World :=
  mkWorld (gameState w) (crashReason w)
    (fun c => if String.eqb c code then down else keys w c)
    (stateRef w) (clockRef w) (groupRef w) (sprayStateRef w).

(** *** The frame callback of [Player] *)

Definition useFrame (elapsedTime delta : number) (w : World) : World :=
  let clock := elapsedTime in
  match gameState w, groupRef w with
  | playing, Some group =>
      (* Cap delta to prevent physics explosions when tab is inactive *)
      let dt := Math.min delta 0.1 in
      let s := stateRef w in
      let '(targetPitch, targetRoll, isSnapping) := readInput (keys w) in
      let s_prevPitch := pitch s in
      let s_prevRoll := roll s in
      let s_pitch := THREE.MathUtils.lerp (pitch s) targetPitch (dt * 5.0) in
      let s_roll := THREE.MathUtils.lerp (roll s) targetRoll (dt * 6.0) in
      (* 2. Dynamic speed *)
      let pitchRate := Math.abs (s_pitch - s_prevPitch) / dt in
      let rollRate := Math.abs (s_roll - s_prevRoll) / dt in
      let slope :=
        WavePhysicsBridge.getWaveSlopeAt
          (THREE.x (position group)) (THREE.z (position group))
          elapsedTime in
      let waveSlopeThrust :=
        - slopeInDirection slope (yaw s) * GRAVITY * 0.35 in
      let foilCatch := foilCatchThrust slope (yaw s) in
      let pumpThrust := (pitchRate * 3.5) + (rollRate * 0.3) in
      let drag := dragOf s_pitch s_roll (speed s) isSnapping in
      let s_speed :=
        integrateSpeed (speed s) waveSlopeThrust foilCatch pumpThrust drag
          dt in
      (* 3. Vertical physics *)
      let baseLift := (s_speed / 10.0) * GRAVITY in
      let pitchLift := s_pitch * s_speed * 3.0 in
      let groundEffect := groundEffectOf (height s) in
      let waveLift := slopeMag slope * GRAVITY * 0.2 in
      let totalLift := baseLift + pitchLift + groundEffect + waveLift in
      let s_vY := vY s + (totalLift - GRAVITY) * dt in
      let s_vY := s_vY * 0.85 in
      let s_height := height s + s_vY * dt in
      (* 4. Crash detection *)
      let '(crashed, reason) := crashDetection s_height in
      if crashed then
        let s :=
          mkPhysicsState s_pitch s_roll (yaw s) (cameraYaw s) s_height s_vY
            s_speed s_prevPitch s_prevRoll in
        setGameState gameover
          (setCrashReason reason
             (mkWorld (gameState w) (crashReason w) (keys w) s clock
                (Some group)
                (SprayState.set_isPlaying false (sprayStateRef w))))
      else
        (* 5. Turning (yaw) *)
        let snapMultiplier : number := if isSnapping then 2.5 else 1.0 in
        let speedFactor : number :=
          if isSnapping then 1.0 else 10.0 / Math.max s_speed 10.0 in
        let s_yaw :=
          yaw s + s_roll * dt * 5.5 * snapMultiplier * speedFactor in
        (* 6. Movement and rotations *)
        let forward := THREE.mkVector3 0 0 (Fin (-1)) in
        let forward := applyAxisAngle forward (THREE.mkVector3 0 1 0) s_yaw in
        let forward := multiplyScalar forward (s_speed * dt) in
        let pos := addVector (position group) forward in
        let waveY :=
          WavePhysicsBridge.getWaveHeightAt (THREE.x pos) (THREE.z pos)
            elapsedTime in
        let pos := THREE.mkVector3 (THREE.x pos) (waveY + s_height)
                     (THREE.z pos) in
        let rot := mkEuler s_pitch s_yaw s_roll "YXZ" in
        let s :=
          mkPhysicsState s_pitch s_roll s_yaw (cameraYaw s) s_height s_vY
            s_speed s_prevPitch s_prevRoll in
        let ss := SprayState.mk s_roll s_height s_speed rollRate isSnapping
                    true in
        mkWorld (gameState w) (crashReason w) (keys w) s clock
          (Some (mkGroup pos rot)) ss
  | _, _ =>
      mkWorld (gameState w) (crashReason w) (keys w) (stateRef w) clock
        (groupRef w) (SprayState.set_isPlaying false (sprayStateRef w))
  end.

(** *** The game as a transition system *)

Inductive Event : Type :=
| Frame (elapsedTime delta : number)
| KeyDown (code : string)
| KeyUp (code : string)
| ClickStart.

(** [ClickStart] is the click on START RIDING or TRY AGAIN, the two
    buttons, both calling [setGameState('playing')]. *)
Definition step (w : World) (e : Event) : World :=
  match e with
  | Frame elapsedTime delta => useFrame elapsedTime delta w
  | KeyDown code => setKey code true w
  | KeyUp code => setKey code false w
  | ClickStart => setGameState playing w
  end.

Definition run (es : list Event) (w : World) : World := fold_left step es w.

(** The world once the scene is mounted: the start screen, the player
    group at the position its JSX gives it. *)
Definition initialWorld : World :=
  mkWorld start EmptyString (fun _ => false) initialPhysicsState 0
    (Some (mkGroup
             (THREE.mkVector3 START_X
                (WavePhysicsBridge.getWaveHeightAt START_X START_Z 0 + 0.4)
                START_Z)
             (mkEuler 0 0 0 "XYZ")))
    (SprayState.mk 0 0.4 12 0 false false).

(** *** The spray pool of [SprayParticles]

    The typed arrays of the pool are lists of numbers; an index outside an
    array reads [undefined], which compares like [NaN]. *)

Definition SPRAY_POOL_SIZE : nat := 100.

Record Pool : Type := mkPool {
  positions : list number;
  velocities : list number;
  sizes : list number;
  opacities : list number;
  lives : list number;
  maxLives : list number;
  baseSizes : list number;
  nextSlot : nat;
  accRail : number;
  accMast : number;
  accFoil : number;
  accSnap : number
}.

Definition set_nextSlot (n : nat) (p : Pool) : Pool :=
  mkPool (positions p) (velocities p) (sizes p) (opacities p) (lives p)
    (maxLives p) (baseSizes p) n (accRail p) (accMast p) (accFoil p)
    (accSnap p).

(** The loop of [findSlot] from [j] on, with [n] iterations left. *)
Fixpoint findSlotLoop (p : Pool) (j n : nat) : Z * Pool :=
  match n with
  | O => ((-1)%Z, p)
  | S n' =>
      let idx := ((nextSlot p + j) mod SPRAY_POOL_SIZE)%nat in
      if (nth idx (lives p) NaN <=? 0)%js then
        (Z.of_nat idx, set_nextSlot ((idx + 1) mod SPRAY_POOL_SIZE)%nat p)
      else findSlotLoop p (S j) n'
  end.

(** [findSlot()]: the index of a free slot, searched from [nextSlot] on and
    around, or -1; the pool with [nextSlot] moved past the slot found. *)
Definition findSlot (p : Pool) : Z * Pool :=
  findSlotLoop p 0 SPRAY_POOL_SIZE.

(** [a.lerp(v, alpha)] of three.js: each coordinate moves by
    [(v - a) * alpha]. *)
Definition lerpVector (a v : THREE.Vector3) (alpha : number)
  : THREE.Vector3 :=
  THREE.mkVector3
    (THREE.x a + (THREE.x v - THREE.x a) * alpha)
    (THREE.y a + (THREE.y v - THREE.y a) * alpha)
    (THREE.z a + (THREE.z v - THREE.z a) * alpha).

(** The camera follow of [Player]'s frame callback: the offset of the
    camera from the board, and the camera position after the frame, from
    the position before it, the board's new position and the frame's
    [dt]. *)
Definition cameraOffset : THREE.Vector3 :=
  let camWave : number := 10 in
  let camCrest : number := 5 in
  let camUp : number := 3 in
  THREE.mkVector3
    (camWave * WAVE_DIR_X + camCrest * WAVE_DIR_Z)
    camUp
    (camWave * WAVE_DIR_Z - camCrest * WAVE_DIR_X).

Definition cameraFollow (camera groupPosition : THREE.Vector3) (dt : number)
  : THREE.Vector3 :=
  let targetCameraPos := addVector groupPosition cameraOffset in
  lerpVector camera targetCameraPos (dt * 3).

End App.

Import WavePhysicsBridge.
Import App.

(** * The vocabulary of the statements

    Real-valued readings of the quantities the surface code computes at a
    finite point, the predicates the statements use, and the worlds they
    are tried on. *)

(** The real carried by a finite number (0 for the special values). *)
Definition toR (a : number) : R :=
  match a with Fin r => r | _ => 0 end.

Definition finiteVector (v : THREE.Vector3) : Prop :=
  exists a b c : R, v = THREE.mkVector3 (Fin a) (Fin b) (Fin c).

(** The depth at a finite point. *)
Definition depthR (x z : R) : R :=
  Rmax 1.5 (Rmin 10.0 (10.0 - ((z - x * 0.42) - 30.0) * 0.12)).

(** The shoaling factor [1 / sqrt(max(depth / deep, 0.05))] at depth [d]. *)
Definition shoalFactorR (d : R) : R := 1.0 / sqrt (Rmax (d / 10.0) 0.05).

(** The weighted shoaling of wave [i]: full for wave 0, 30% for the rest. *)
Definition effectiveShoalR (i : nat) (d : R) : R :=
  1.0 + (shoalFactorR d - 1.0) * (if Nat.eqb i 0 then 1.0 else 0.3).

(** The shoaled amplitude, the capped steepness, the wave number and the
    displacement factor of wave [i] at the point [(x, z)]. *)
Definition amplitudeR (i : nat) (x z : R) : R :=
  toR (amplitude (WAVES_at i)) * effectiveShoalR i (depthR x z).

Definition steepnessR (i : nat) (x z : R) : R :=
  Rmin (toR (steepness (WAVES_at i)) * effectiveShoalR i (depthR x z)) 0.4.

Definition waveNumberR (i : nat) : R :=
  2 * PI / toR (wavelength (WAVES_at i)).

Definition displacementFactorR (i : nat) (x z : R) : R :=
  Rmax 0
    (Rmin (steepnessR i x z / (waveNumberR i * amplitudeR i x z * 3)) 0.5).

(** The same quantities in the vertex shader, whose wave number is
    [6.28318 / wavelength] and whose clamp is [min(max(., 0), 0.5)]. *)
Definition shaderWaveNumberR (i : nat) : R :=
  6.28318 / toR (wavelength (WAVES_at i)).

Definition shaderDisplacementFactorR (i : nat) (x z : R) : R :=
  Rmin
    (Rmax (steepnessR i x z / (shaderWaveNumberR i * amplitudeR i x z * 3))
       0.0)
    0.5.

(** The phase of wave [i] at the point [(x, z)] and time [t], in the
    bridge and in the shader. *)
Definition phaseR (x z t : R) (i : nat) : R :=
  let w := WAVES_at i in
  waveNumberR i
  * (toR (dirX w) * x + toR (dirZ w) * z
     - toR (WavePhysicsBridge.speed w) * t).

Definition shaderPhaseR (x z t : R) (i : nat) : R :=
  let w := WAVES_at i in
  shaderWaveNumberR i
  * (toR (dirX w) * x + toR (dirZ w) * z
     - toR (WavePhysicsBridge.speed w) * t).

(** The height of the wave sum at a finite point and time, before the
    breaking fold. *)
Definition waveSumYR (x z t : R) : R :=
  0 + amplitudeR 0 x z * sin (phaseR x z t 0)
  + amplitudeR 1 x z * sin (phaseR x z t 1)
  + amplitudeR 2 x z * sin (phaseR x z t 2).

(** What the displacement factor times the amplitude comes to for wave
    [i] where nothing is clamped: [steepness * wavelength / (6 * PI)]. *)
Definition deepFactorR (i : nat) : R :=
  toR (steepness (WAVES_at i)) * toR (wavelength (WAVES_at i))
  / (3 * (2 * PI)).

Definition smoothstepR (edge0 edge1 x : R) : R :=
  let t := Rmax 0 (Rmin ((x - edge0) / (edge1 - edge0)) 1.0) in
  t * t * (3 - 2 * t).

(** The speed a frame leaves behind is a finite value between 1 and 25. *)
Definition speed_in_range (s : PhysicsState) : Prop :=
  exists r : R, speed s = Fin r /\ 1 <= r <= 25.

(** The quantities a frame run while playing computes from the world [w],
    its group [g], the clock reading [t] and the frame time [d], named as
    in the source. *)
Definition frame_dt (d : number) : number := Math.min d 0.1.

Definition frame_pitch (w : World) (d : number) : number :=
  THREE.MathUtils.lerp (pitch (stateRef w)) (fst (fst (readInput (keys w))))
    (frame_dt d * 5.0)%js.

Definition frame_roll (w : World) (d : number) : number :=
  THREE.MathUtils.lerp (roll (stateRef w)) (snd (fst (readInput (keys w))))
    (frame_dt d * 6.0)%js.

Definition frame_rollRate (w : World) (d : number) : number :=
  (Math.abs (frame_roll w d - roll (stateRef w)) / frame_dt d)%js.

Definition frame_yaw (w : World) (d : number) (s_speed : number) : number :=
  let isSnapping := snd (readInput (keys w)) in
  let snapMultiplier : number := if isSnapping then 2.5 else 1.0 in
  let speedFactor : number :=
    if isSnapping then 1.0 else (10.0 / Math.max s_speed 10.0)%js in
  (yaw (stateRef w)
   + frame_roll w d * frame_dt d * 5.5 * snapMultiplier * speedFactor)%js.

Definition frame_position (g : Group) (t d s_yaw s_speed s_height : number)
  : THREE.Vector3 :=
  let forward :=
    multiplyScalar
      (applyAxisAngle (THREE.mkVector3 0 0 (Fin (-1)))
         (THREE.mkVector3 0 1 0) s_yaw)
      (s_speed * frame_dt d)%js in
  let pos := addVector (position g) forward in
  THREE.mkVector3 (THREE.x pos)
    (WavePhysicsBridge.getWaveHeightAt (THREE.x pos) (THREE.z pos) t
     + s_height)%js
    (THREE.z pos).

(** All fields of a physics state, and the pose of a group, are finite. *)
Definition finiteState (s : PhysicsState) : Prop :=
  finite (pitch s) /\ finite (roll s) /\ finite (yaw s) /\
  finite (cameraYaw s) /\ finite (height s) /\ finite (vY s) /\
  finite (speed s) /\ finite (prevPitch s) /\ finite (prevRoll s).

Definition finiteGroup (g : Group) : Prop :=
  finiteVector (position g) /\ finite (euler_x (rotation g)) /\
  finite (euler_y (rotation g)) /\ finite (euler_z (rotation g)).

(** Pitch and roll are within the range of their targets. *)
Definition postureBounded (s : PhysicsState) : Prop :=
  exists p r : R,
    pitch s = Fin p /\ roll s = Fin r /\
    -0.2 <= p <= 0.3 /\ -0.55 <= r <= 0.55.

(** A frame as the render loop delivers it: a finite clock reading and a
    finite frame time that is not negative. *)
Definition clockEvent (e : Event) : Prop :=
  match e with
  | Frame t d => exists tr dr : R, t = Fin tr /\ d = Fin dr /\ 0 <= dr
  | _ => True
  end.

(** The worlds the game keeps to under such frames. *)
Definition sound (w : World) : Prop :=
  finiteState (stateRef w) /\ postureBounded (stateRef w) /\
  speed_in_range (stateRef w) /\ finite (clockRef w) /\
  exists g : Group, groupRef w = Some g /\ finiteGroup g.

(** The vertical velocity a frame leaves, from the velocity [v] and the
    height [h] it found, the new speed [sp] and pitch [p], the slope
    [(sx, sz)] under the rider and the capped frame time [dt]. *)
Definition groundEffectR (h : R) : R :=
  if Rlt_dec 1.0 h then - (h - 1.0) * 10.0
  else if Rlt_dec h 0.3 then (0.3 - h) * 15.0 else 0.

Definition verticalVelocityR (v h sp p sx sz dt : R) : R :=
  (v + (sp / 10.0 * 9.8 + p * sp * 3.0 + groundEffectR h
        + sqrt (sx * sx + sz * sz) * 9.8 * 0.2 - 9.8) * dt) * 0.85.

(** A short ride: start, a frame, a key, another frame. *)
Definition rideEvents : list Event :=
  [ClickStart; Frame 0 0.016; KeyDown "KeyA"; Frame 0.016 0.016].

(** The player group sits on the surface: its Y is the wave height under
    it at the last clock reading plus the ride height. *)
Definition onSurface (w : World) : Prop :=
  exists g : Group,
    groupRef w = Some g /\
    THREE.y (position g) =
    (getWaveHeightAt (THREE.x (position g)) (THREE.z (position g))
       (clockRef w)
     + height (stateRef w))%js.

(** The ride height is between the two crash thresholds. *)
Definition rideHeight (w : World) : Prop :=
  exists h : R, height (stateRef w) = Fin h /\ -0.05 < h < 1.3.

(** The two messages of the crash detection. *)
Definition TOUCHDOWN : string := "TOUCHDOWN! Board dug into the water.".
Definition BREACHED : string := "BREACHED! Foil wing came out of the water.".

(** The reason shown fits the screen. *)
Definition reasonShown (w : World) : Prop :=
  (crashReason w = EmptyString \/ crashReason w = TOUCHDOWN \/
   crashReason w = BREACHED) /\
  (gameState w = gameover ->
   crashReason w = TOUCHDOWN \/ crashReason w = BREACHED) /\
  (gameState w = start -> crashReason w = EmptyString).

(** The spray state, when it says the rider is playing, mirrors the
    physics state of a game in play. *)
Definition sprayLive (w : World) : Prop :=
  SprayState.isPlaying (sprayStateRef w) = true ->
  gameState w = playing /\
  SprayState.roll (sprayStateRef w) = roll (stateRef w) /\
  SprayState.height (sprayStateRef w) = height (stateRef w) /\
  SprayState.speed (sprayStateRef w) = speed (stateRef w).

(** Slot [i] of the pool is free: the test of [findSlot]. *)
Definition slotFree (p : Pool) (i : nat) : bool :=
  (nth i (lives p) NaN <=? 0)%js.

(** The slot [findSlot] looks at in its [j]-th iteration. *)
Definition slotAt (p : Pool) (j : nat) : nat :=
  ((nextSlot p + j) mod SPRAY_POOL_SIZE)%nat.

(** A pool whose slot 0 holds a live particle and whose slot 1 is free. *)
Definition busyFirstPool : Pool :=
  mkPool [] [] [] [] [Fin 1; Fin 0] [] [] 0 (Fin 0) (Fin 0) (Fin 0) (Fin 0).

(** A number that is not an infinity: finite, or [NaN]. *)
Definition tame (a : number) : Prop :=
  match a with
  | PosInf | NegInf => False
  | _ => True
  end.

(** The speed a frame has just summed, before the [isNaN] guard and the
    clamp: the first of the three statements of [integrateSpeed], on the
    thrusts and the drag the frame callback computes. *)
Definition frame_speedSum (w : World) (g : Group) (t d : number) : number :=
  let s := stateRef w in
  let dt := frame_dt d in
  let isSnapping := snd (readInput (keys w)) in
  let s_pitch := frame_pitch w d in
  let s_roll := frame_roll w d in
  let pitchRate := (Math.abs (s_pitch - pitch s) / dt)%js in
  let rollRate := frame_rollRate w d in
  let slope :=
    getWaveSlopeAt (THREE.x (position g)) (THREE.z (position g)) t in
  let waveSlopeThrust :=
    (- slopeInDirection slope (yaw s) * GRAVITY * 0.35)%js in
  let foilCatch := foilCatchThrust slope (yaw s) in
  let pumpThrust := ((pitchRate * 3.5) + (rollRate * 0.3))%js in
  let drag := dragOf s_pitch s_roll (speed s) isSnapping in
  (speed s + (waveSlopeThrust + foilCatch + pumpThrust - drag) * dt)%js.

(** The pitch and the roll are smoothed by the same frame time: the roll
    is finite whenever the pitch is. *)
Definition postureTied (s : PhysicsState) : Prop :=
  finite (pitch s) -> finite (roll s).

(** The click on START RIDING / TRY AGAIN, the one event that resets. *)
Definition isReset (e : Event) : bool :=
  match e with ClickStart => true | _ => false end.

Definition noReset (es : list Event) : bool :=
  forallb (fun e => negb (isReset e)) es.

(** The part of the world that makes the rider: the physics state and the
    pose of the player group. *)
Definition rider (w : World) : PhysicsState * option Group :=
  (stateRef w, groupRef w).

(** The game once START RIDING has been clicked on the start screen, and
    its player group, at the starting position. *)
Definition startedWorld : World := run [ClickStart] initialWorld.

Definition startedGroup : Group :=
  mkGroup
    (THREE.mkVector3 START_X
       (WavePhysicsBridge.getWaveHeightAt START_X START_Z 0 + 0.4)%js START_Z)
    (mkEuler 0 START_YAW 0 "XYZ").

(** A rider already under water, one frame before the crash is seen. *)
Definition sunkGroup : Group :=
  mkGroup (THREE.mkVector3 5 0 20) (mkEuler 0 START_YAW 0 "XYZ").

Definition sunkWorld : World :=
  mkWorld playing EmptyString (fun _ => false)
    (mkPhysicsState 0 0 START_YAW START_YAW (Fin (-1)) 0 12 0 0) 0
    (Some sunkGroup) (SprayState.mk 0 0.4 12 0 false true).

(** A slope the magnitude test of the foil catch does not pass: 0.001 down
    towards -Z, met heading straight up it. *)
Definition gentleUphill : Slope := mkSlope (Fin 0) (Fin (-0.001)).

(** Unfolds [Rmax] and [Rmin] and settles the cases by linear arithmetic. *)
Ltac rminmax :=
  unfold Rmax, Rmin in *; repeat (destruct (Rle_dec _ _)); try lra.

(** Splits on the comparisons of reals the arithmetic of [number] makes. *)
Ltac decide_reals :=
  repeat match goal with
         | |- context [Req_dec_T ?a ?b] => destruct (Req_dec_T a b)
         | |- context [Rlt_dec ?a ?b] => destruct (Rlt_dec a b)
         end.

(** The closure lemmas of [tame]. *)
Create HintDb tame.

(** * Properties *)

(** ** Comparisons and arithmetic on finite numbers *)

Lemma ltb_Fin (x y : R) : (Fin x <? Fin y)%js = true <-> x < y.
Proof.
  unfold Num.ltb. destruct (Rlt_dec x y); split; intro; auto; discriminate.
Qed.

Lemma ltb_Fin_false (x y : R) : (Fin x <? Fin y)%js = false <-> y <= x.
Proof.
  unfold Num.ltb. destruct (Rlt_dec x y); split; intro; auto;
    try discriminate; lra.
Qed.

Lemma leb_Fin (x y : R) : (Fin x <=? Fin y)%js = true <-> x <= y.
Proof.
  unfold Num.leb. destruct (Rle_dec x y); split; intro; auto; discriminate.
Qed.

Lemma leb_Fin_false (x y : R) : (Fin x <=? Fin y)%js = false <-> y < x.
Proof.
  unfold Num.leb. destruct (Rle_dec x y); split; intro; auto;
    try discriminate; lra.
Qed.

Lemma gtb_Fin (x y : R) : (Fin x >? Fin y)%js = true <-> y < x.
Proof. apply ltb_Fin. Qed.

Lemma gtb_Fin_false (x y : R) : (Fin x >? Fin y)%js = false <-> x <= y.
Proof. apply ltb_Fin_false. Qed.

Lemma geb_Fin (x y : R) : (Fin x >=? Fin y)%js = true <-> y <= x.
Proof. apply leb_Fin. Qed.

Lemma geb_Fin_false (x y : R) : (Fin x >=? Fin y)%js = false <-> x < y.
Proof. apply leb_Fin_false. Qed.

Lemma div_Fin (x y : R) : y <> 0 -> (Fin x / Fin y)%js = Fin (x / y).
Proof.
  intro Hy. unfold Num.div.
  destruct (Req_dec_T y 0); [contradiction | reflexivity].
Qed.

Lemma sqrt_Fin (x : R) : 0 <= x -> Math.sqrt (Fin x) = Fin (sqrt x).
Proof.
  intro Hx. unfold Math.sqrt. destruct (Rlt_dec x 0); [lra | reflexivity].
Qed.

(** ** DepthModel *)

Lemma getDepth_Fin (x z : R) :
  getDepth (Fin x) (Fin z) =
  Fin (Rmax 1.5 (Rmin 10.0 (10.0 - ((z - x * 0.42) - 30.0) * 0.12))).
Proof. reflexivity. Qed.

(** C4.  For finite inputs [getDepth] returns a finite depth, the raw
    depth [deep - ((z - x * shoreAngle) - shoreZCenter) * gradient] clamped
    to the interval from [DEPTH_SHALLOW] to [DEPTH_DEEP], that is between
    1.5 and 10. *)
Theorem getDepth_bounds (x z : R) :
  exists d : R,
    getDepth (Fin x) (Fin z) = Fin d /\
    d = Rmax 1.5 (Rmin 10 (10 - ((z - x * 0.42) - 30) * 0.12)) /\
    1.5 <= d <= 10 /\
    (DEPTH_SHALLOW <=? getDepth (Fin x) (Fin z))%js = true /\
    (getDepth (Fin x) (Fin z) <=? DEPTH_DEEP)%js = true.
Proof.
  exists (Rmax 1.5 (Rmin 10 (10 - ((z - x * 0.42) - 30) * 0.12))).
  assert (E : getDepth (Fin x) (Fin z) =
              Fin (Rmax 1.5 (Rmin 10 (10 - ((z - x * 0.42) - 30) * 0.12)))).
  { rewrite getDepth_Fin. f_equal. rminmax. }
  rewrite E. unfold DEPTH_SHALLOW, DEPTH_DEEP.
  repeat split; try (apply (proj2 (leb_Fin _ _))); rminmax.
Qed.

(** ** RiderDynamics: the heading *)

(** The vector the position integration moves along, [(0, 0, -1)] turned
    about the Y axis by a finite yaw, is the [(forwardX, forwardZ)] the
    slope is projected on: [(-sin yaw, 0, -cos yaw)]. *)
Lemma forward_vector (yaw : R) :
  applyAxisAngle (THREE.mkVector3 0 0 (Fin (-1))) (THREE.mkVector3 0 1 0)
    (Fin yaw)
  = THREE.mkVector3 (Fin (- sin yaw)) (Fin 0) (Fin (- cos yaw)).
Proof.
  unfold applyAxisAngle. cbn [THREE.x THREE.y THREE.z].
  rewrite div_Fin by lra. cbn [Math.sin Math.cos Num.mul Num.sub Num.add].
  assert (Es : sin yaw = 2 * sin (yaw / 2) * cos (yaw / 2)).
  { rewrite <- sin_2a. f_equal. lra. }
  assert (Ec : cos yaw = 1 - 2 * sin (yaw / 2) * sin (yaw / 2)).
  { rewrite <- cos_2a_sin. f_equal. lra. }
  rewrite Es, Ec. f_equal; f_equal; ring.
Qed.

(** ** RiderDynamics: crash detection *)

(** How a frame ends, read off the height it leaves in [stateRef]: when
    [crashDetection] flags it the game is over, the reason is shown, and
    yaw and the player group are as before the frame; otherwise the game
    goes on and the reason shown is not touched. *)
Lemma useFrame_crash_or_not (w : World) (g : Group) (t d : number) :
  gameState w = playing ->
  groupRef w = Some g ->
  let w' := useFrame t d w in
  let h' := height (stateRef w') in
  (fst (crashDetection h') = true ->
     gameState w' = gameover /\
     crashReason w' = snd (crashDetection h') /\
     yaw (stateRef w') = yaw (stateRef w) /\
     groupRef w' = Some g) /\
  (fst (crashDetection h') = false ->
     gameState w' = playing /\
     crashReason w' = crashReason w).
Proof.
  intros Hplay Hgroup w' h'. subst w' h'.
  unfold useFrame. rewrite Hplay, Hgroup.
  destruct (readInput (keys w)) as [[targetPitch targetRoll] isSnapping].
  match goal with
  | |- context [match crashDetection ?h with pair _ _ => _ end] =>
      set (s_height := h)
  end.
  destruct (crashDetection s_height) as [crashed reason] eqn:Hcrash.
  destruct crashed.
  - unfold setGameState, setCrashReason.
    cbn. rewrite Hcrash. cbn. split; [intros _ | discriminate].
    repeat split.
  - cbn. rewrite Hcrash. cbn. split; [discriminate | intros _].
    split; reflexivity.
Qed.

Lemma startedWorld_playing :
  gameState startedWorld = playing /\ groupRef startedWorld = Some startedGroup.
Proof. split; reflexivity. Qed.

(** C1.  A frame run while playing classifies the height it has just
    computed: at or below -0.05 the game is over with the touchdown reason
    (which speaks of the water); otherwise at or above 1.3 the game is
    over with the breach reason (the foil wing came out of the water);
    otherwise the game goes on and no reason is set.  A height of -0.06 is
    a touchdown and a height of 1.35 a breach, in that same frame. *)
Theorem crash_check_classifies (w : World) (g : Group) (t d : number) :
  gameState w = playing ->
  groupRef w = Some g ->
  let w' := useFrame t d w in
  let h' := height (stateRef w') in
  let touchdown := "TOUCHDOWN! Board dug into the water."%string in
  let breached := "BREACHED! Foil wing came out of the water."%string in
  ((h' <=? Fin (-0.05))%js = true ->
     gameState w' = gameover /\ crashReason w' = touchdown) /\
  ((h' <=? Fin (-0.05))%js = false -> (h' >=? 1.3)%js = true ->
     gameState w' = gameover /\ crashReason w' = breached) /\
  ((h' <=? Fin (-0.05))%js = false -> (h' >=? 1.3)%js = false ->
     gameState w' = playing /\ crashReason w' = crashReason w) /\
  (h' = Fin (-0.06) ->
     gameState w' = gameover /\ crashReason w' = touchdown) /\
  (h' = Fin 1.35 ->
     gameState w' = gameover /\ crashReason w' = breached) /\
  index 0 "water" touchdown = Some 30%nat /\
  index 0 "out of the water" breached = Some 25%nat.
Proof.
  intros Hplay Hgroup w' h' touchdown breached.
  destruct (useFrame_crash_or_not w g t d Hplay Hgroup) as [Hc Hn].
  fold w' in Hc, Hn. fold h' in Hc, Hn.
  assert (Htd : (h' <=? Fin (-0.05))%js = true ->
                gameState w' = gameover /\ crashReason w' = touchdown).
  { intro Hle. unfold crashDetection in Hc. rewrite Hle in Hc.
    destruct (Hc eq_refl) as (? & ? & _). split; assumption. }
  assert (Hbr : (h' <=? Fin (-0.05))%js = false -> (h' >=? 1.3)%js = true ->
                gameState w' = gameover /\ crashReason w' = breached).
  { intros Hle Hge. unfold crashDetection in Hc. rewrite Hle, Hge in Hc.
    destruct (Hc eq_refl) as (? & ? & _). split; assumption. }
  assert (Hno : (h' <=? Fin (-0.05))%js = false -> (h' >=? 1.3)%js = false ->
                gameState w' = playing /\ crashReason w' = crashReason w).
  { intros Hle Hge. unfold crashDetection in Hn. rewrite Hle, Hge in Hn.
    apply Hn. reflexivity. }
  split; [exact Htd | split; [exact Hbr | split; [exact Hno |]]].
  split; [| split; [| split; reflexivity]].
  - intro E. apply Htd. rewrite E. apply leb_Fin. lra.
  - intro E. apply Hbr; rewrite E; [apply leb_Fin_false | apply geb_Fin]; lra.
Qed.


(** ** RiderDynamics: speed integration *)

Lemma clamp_1_25 (v : number) :
  v <> NaN ->
  exists r : R, THREE.MathUtils.clamp v 1.0 25.0 = Fin r /\ 1 <= r <= 25.
Proof.
  intro Hv. destruct v as [ | | | x]; [contradiction | | | ]; cbn;
    eexists; (split; [reflexivity | rminmax]).
Qed.

Lemma clamp_PosInf : THREE.MathUtils.clamp PosInf 1.0 25.0 = Fin 25.0.
Proof. cbn. f_equal. rminmax. Qed.

Lemma clamp_NegInf : THREE.MathUtils.clamp NegInf 1.0 25.0 = Fin 1.0.
Proof. reflexivity. Qed.

Lemma clamp_zero : THREE.MathUtils.clamp 0 1.0 25.0 = Fin 1.0.
Proof. cbn. f_equal. rminmax. Qed.

Lemma integrateSpeed_range (s wst fct pt drag dt : number) :
  exists r : R, integrateSpeed s wst fct pt drag dt = Fin r /\ 1 <= r <= 25.
Proof.
  unfold integrateSpeed.
  destruct (s + (wst + fct + pt - drag) * dt)%js as [ | | | x] eqn:E;
    cbn [isNaN]; apply clamp_1_25; discriminate.
Qed.

(** The guard and the clamp, on any sum at all.  Write [v] for the speed
    just summed.  When [v] is [NaN] it is reset to 0 and the clamp then
    gives 1.  The guard tests for [NaN] alone: were [v] an infinity, the
    clamp would bring plus infinity to 25 and minus infinity to 1.
    Whatever [v] is, the speed that leaves the integration is a finite
    value between 1 and 25.  That no frame of a ride sums an infinity is
    [ride_speedSum_tame], further down. *)
Lemma integrateSpeed_cases (s wst fct pt drag dt : number) :
  let v := (s + (wst + fct + pt - drag) * dt)%js in
  let s' := integrateSpeed s wst fct pt drag dt in
  (v = NaN -> s' = THREE.MathUtils.clamp 0 1.0 25.0 /\ s' = Fin 1.0) /\
  (v = PosInf -> s' = Fin 25.0) /\
  (v = NegInf -> s' = Fin 1.0) /\
  (forall x : R, v = Fin x -> s' = Fin (Rmax 1.0 (Rmin 25.0 x))) /\
  (exists r : R, s' = Fin r /\ 1 <= r <= 25).
Proof.
  intros v s'. subst v s'. unfold integrateSpeed.
  split; [| split; [| split; [| split]]].
  - intro E. rewrite E. cbn [isNaN]. split; [reflexivity | apply clamp_zero].
  - intro E. rewrite E. cbn [isNaN]. apply clamp_PosInf.
  - intro E. rewrite E. reflexivity.
  - intros x E. rewrite E. reflexivity.
  - apply integrateSpeed_range.
Qed.

Lemma useFrame_playing_speed (w : World) (g : Group) (t d : number) :
  gameState w = playing ->
  groupRef w = Some g ->
  exists wst fct pt drag : number,
    speed (stateRef (useFrame t d w)) =
    integrateSpeed (speed (stateRef w)) wst fct pt drag (Math.min d 0.1).
Proof.
  intros Hplay Hgroup. unfold useFrame. rewrite Hplay, Hgroup.
  destruct (readInput (keys w)) as [[targetPitch targetRoll] isSnapping].
  match goal with
  | |- context [match crashDetection ?h with pair _ _ => _ end] =>
      destruct (crashDetection h) as [[ | ] reason]
  end; do 4 eexists; reflexivity.
Qed.

Lemma useFrame_idle (w : World) (t d : number) :
  gameState w <> playing \/ groupRef w = None ->
  stateRef (useFrame t d w) = stateRef w /\
  groupRef (useFrame t d w) = groupRef w /\
  gameState (useFrame t d w) = gameState w /\
  crashReason (useFrame t d w) = crashReason w.
Proof.
  intros H. unfold useFrame.
  destruct (gameState w) eqn:Hg, (groupRef w) eqn:Hr;
    try (repeat split; reflexivity).
  destruct H as [H | H]; [contradiction | discriminate].
Qed.

Lemma useFrame_speed (w : World) (t d : number) :
  speed_in_range (stateRef w) -> speed_in_range (stateRef (useFrame t d w)).
Proof.
  intro Hw.
  destruct (gameState w) eqn:Hg;
    try (destruct (useFrame_idle w t d) as [E _];
         [left; rewrite Hg; discriminate | rewrite E; exact Hw]).
  destruct (groupRef w) as [g | ] eqn:Hr.
  - destruct (useFrame_playing_speed w g t d Hg Hr)
      as (wst & fct & pt & drag & E).
    unfold speed_in_range. rewrite E. apply integrateSpeed_range.
  - destruct (useFrame_idle w t d) as [E _];
      [right; exact Hr | rewrite E; exact Hw].
Qed.

Lemma initial_speed_in_range : speed_in_range initialPhysicsState.
Proof. exists 12. split; [reflexivity | lra]. Qed.

Lemma setGameState_stateRef (g : GameState) (w : World) :
  stateRef (setGameState g w) = stateRef w \/
  (g = playing /\ gameState w <> playing /\
   stateRef (setGameState g w) = initialPhysicsState).
Proof.
  unfold setGameState.
  destruct g, (gameState w) eqn:Hg; cbn; auto;
    right; (split; [reflexivity | split; [discriminate | reflexivity]]).
Qed.

Lemma step_speed (w : World) (e : Event) :
  speed_in_range (stateRef w) -> speed_in_range (stateRef (step w e)).
Proof.
  intro Hw. destruct e as [t d | code | code | ]; cbn [step].
  - apply useFrame_speed, Hw.
  - exact Hw.
  - exact Hw.
  - destruct (setGameState_stateRef playing w) as [E | (_ & _ & E)];
      rewrite E; [exact Hw | apply initial_speed_in_range].
Qed.

Lemma run_speed (es : list Event) (w : World) :
  speed_in_range (stateRef w) -> speed_in_range (stateRef (run es w)).
Proof.
  revert w. induction es as [ | e es IH]; intros w Hw; cbn.
  - exact Hw.
  - apply IH, step_speed, Hw.
Qed.

(** C2.  The speed is a finite value between 1 and 25 in the initial
    state, after a reset and after every frame: in every world the game
    can reach, and after a frame run while playing from any world at all,
    since such a frame sets the speed through [integrateSpeed], whose last
    act is the clamp.  The reset puts the speed at 12. *)
Theorem speed_clamp_invariant :
  (forall es : list Event,
     speed_in_range (stateRef (run es initialWorld))) /\
  (forall (w : World) (g : Group) (t d : number),
     gameState w = playing ->
     groupRef w = Some g ->
     speed_in_range (stateRef (useFrame t d w)) /\
     exists wst fct pt drag : number,
       speed (stateRef (useFrame t d w)) =
       integrateSpeed (speed (stateRef w)) wst fct pt drag
         (Math.min d 0.1)) /\
  speed initialPhysicsState = Fin 12 /\
  (forall w : World,
     gameState w <> playing ->
     stateRef (setGameState playing w) = initialPhysicsState).
Proof.
  split; [| split; [| split]].
  - intro es. apply run_speed. apply initial_speed_in_range.
  - intros w g t d Hplay Hgroup.
    destruct (useFrame_playing_speed w g t d Hplay Hgroup)
      as (wst & fct & pt & drag & E).
    split.
    + unfold speed_in_range. rewrite E. apply integrateSpeed_range.
    + exists wst, fct, pt, drag. exact E.
  - reflexivity.
  - intros w Hw.
    destruct (setGameState_stateRef playing w) as [E | (_ & _ & E)];
      [| exact E].
    unfold setGameState. destruct (gameState w); cbn; try reflexivity.
    contradiction.
Qed.

Lemma speed_clamp_invariant_witness :
  gameState startedWorld = playing /\
  groupRef startedWorld = Some startedGroup /\
  speed_in_range (stateRef (useFrame 0 0.016 startedWorld)).
Proof.
  split; [reflexivity | split; [reflexivity |]].
  exact (proj1 (proj1 (proj2 speed_clamp_invariant)
                  startedWorld startedGroup 0 0.016 eq_refl eq_refl)).
Defined.

(** ** RiderDynamics: ground effect *)

Lemma add_0_r (a : number) : (a + Fin 0)%js = a.
Proof. destruct a; cbn; try reflexivity. f_equal. lra. Qed.

Lemma groundEffectOf_Fin (h : R) :
  groundEffectOf (Fin h) =
  Fin (if Rlt_dec 1.0 h then - (h - 1.0) * 10.0
       else if Rlt_dec h 0.3 then (0.3 - h) * 15.0 else 0).
Proof.
  unfold groundEffectOf, Num.gtb, Num.ltb.
  destruct (Rlt_dec 1.0 h), (Rlt_dec h 0.3); reflexivity.
Qed.

Lemma groundEffectOf_in_band (h : R) :
  0.3 <= h <= 1.0 -> groundEffectOf (Fin h) = Fin 0.
Proof.
  intro Hh. rewrite groundEffectOf_Fin.
  destruct (Rlt_dec 1.0 h), (Rlt_dec h 0.3); try lra. reflexivity.
Qed.

(** C10.  The ground effect at a finite height [h] is finite; it is zero
    exactly on the band from 0.3 to 1.0, positive exactly below 0.3 (where
    it is [(0.3 - h) * 15]) and negative exactly above 1.0 (where it is
    [-(h - 1) * 10]).  A frame run while playing from a height in the band
    therefore updates the vertical velocity from base lift, pitch lift,
    wave lift, gravity and the damping factor alone. *)
Theorem groundEffect_band :
  (forall h : R,
     exists ge : R,
       groundEffectOf (Fin h) = Fin ge /\
       (ge = 0 <-> 0.3 <= h <= 1.0) /\
       (0 < ge <-> h < 0.3) /\
       (ge < 0 <-> 1.0 < h) /\
       (h < 0.3 -> ge = (0.3 - h) * 15) /\
       (1.0 < h -> ge = - (h - 1) * 10)) /\
  (forall (w : World) (g : Group) (t d : number) (h : R),
     gameState w = playing ->
     groupRef w = Some g ->
     height (stateRef w) = Fin h ->
     0.3 <= h <= 1.0 ->
     let w' := useFrame t d w in
     let slope :=
       getWaveSlopeAt (THREE.x (position g)) (THREE.z (position g)) t in
     let dt := Math.min d 0.1 in
     let baseLift := (speed (stateRef w') / 10.0 * GRAVITY)%js in
     let pitchLift :=
       (pitch (stateRef w') * speed (stateRef w') * 3.0)%js in
     let waveLift := (slopeMag slope * GRAVITY * 0.2)%js in
     vY (stateRef w') =
     ((vY (stateRef w)
       + (baseLift + pitchLift + waveLift - GRAVITY) * dt) * 0.85)%js).
Proof.
  split.
  - intro h. eexists. split; [apply groundEffectOf_Fin |].
    destruct (Rlt_dec 1.0 h), (Rlt_dec h 0.3);
      repeat split; intros; lra.
  - intros w g t d h Hplay Hgroup Hh Hband.
    unfold useFrame. rewrite Hplay, Hgroup, Hh.
    rewrite (groundEffectOf_in_band h Hband).
    destruct (readInput (keys w)) as [[targetPitch targetRoll] isSnapping].
    match goal with
    | |- context [match crashDetection ?h with pair _ _ => _ end] =>
        destruct (crashDetection h) as [[ | ] reason]
    end.
    + unfold setGameState, setCrashReason.
      cbn [gameState GameState_eqb resetEffect stateRef vY speed pitch].
      rewrite add_0_r. reflexivity.
    + cbn [stateRef vY speed pitch]. rewrite add_0_r. reflexivity.
Qed.

Lemma groundEffect_band_witness :
  gameState startedWorld = playing /\
  groupRef startedWorld = Some startedGroup /\
  height (stateRef startedWorld) = Fin 0.4 /\
  0.3 <= 0.4 <= 1.0 /\
  groundEffectOf (Fin 0.4) = Fin 0 /\
  vY (stateRef (useFrame 0 0.016 startedWorld)) =
  ((vY (stateRef startedWorld)
    + (speed (stateRef (useFrame 0 0.016 startedWorld)) / 10.0 * GRAVITY
       + pitch (stateRef (useFrame 0 0.016 startedWorld))
         * speed (stateRef (useFrame 0 0.016 startedWorld)) * 3.0
       + slopeMag
           (getWaveSlopeAt (THREE.x (position startedGroup))
              (THREE.z (position startedGroup)) 0)
         * GRAVITY * 0.2
       - GRAVITY) * Math.min 0.016 0.1) * 0.85)%js.
Proof.
  assert (Hband : 0.3 <= 0.4 <= 1.0) by lra.
  split; [reflexivity | split; [reflexivity | split; [reflexivity |]]].
  split; [exact Hband |].
  split.
  - destruct (proj1 groundEffect_band 0.4) as (ge & E & Hz & _).
    rewrite E. f_equal. apply Hz. exact Hband.
  - exact (proj2 groundEffect_band startedWorld startedGroup 0 0.016 0.4
             eq_refl eq_refl eq_refl Hband).
Defined.

(** ** RiderDynamics: foil-catch thrust *)

Section FoilCatch.

Variables sx sz yaw : R.

Let slope : Slope := mkSlope (Fin sx) (Fin sz).
Let m : R := sqrt (sx * sx + sz * sz).
Let sid : R := sx * - sin yaw + sz * - cos yaw.

Lemma slopeMag_Fin : slopeMag slope = Fin m.
Proof.
  unfold slopeMag, slope, m. cbn [slopeX slopeZ Num.mul Num.add].
  apply sqrt_Fin. nra.
Qed.

Lemma slopeInDirection_Fin : slopeInDirection slope (Fin yaw) = Fin sid.
Proof. reflexivity. Qed.

Lemma slopeMag_nonneg : 0 <= m.
Proof. apply sqrt_pos. Qed.

(** The slope along the heading never exceeds the slope magnitude: the
    heading [(-sin yaw, -cos yaw)] is a unit vector. *)
Lemma slopeInDirection_le_slopeMag : sid <= m.
Proof.
  unfold sid, m.
  assert (Hu := sin2_cos2 yaw). unfold Rsqr in Hu.
  set (s := sin yaw) in *. set (c := cos yaw) in *.
  apply Rle_trans with (sqrt ((sx * - s + sz * - c) * (sx * - s + sz * - c))).
  - destruct (Rle_dec 0 (sx * - s + sz * - c)) as [Hp | Hn].
    + rewrite sqrt_square by exact Hp. lra.
    + apply Rle_trans with 0; [lra | apply sqrt_pos].
  - apply sqrt_le_1_alt.
    assert (Hsq := Rle_0_sqr (sx * c - sz * s)). unfold Rsqr in Hsq.
    assert (E : sx * sx + sz * sz =
                (sx * - s + sz * - c) * (sx * - s + sz * - c)
                + (sx * c - sz * s) * (sx * c - sz * s)).
    { transitivity ((sx * sx + sz * sz) * (s * s + c * c));
        [rewrite Hu; ring | ring]. }
    rewrite E. lra.
Qed.

Lemma uphillRatio_Fin :
  uphillRatio slope (Fin yaw) =
  Fin (if Rlt_dec 0.001 m then Rmax 0 (sid / m) else 0).
Proof.
  unfold uphillRatio. rewrite slopeMag_Fin, slopeInDirection_Fin.
  unfold Num.gtb, Num.ltb.
  destruct (Rlt_dec 0.001 m) as [Hm | Hm]; [| reflexivity].
  rewrite div_Fin by lra. reflexivity.
Qed.

Lemma foilCatchThrust_Fin :
  foilCatchThrust slope (Fin yaw) =
  Fin (m * 1.5 *
       (1.0 - 0.5 * (if Rlt_dec 0.001 m then Rmax 0 (sid / m) else 0))).
Proof.
  unfold foilCatchThrust. rewrite slopeMag_Fin, uphillRatio_Fin. reflexivity.
Qed.

Lemma uphill_fraction_bounds : 0.001 < m -> 0 <= Rmax 0 (sid / m) <= 1.
Proof.
  intro Hm. assert (Hle := slopeInDirection_le_slopeMag).
  assert (sid / m <= 1).
  { apply Rmult_le_reg_r with m; [lra |].
    unfold Rdiv. rewrite Rmult_assoc, Rinv_l by lra. lra. }
  rminmax.
Qed.

End FoilCatch.

(** C9, as the code has it.  For a finite slope and heading the foil-catch
    thrust is [|slope| * 1.5 * mult], where [mult] is
    [1 - 0.5 * max(0, slopeInDirection / |slope|)] when the slope
    magnitude exceeds 0.001 and is 1 below that threshold.  [mult] is 1
    when the rider moves with or across the slope, 0.5 when moving
    directly uphill on a slope above the threshold, always between 0.5
    and 1, and the thrust is never negative. *)
Theorem foilCatchThrust_direction (sx sz yaw : R) :
  let slope := mkSlope (Fin sx) (Fin sz) in
  let m := sqrt (sx * sx + sz * sz) in
  let sid := sx * - sin yaw + sz * - cos yaw in
  slopeMag slope = Fin m /\
  slopeInDirection slope (Fin yaw) = Fin sid /\
  exists mult : R,
    foilCatchThrust slope (Fin yaw) = Fin (m * 1.5 * mult) /\
    (0.001 < m -> mult = 1 - 0.5 * Rmax 0 (sid / m)) /\
    (m <= 0.001 -> mult = 1) /\
    (sid <= 0 -> mult = 1) /\
    (0.001 < m -> sid = m -> mult = 0.5) /\
    0.5 <= mult <= 1 /\
    0 <= m * 1.5 * mult.
Proof.
  intros slope m sid.
  split; [apply slopeMag_Fin | split; [apply slopeInDirection_Fin |]].
  assert (Hm := slopeMag_nonneg sx sz). fold m in Hm.
  assert (Hb := uphill_fraction_bounds sx sz yaw). fold m sid in Hb.
  eexists. split; [apply foilCatchThrust_Fin |]. fold m sid.
  destruct (Rlt_dec 0.001 m) as [Hlt | Hge].
  - specialize (Hb Hlt).
    repeat split; intros; try lra; try nra.
    + assert (sid / m <= 0).
      { apply Rmult_le_reg_r with m; [lra |].
        unfold Rdiv. rewrite Rmult_assoc, Rinv_l by lra. lra. }
      rminmax.
    + subst sid. match goal with H : _ = m |- _ => rewrite H end.
      unfold Rdiv. rewrite Rinv_r by lra. rminmax.
  - repeat split; intros; try lra; nra.
Qed.

Lemma foilCatchThrust_direction_witness :
  0.001 < sqrt (0 * 0 + 1 * 1) /\
  foilCatchThrust (mkSlope (Fin 0) (Fin 1)) (Fin PI) = Fin (1 * 1.5 * 0.5).
Proof.
  assert (E1 : sqrt (0 * 0 + 1 * 1) = 1).
  { replace (0 * 0 + 1 * 1) with (1 * 1) by lra. apply sqrt_square. lra. }
  assert (Hm : 0.001 < sqrt (0 * 0 + 1 * 1)) by (rewrite E1; lra).
  split; [exact Hm |].
  destruct (foilCatchThrust_direction 0 1 PI)
    as (_ & _ & mult & E & _ & _ & _ & Hup & _).
  rewrite E, E1. f_equal. f_equal. apply Hup.
  - exact Hm.
  - rewrite sin_PI, cos_PI, E1. lra.
Defined.

(** C9 as stated fails on a slope that is not zero but not above 0.001:
    heading directly uphill the thrust is the full [|slope| * 1.5], not
    the half the formula with [max(0, slopeInDirection / |slope|)] gives. *)
Lemma foilCatchThrust_gentle_uphill :
  slopeMag gentleUphill = Fin 0.001 /\
  slopeInDirection gentleUphill (Fin 0) = Fin 0.001 /\
  foilCatchThrust gentleUphill (Fin 0) = Fin 0.0015 /\
  (slopeMag gentleUphill * 1.5
   * (1.0 - 0.5 * Math.max 0 (slopeInDirection gentleUphill (Fin 0)
                              / slopeMag gentleUphill)))%js = Fin 0.00075 /\
  foilCatchThrust gentleUphill (Fin 0) <>
  (slopeMag gentleUphill * 1.5
   * (1.0 - 0.5 * Math.max 0 (slopeInDirection gentleUphill (Fin 0)
                              / slopeMag gentleUphill)))%js.
Proof.
  assert (Em : sqrt (0 * 0 + -0.001 * -0.001) = 0.001).
  { replace (0 * 0 + -0.001 * -0.001) with (0.001 * 0.001) by lra.
    apply sqrt_square. lra. }
  assert (Hmag : slopeMag gentleUphill = Fin 0.001).
  { unfold gentleUphill. rewrite slopeMag_Fin. f_equal. exact Em. }
  assert (Hsid : slopeInDirection gentleUphill (Fin 0) = Fin 0.001).
  { unfold gentleUphill. rewrite slopeInDirection_Fin. f_equal.
    rewrite sin_0, cos_0. lra. }
  assert (Hcode : foilCatchThrust gentleUphill (Fin 0) = Fin 0.0015).
  { unfold gentleUphill. rewrite foilCatchThrust_Fin, Em.
    destruct (Rlt_dec 0.001 0.001); [lra |]. f_equal. lra. }
  assert (Hclaim :
    (slopeMag gentleUphill * 1.5
     * (1.0 - 0.5 * Math.max 0 (slopeInDirection gentleUphill (Fin 0)
                                / slopeMag gentleUphill)))%js
    = Fin 0.00075).
  { rewrite Hmag, Hsid. rewrite div_Fin by lra. cbn. f_equal.
    replace (0.001 / 0.001) with 1 by lra. rminmax. }
  repeat split; try assumption.
  rewrite Hcode, Hclaim. intro H. injection H as H. lra.
Qed.

(** ** SurfaceField: shoaling and the displacement factor *)

Lemma depthR_bounds (x z : R) : 1.5 <= depthR x z <= 10.
Proof. unfold depthR. rminmax. Qed.

Lemma depthRatio_bounds (d : R) :
  1.5 <= d <= 10 -> 0.05 <= Rmax (d / 10.0) 0.05 <= 1.
Proof. intro Hd. rminmax. Qed.

Lemma sqrt_depthRatio_bounds (d : R) :
  1.5 <= d <= 10 -> 0 < sqrt (Rmax (d / 10.0) 0.05) <= 1.
Proof.
  intro Hd. destruct (depthRatio_bounds d Hd) as [Hlo Hhi]. split.
  - apply sqrt_lt_R0. lra.
  - rewrite <- sqrt_1. apply sqrt_le_1_alt. exact Hhi.
Qed.

Lemma shoalFactorR_ge_1 (d : R) : 1.5 <= d <= 10 -> 1 <= shoalFactorR d.
Proof.
  intro Hd. destruct (sqrt_depthRatio_bounds d Hd) as [Hlo Hhi].
  unfold shoalFactorR.
  apply Rmult_le_reg_r with (sqrt (Rmax (d / 10.0) 0.05)); [exact Hlo |].
  unfold Rdiv. rewrite Rmult_assoc, Rinv_l by lra. lra.
Qed.

Lemma shoalFactor_Fin (d : R) :
  1.5 <= d <= 10 ->
  (1.0 / Math.sqrt (Math.max (Fin d / Fin 10.0) 0.05))%js
  = Fin (shoalFactorR d).
Proof.
  intro Hd. destruct (sqrt_depthRatio_bounds d Hd) as [Hlo Hhi].
  destruct (depthRatio_bounds d Hd) as [Hlo' Hhi'].
  rewrite div_Fin by lra. cbn [Math.max].
  rewrite sqrt_Fin by lra. rewrite div_Fin by lra. reflexivity.
Qed.

Lemma effectiveShoalR_ge_1 (i : nat) (d : R) :
  1.5 <= d <= 10 -> 1 <= effectiveShoalR i d.
Proof.
  intro Hd. assert (H := shoalFactorR_ge_1 d Hd). unfold effectiveShoalR.
  destruct (Nat.eqb i 0); nra.
Qed.


Lemma WAVE_COUNT_3 : INR WavePhysicsBridge.WAVE_COUNT = 3.
Proof. cbn. lra. Qed.

(** The waves are finite, with positive wavelength and amplitude. *)
Lemma WAVES_finite (i : nat) :
  (i < WavePhysicsBridge.WAVE_COUNT)%nat ->
  let w := WAVES_at i in
  w = mkWaveDef (Fin (toR (dirX w))) (Fin (toR (dirZ w)))
        (Fin (toR (steepness w))) (Fin (toR (wavelength w)))
        (Fin (toR (amplitude w))) (Fin (toR (WavePhysicsBridge.speed w))) /\
  0 < toR (wavelength w) /\ 0 < toR (amplitude w) /\ 0 < toR (steepness w).
Proof.
  intro Hi. destruct i as [ | [ | [ | i]]]; cbn;
    try (split; [reflexivity | lra]).
  cbn in Hi. lia.
Qed.

(** The uniforms of the shader hold the same waves as [WAVES]. *)
Lemma shader_uniforms_mirror (i : nat) :
  (i < WavePhysicsBridge.WAVE_COUNT)%nat ->
  let w := WAVES_at i in
  WaveSurface.at_ WaveSurface.uWaveDirX i = dirX w /\
  WaveSurface.at_ WaveSurface.uWaveDirZ i = dirZ w /\
  WaveSurface.at_ WaveSurface.uWaveSteepness i = steepness w /\
  WaveSurface.at_ WaveSurface.uWaveLength i = wavelength w /\
  WaveSurface.at_ WaveSurface.uWaveAmplitude i = amplitude w /\
  WaveSurface.at_ WaveSurface.uWaveSpeed i = WavePhysicsBridge.speed w.
Proof.
  intro Hi. destruct i as [ | [ | [ | i]]]; cbn;
    try (repeat split; reflexivity).
  cbn in Hi. lia.
Qed.

Lemma shader_getDepth_Fin (x z : R) :
  WaveSurface.getDepth (Fin x) (Fin z) = Fin (depthR x z).
Proof. cbn. f_equal. unfold depthR. rminmax. Qed.

Section WaveLocals.

Variables (i : nat) (x z : R).
Hypothesis Hi : (i < WavePhysicsBridge.WAVE_COUNT)%nat.

Lemma amplitudeR_pos : 0 < amplitudeR i x z.
Proof.
  destruct (WAVES_finite i Hi) as (_ & _ & Ha & _). 
  assert (He := effectiveShoalR_ge_1 i _ (depthR_bounds x z)). 
  unfold amplitudeR. nra.
Qed.

Lemma waveNumberR_pos : 0 < waveNumberR i.
Proof.
  destruct (WAVES_finite i Hi) as (_ & Hl & _). 
  unfold waveNumberR. apply Rdiv_lt_0_compat; [| exact Hl].
  assert (H := PI_RGT_0). lra.
Qed.

Lemma waveLocals_a_q (time : number) :
  loc_a (waveLocals i (Fin x) (Fin z) time) = Fin (amplitudeR i x z) /\
  loc_q (waveLocals i (Fin x) (Fin z) time) = Fin (displacementFactorR i x z).
Proof.
  destruct (WAVES_finite i Hi) as (Ew & Hl & Ha & Hs). 
  assert (Hk := waveNumberR_pos). assert (Hamp := amplitudeR_pos).
  unfold waveLocals. rewrite getDepth_Fin. fold (depthR x z).
  unfold DEPTH_DEEP.
  rewrite (shoalFactor_Fin _ (depthR_bounds x z)).
  rewrite Ew.
  unfold Math.PI. cbn [amplitude steepness wavelength loc_a loc_q].
  replace (if Nat.eqb i 0 then Fin 1.0 else Fin 0.3)
    with (Fin (if Nat.eqb i 0 then 1.0 else 0.3))
    by (destruct (Nat.eqb i 0); reflexivity).
  cbn [Num.sub Num.add Num.mul Math.min].
  fold (effectiveShoalR i (depthR x z)).
  split; [reflexivity |].
  rewrite div_Fin by lra. cbn [Num.mul].
  rewrite WAVE_COUNT_3.
  fold (amplitudeR i x z) (steepnessR i x z).
  rewrite div_Fin; [reflexivity | unfold waveNumberR in Hk; nra].
Qed.

Lemma displacementFactorR_bounds : 0 <= displacementFactorR i x z <= 0.5.
Proof. unfold displacementFactorR. rminmax. Qed.

Lemma shaderWaveNumberR_pos : 0 < shaderWaveNumberR i.
Proof.
  destruct (WAVES_finite i Hi) as (_ & Hl & _). 
  unfold shaderWaveNumberR. apply Rdiv_lt_0_compat; [lra | exact Hl].
Qed.

Lemma shader_waveLocals_a_q (y time : number) :
  let pos := THREE.mkVector3 (Fin x) y (Fin z) in
  WaveSurface.loc_a (WaveSurface.waveLocals i pos time)
  = Fin (amplitudeR i x z) /\
  WaveSurface.loc_q (WaveSurface.waveLocals i pos time)
  = Fin (shaderDisplacementFactorR i x z).
Proof.
  intro pos.
  destruct (WAVES_finite i Hi) as (Ew & Hl & Ha & Hs). 
  destruct (shader_uniforms_mirror i Hi) as (_ & _ & Est & Ewl & Eam & _).
  assert (Hk := shaderWaveNumberR_pos). assert (Hamp := amplitudeR_pos).
  unfold WaveSurface.waveLocals, pos. cbn [THREE.x THREE.z].
  rewrite shader_getDepth_Fin. unfold WaveSurface.uDepthDeep.
  rewrite (shoalFactor_Fin _ (depthR_bounds x z)).
  rewrite Est, Ewl, Eam. rewrite Ew.
  cbn [amplitude steepness wavelength WaveSurface.loc_a WaveSurface.loc_q].
  replace (if Nat.eqb i 0 then Fin 1.0 else Fin 0.3)
    with (Fin (if Nat.eqb i 0 then 1.0 else 0.3))
    by (destruct (Nat.eqb i 0); reflexivity).
  cbn [Num.sub Num.add Num.mul Math.min].
  fold (effectiveShoalR i (depthR x z)).
  split; [reflexivity |].
  rewrite div_Fin by lra. cbn [Num.mul].
  replace (INR WaveSurface.WAVE_COUNT) with 3 by (cbn; lra).
  fold (amplitudeR i x z) (steepnessR i x z) (shaderWaveNumberR i).
  rewrite div_Fin; [reflexivity | nra].
Qed.

Lemma shaderDisplacementFactorR_bounds :
  0 <= shaderDisplacementFactorR i x z <= 0.5.
Proof. unfold shaderDisplacementFactorR. rminmax. Qed.

End WaveLocals.

(** C7.  At every finite point, for every wave [i] and whatever the time,
    the displacement factor the loop computes is
    [steepness / (k * amplitude * 3)], taken after shoaling and after the
    cap of the steepness at 0.4, clamped into the interval from 0 to 0.5;
    the vertex shader computes its factor the same way.  The horizontal
    terms the loop accumulates are [q * a * dir * cos f] with that [q]. *)
Theorem displacement_factor_clamped (i : nat) (x z : R) (time : number) :
  (i < WavePhysicsBridge.WAVE_COUNT)%nat ->
  let l := waveLocals i (Fin x) (Fin z) time in
  let w := WAVES_at i in
  (exists q : R,
     loc_q l = Fin q /\
     q = Rmax 0 (Rmin (steepnessR i x z
                       / (waveNumberR i * amplitudeR i x z * 3)) 0.5) /\
     0 <= q <= 0.5) /\
  (forall y : number,
     exists q : R,
       WaveSurface.loc_q
         (WaveSurface.waveLocals i (THREE.mkVector3 (Fin x) y (Fin z)) time)
       = Fin q /\
       0 <= q <= 0.5) /\
  (forall r : THREE.Vector3,
     THREE.x (waveStep (Fin x) (Fin z) time r i)
     = (THREE.x r + loc_q l * loc_a l * dirX w * Math.cos (loc_f l))%js /\
     THREE.z (waveStep (Fin x) (Fin z) time r i)
     = (THREE.z r + loc_q l * loc_a l * dirZ w * Math.cos (loc_f l))%js).
Proof.
  intros Hi l w. split; [| split].
  - exists (displacementFactorR i x z). split; [| split].
    + apply (waveLocals_a_q i x z Hi time).
    + reflexivity.
    + apply displacementFactorR_bounds.
  - intro y. exists (shaderDisplacementFactorR i x z). split.
    + apply (shader_waveLocals_a_q i x z Hi y time).
    + apply shaderDisplacementFactorR_bounds.
  - intro r. split; reflexivity.
Qed.

Lemma displacement_factor_clamped_witness :
  (0 < WavePhysicsBridge.WAVE_COUNT)%nat /\
  exists q : R,
    loc_q (waveLocals 0 (Fin 0) (Fin 0) (Fin 0)) = Fin q /\ 0 <= q <= 0.5.
Proof.
  assert (H0 : (0 < WavePhysicsBridge.WAVE_COUNT)%nat) by (cbn; lia).
  split; [exact H0 |].
  destruct (proj1 (displacement_factor_clamped 0 0 0 (Fin 0) H0))
    as (q & E & _ & Hq).
  exists q. split; assumption.
Defined.

(** ** SurfaceField: the wave sum and the breaking fold on finite inputs *)

Lemma smoothstep_Fin (edge0 edge1 x : R) :
  edge1 - edge0 <> 0 ->
  smoothstep (Fin edge0) (Fin edge1) (Fin x) = Fin (smoothstepR edge0 edge1 x).
Proof.
  intro He. unfold smoothstep. cbn [Num.sub].
  rewrite div_Fin by exact He. reflexivity.
Qed.

Lemma smoothstepR_bounds (edge0 edge1 x : R) :
  0 <= smoothstepR edge0 edge1 x <= 1.
Proof.
  unfold smoothstepR.
  set (t := Rmax 0 (Rmin ((x - edge0) / (edge1 - edge0)) 1.0)).
  assert (Ht : 0 <= t <= 1) by (unfold t; rminmax).
  clearbody t.
  assert (H1 : 0 <= t * t) by nra.
  assert (H2 : 0 <= (1 - t) * (1 - t)) by nra.
  split.
  - apply Rmult_le_pos; [exact H1 | lra].
  - assert (H3 : 0 <= (1 - t) * (1 - t) * (1 + 2 * t))
      by (apply Rmult_le_pos; [exact H2 | lra]).
    lra.
Qed.

(** The break strength [smoothstep(5, 2, depth)]: 0 from depth 5 on,
    1 up to depth 2. *)
Lemma breakStrength_ramp (d : R) :
  (5 <= d -> smoothstepR 5.0 2.0 d = 0) /\
  (d <= 2 -> smoothstepR 5.0 2.0 d = 1).
Proof.
  unfold smoothstepR.
  replace ((d - 5.0) / (2.0 - 5.0)) with ((5 - d) / 3) by lra.
  split; intro Hd.
  - replace (Rmax 0 (Rmin ((5 - d) / 3) 1.0)) with 0 by rminmax. lra.
  - replace (Rmax 0 (Rmin ((5 - d) / 3) 1.0)) with 1 by rminmax. lra.
Qed.

Section FiniteSurface.

Variables x z t : R.

Lemma waveLocals_f (i : nat) :
  (i < WavePhysicsBridge.WAVE_COUNT)%nat ->
  loc_f (waveLocals i (Fin x) (Fin z) (Fin t)) = Fin (phaseR x z t i).
Proof.
  intro Hi. destruct (WAVES_finite i Hi) as (Ew & Hl & _).
  unfold waveLocals. cbn [loc_f]. rewrite Ew. unfold Math.PI.
  cbn [dirX dirZ WavePhysicsBridge.speed wavelength Num.mul].
  rewrite div_Fin by lra. reflexivity.
Qed.

Lemma phase0_Fin : phase0 (Fin x) (Fin z) (Fin t) = Fin (phaseR x z t 0).
Proof.
  unfold phase0, Math.PI. cbn [Num.mul].
  cbn [WAVES_at WAVES nth wavelength]. rewrite div_Fin by lra. reflexivity.
Qed.

Lemma waveStep_Fin (i : nat) (rx ry rz : R) :
  (i < WavePhysicsBridge.WAVE_COUNT)%nat ->
  let w := WAVES_at i in
  let q := displacementFactorR i x z in
  let a := amplitudeR i x z in
  let f := phaseR x z t i in
  waveStep (Fin x) (Fin z) (Fin t)
    (THREE.mkVector3 (Fin rx) (Fin ry) (Fin rz)) i
  = THREE.mkVector3 (Fin (rx + q * a * toR (dirX w) * cos f))
      (Fin (ry + a * sin f))
      (Fin (rz + q * a * toR (dirZ w) * cos f)).
Proof.
  intros Hi w q a f. unfold waveStep.
  destruct (waveLocals_a_q i x z Hi (Fin t)) as [Ea Eq].
  rewrite Ea, Eq, (waveLocals_f i Hi).
  destruct (WAVES_finite i Hi) as (Ew & _). rewrite Ew.
  reflexivity.
Qed.

Lemma waveSum_finite : finiteVector (waveSum (Fin x) (Fin z) (Fin t)).
Proof.
  unfold waveSum.
  change (seq 0 WavePhysicsBridge.WAVE_COUNT) with [0; 1; 2]%nat.
  cbn [fold_left].
  replace (THREE.mkVector3 (Fin x) 0 (Fin z))
    with (THREE.mkVector3 (Fin x) (Fin 0) (Fin z)) by reflexivity.
  rewrite !waveStep_Fin by (cbn; lia).
  do 3 eexists. reflexivity.
Qed.

Lemma gerstnerDisplace_finite :
  finiteVector (gerstnerDisplace (Fin x) (Fin z) (Fin t)).
Proof.
  destruct waveSum_finite as (X & Y & Z & E).
  unfold gerstnerDisplace. rewrite E, phase0_Fin, getDepth_Fin.
  cbn [THREE.x THREE.y THREE.z Math.sin].
  rewrite !smoothstep_Fin by lra.
  destruct (_ >? _)%js; do 3 eexists; reflexivity.
Qed.

End FiniteSurface.


(** C5.  Where the break strength [smoothstep(5, 2, depth)] exceeds 0.001
    the displaced position is the wave sum [(rx, y, rz)] folded: [y]
    becomes [min(y, 0) + max(y, 0) * cos(foldAngle)] and [rz] gains
    [max(y, 0) * sin(foldAngle)] and the throw
    [breakAmount^2 * max(y, 0) * 1.8], with [foldAngle = breakAmount * 3]
    and [breakAmount = smoothstep(0, 0.8, sin f0)^2 * breakStrength], [f0]
    being the phase of wave 0 alone; [rx] is kept.  Wave 0 travels along
    +Z, the axis the fold moves the crest on.  Elsewhere the wave sum is
    returned as it is.  The break strength of a finite depth lies between
    0 and 1, is 0 from depth 5 on and 1 up to depth 2; at a finite point
    and time everything above is finite. *)
Theorem breaking_fold (x z time : number) :
  let w0 := WAVES_at 0 in
  let r := waveSum x z time in
  let y := THREE.y r in
  let breakStrength := smoothstep 5.0 2.0 (getDepth x z) in
  let f0 :=
    (2 * Math.PI / wavelength w0
     * (dirX w0 * x + dirZ w0 * z - WavePhysicsBridge.speed w0 * time))%js in
  let crestFactor := smoothstep 0.0 0.8 (Math.sin f0) in
  let breakAmount := (crestFactor * crestFactor * breakStrength)%js in
  let foldAngle := (breakAmount * 3.0)%js in
  ((breakStrength >? 0.001)%js = true ->
   gerstnerDisplace x z time =
   THREE.mkVector3
     (THREE.x r)
     (Math.min y 0 + Math.max y 0 * Math.cos foldAngle)%js
     (THREE.z r + Math.max y 0 * Math.sin foldAngle
      + breakAmount * breakAmount * Math.max y 0 * 1.8)%js) /\
  ((breakStrength >? 0.001)%js = false ->
   gerstnerDisplace x z time = THREE.mkVector3 (THREE.x r) y (THREE.z r)) /\
  (dirX w0 = Fin 0.0 /\ dirZ w0 = Fin 1.0) /\
  (forall d : R,
     exists b : R,
       smoothstep 5.0 2.0 (Fin d) = Fin b /\ 0 <= b <= 1 /\
       (5 <= d -> b = 0) /\ (d <= 2 -> b = 1)) /\
  (finite x -> finite z -> finite time ->
   finiteVector r /\ finite breakStrength /\ finite foldAngle /\
   finiteVector (gerstnerDisplace x z time)).
Proof.
  intros w0 r y breakStrength f0 crestFactor breakAmount foldAngle.
  split; [| split; [| split; [| split]]].
  - intro Hb. unfold gerstnerDisplace. fold breakStrength. rewrite Hb.
    reflexivity.
  - intro Hb. unfold gerstnerDisplace. fold breakStrength. rewrite Hb.
    reflexivity.
  - split; reflexivity.
  - intro d. exists (smoothstepR 5.0 2.0 d).
    split; [apply smoothstep_Fin; lra |].
    split; [apply smoothstepR_bounds | apply breakStrength_ramp].
  - intros [x' Ex] [z' Ez] [t' Et]. subst x z time.
    split; [apply waveSum_finite |].
    assert (Hbs : breakStrength = Fin (smoothstepR 5.0 2.0 (depthR x' z'))).
    { unfold breakStrength. rewrite getDepth_Fin.
      apply smoothstep_Fin. lra. }
    split; [eexists; exact Hbs |].
    split; [| apply gerstnerDisplace_finite].
    unfold foldAngle, breakAmount, crestFactor. rewrite Hbs.
    change f0 with (phase0 (Fin x') (Fin z') (Fin t')).
    rewrite phase0_Fin. cbn [Math.sin].
    rewrite smoothstep_Fin by lra. eexists. reflexivity.
Qed.

(** A point of the break zone: past the shore line, where the depth is 1.6. *)
Lemma breakStrength_in_break_zone :
  (smoothstep 5.0 2.0 (getDepth (Fin 0) (Fin 100)) >? 0.001)%js = true.
Proof.
  rewrite getDepth_Fin, smoothstep_Fin by lra.
  apply gtb_Fin.
  assert (Ed : Rmax 1.5 (Rmin 10.0 (10.0 - (100 - 0 * 0.42 - 30.0) * 0.12))
               = 1.6) by rminmax.
  rewrite Ed. rewrite (proj2 (breakStrength_ramp 1.6)); lra.
Qed.

Lemma breaking_fold_witness :
  (smoothstep 5.0 2.0 (getDepth (Fin 0) (Fin 100)) >? 0.001)%js = true /\
  finite (Fin 0) /\ finite (Fin 100) /\
  THREE.x (gerstnerDisplace (Fin 0) (Fin 100) (Fin 0))
  = THREE.x (waveSum (Fin 0) (Fin 100) (Fin 0)) /\
  finiteVector (gerstnerDisplace (Fin 0) (Fin 100) (Fin 0)).
Proof.
  assert (F0 : finite (Fin 0)) by (exists 0; reflexivity).
  assert (F100 : finite (Fin 100)) by (exists 100; reflexivity).
  split; [exact breakStrength_in_break_zone |].
  split; [exact F0 | split; [exact F100 |]].
  destruct (breaking_fold (Fin 0) (Fin 100) (Fin 0))
    as (Hfold & _ & _ & _ & Hfin).
  split.
  - rewrite (Hfold breakStrength_in_break_zone). reflexivity.
  - apply (Hfin F0 F100 F0).
Defined.


(** ** RiderDynamics: the state is frozen after a crash *)

Lemma getWaveSlopeAt_finite (x z t : R) :
  exists sx sz : R,
    getWaveSlopeAt (Fin x) (Fin z) (Fin t) = mkSlope (Fin sx) (Fin sz).
Proof.
  unfold getWaveSlopeAt, _eps. cbn [Num.add Num.sub Num.mul].
  destruct (gerstnerDisplace_finite (x + 0.2) z t) as (? & a1 & ? & E1).
  destruct (gerstnerDisplace_finite (x - 0.2) z t) as (? & a2 & ? & E2).
  destruct (gerstnerDisplace_finite x (z + 0.2) t) as (? & a3 & ? & E3).
  destruct (gerstnerDisplace_finite x (z - 0.2) t) as (? & a4 & ? & E4).
  rewrite E1, E2, E3, E4. cbn [THREE.y Num.sub].
  rewrite !div_Fin by lra. do 2 eexists. reflexivity.
Qed.

(** What a frame run while playing writes into [stateRef], whether it ends
    in a crash or not, in terms of the new pitch and speed. *)
Lemma useFrame_equations (w : World) (g : Group) (t d : number) :
  gameState w = playing ->
  groupRef w = Some g ->
  let s := stateRef w in
  let s' := stateRef (useFrame t d w) in
  let dt := Math.min d 0.1 in
  let slope :=
    getWaveSlopeAt (THREE.x (position g)) (THREE.z (position g)) t in
  pitch s' =
    THREE.MathUtils.lerp (pitch s) (fst (fst (readInput (keys w))))
      (dt * 5.0)%js /\
  vY s' =
    ((vY s
      + (speed s' / 10.0 * GRAVITY + pitch s' * speed s' * 3.0
         + groundEffectOf (height s) + slopeMag slope * GRAVITY * 0.2
         - GRAVITY) * dt) * 0.85)%js /\
  height s' = (height s + vY s' * dt)%js /\
  prevPitch s' = pitch s /\
  prevRoll s' = roll s /\
  cameraYaw s' = cameraYaw s.
Proof.
  intros Hplay Hgroup s s' dt slope. subst s s' dt slope.
  unfold useFrame. rewrite Hplay, Hgroup.
  destruct (readInput (keys w)) as [[targetPitch targetRoll] isSnapping].
  match goal with
  | |- context [match crashDetection ?h with pair _ _ => _ end] =>
      destruct (crashDetection h) as [[ | ] reason]
  end; repeat split.
Qed.

Lemma useFrame_playing_speed_range (w : World) (g : Group) (t d : number) :
  gameState w = playing ->
  groupRef w = Some g ->
  speed_in_range (stateRef (useFrame t d w)).
Proof.
  intros Hplay Hgroup.
  destruct (useFrame_playing_speed w g t d Hplay Hgroup)
    as (wst & fct & pt & drag & E).
  unfold speed_in_range. rewrite E. apply integrateSpeed_range.
Qed.

(** A frame of no duration leaves the sunk rider where it is, at -1. *)
Lemma sunkWorld_height :
  height (stateRef (useFrame 0 0 sunkWorld)) = Fin (-1).
Proof.
  destruct (useFrame_equations sunkWorld sunkGroup 0 0 eq_refl eq_refl)
    as (Ep & Ev & Eh & _).
  destruct (useFrame_playing_speed_range sunkWorld sunkGroup 0 0
              eq_refl eq_refl) as (r & Er & _).
  destruct (getWaveSlopeAt_finite 5 20 0) as (sx & sz & Es).
  cbn [sunkWorld stateRef keys pitch vY height readInput orb andb fst
       sunkGroup position THREE.x THREE.z] in Ep, Ev, Eh.
  rewrite Eh, Ev, Ep, Er, Es, slopeMag_Fin, groundEffectOf_Fin.
  unfold THREE.MathUtils.lerp, GRAVITY.
  cbn [Math.min Num.mul Num.sub Num.add].
  rewrite div_Fin by lra.
  cbn [Math.min Num.mul Num.sub Num.add].
  f_equal. replace (Rmin 0 0.1) with 0 by rminmax. lra.
Qed.

Lemma sunkWorld_crashes : gameState (useFrame 0 0 sunkWorld) = gameover.
Proof.
  apply (proj1 (useFrame_crash_or_not sunkWorld sunkGroup 0 0
                  eq_refl eq_refl)).
  rewrite sunkWorld_height. unfold crashDetection.
  assert (Hh : (Fin (-1) <=? Fin (-0.05))%js = true) by (apply leb_Fin; lra).
  rewrite Hh. reflexivity.
Qed.

(** The frame of the sunk rider is classified as a touchdown. *)
Lemma crash_check_classifies_witness :
  gameState sunkWorld = playing /\
  groupRef sunkWorld = Some sunkGroup /\
  (height (stateRef (useFrame 0 0 sunkWorld)) <=? Fin (-0.05))%js = true /\
  gameState (useFrame 0 0 sunkWorld) = gameover /\
  crashReason (useFrame 0 0 sunkWorld)
  = "TOUCHDOWN! Board dug into the water."%string.
Proof.
  assert (Hh : (height (stateRef (useFrame 0 0 sunkWorld)) <=? Fin (-0.05))%js
               = true).
  { rewrite sunkWorld_height. apply leb_Fin. lra. }
  split; [reflexivity | split; [reflexivity | split; [exact Hh |]]].
  exact (proj1 (crash_check_classifies sunkWorld sunkGroup 0 0
                  eq_refl eq_refl) Hh).
Defined.

Lemma step_frozen (w : World) (e : Event) :
  gameState w = gameover ->
  isReset e = false ->
  gameState (step w e) = gameover /\
  rider (step w e) = rider w /\
  crashReason (step w e) = crashReason w.
Proof.
  intros Hover He. destruct e as [t d | code | code | ];
    try discriminate; cbn [step].
  - destruct (useFrame_idle w t d) as (Es & Eg & Est & Er).
    { left. rewrite Hover. discriminate. }
    unfold rider. rewrite Es, Eg, Est, Er. auto.
  - cbn. auto.
  - cbn. auto.
Qed.

Lemma run_frozen (es : list Event) (w : World) :
  gameState w = gameover ->
  noReset es = true ->
  gameState (run es w) = gameover /\
  rider (run es w) = rider w /\
  crashReason (run es w) = crashReason w.
Proof.
  revert w. induction es as [ | e es IH]; intros w Hover Hes.
  - cbn. auto.
  - cbn in Hes. apply andb_prop in Hes. destruct Hes as [He Hes].
    apply negb_true_iff in He.
    destruct (step_frozen w e Hover He) as (Hg & Hr & Hc).
    destruct (IH (step w e) Hg Hes) as (Hg' & Hr' & Hc').
    cbn [run fold_left]. fold (run es (step w e)).
    rewrite Hg', Hr', Hc'. auto.
Qed.

Lemma run_app (es es' : list Event) (w : World) :
  run (es ++ es') w = run es' (run es w).
Proof. apply fold_left_app. Qed.

(** C8.  When a frame run while playing ends the game, that frame has
    left yaw and the pose of the player group (position and rotation) as
    they were, and from then on no frame and no key event changes the
    physics state or the group, however many follow, until START RIDING /
    TRY AGAIN is clicked, which resets the physics state and resumes the
    game. *)
Theorem frozen_after_crash (w : World) (g : Group) (t d : number) :
  gameState w = playing ->
  groupRef w = Some g ->
  gameState (useFrame t d w) = gameover ->
  let w' := useFrame t d w in
  yaw (stateRef w') = yaw (stateRef w) /\
  groupRef w' = Some g /\
  (forall es : list Event,
     noReset es = true ->
     gameState (run es w') = gameover /\
     stateRef (run es w') = stateRef w' /\
     groupRef (run es w') = groupRef w' /\
     crashReason (run es w') = crashReason w') /\
  (forall es : list Event,
     noReset es = true ->
     gameState (run (es ++ [ClickStart]) w') = playing /\
     stateRef (run (es ++ [ClickStart]) w') = initialPhysicsState).
Proof.
  intros Hplay Hgroup Hover w'.
  destruct (useFrame_crash_or_not w g t d Hplay Hgroup) as [Hc Hn].
  fold w' in Hc, Hn, Hover.
  destruct (fst (crashDetection (height (stateRef w')))) eqn:Hcrash.
  - destruct (Hc eq_refl) as (_ & _ & Hyaw & Hg).
    split; [exact Hyaw | split; [exact Hg |]]. split.
    + intros es Hes.
      destruct (run_frozen es w' Hover Hes) as (Hg' & Hr' & Hc').
      injection Hr' as Hs' Hgr'. auto.
    + intros es Hes.
      destruct (run_frozen es w' Hover Hes) as (Hg' & _).
      rewrite run_app. cbn [run fold_left step].
      unfold setGameState. rewrite Hg'. cbn. auto.
  - destruct (Hn eq_refl) as (Hp & _). rewrite Hp in Hover. discriminate.
Qed.

Lemma frozen_after_crash_witness :
  gameState sunkWorld = playing /\
  groupRef sunkWorld = Some sunkGroup /\
  gameState (useFrame 0 0 sunkWorld) = gameover /\
  noReset [Frame 1 0.016; KeyDown "KeyA"; Frame 2 0.016] = true /\
  stateRef (run [Frame 1 0.016; KeyDown "KeyA"; Frame 2 0.016]
              (useFrame 0 0 sunkWorld))
  = stateRef (useFrame 0 0 sunkWorld) /\
  groupRef (run [Frame 1 0.016; KeyDown "KeyA"; Frame 2 0.016]
              (useFrame 0 0 sunkWorld))
  = Some sunkGroup.
Proof.
  split; [reflexivity | split; [reflexivity |]].
  split; [exact sunkWorld_crashes |].
  split; [reflexivity |].
  destruct (frozen_after_crash sunkWorld sunkGroup 0 0 eq_refl eq_refl
              sunkWorld_crashes) as (_ & Hg & Hfrozen & _).
  destruct (Hfrozen [Frame 1 0.016; KeyDown "KeyA"; Frame 2 0.016] eq_refl)
    as (_ & Hs & Hgr & _).
  split; [exact Hs | rewrite Hgr; exact Hg].
Defined.


(** ** SurfaceField: the physics bridge against the vertex shader *)

Lemma PI_lower : 3.14159 < PI.
Proof.
  assert (H := proj1 (PI_2_3_7_ineq 2)).
  unfold sum_f_R0, tg_alt, PI_2_3_7_tg, Ratan_seq in H.
  cbn [Nat.mul Nat.add pow INR] in H.
  lra.
Qed.

Section ShaderFinite.

Variables x z t : R.

Lemma shader_waveLocals_f (i : nat) (y : number) :
  (i < WavePhysicsBridge.WAVE_COUNT)%nat ->
  WaveSurface.loc_f
    (WaveSurface.waveLocals i (THREE.mkVector3 (Fin x) y (Fin z)) (Fin t))
  = Fin (shaderPhaseR x z t i).
Proof.
  intro Hi. destruct (WAVES_finite i Hi) as (Ew & Hl & _).
  destruct (shader_uniforms_mirror i Hi) as (Edx & Edz & _ & Ewl & _ & Esp).
  unfold WaveSurface.waveLocals. cbn [WaveSurface.loc_f THREE.x THREE.z].
  rewrite Edx, Edz, Ewl, Esp, Ew.
  cbn [dirX dirZ WavePhysicsBridge.speed wavelength Num.mul].
  rewrite div_Fin by lra. reflexivity.
Qed.

Lemma shader_waveStep_Fin (i : nat) (y : number) (rx ry rz : R) :
  (i < WavePhysicsBridge.WAVE_COUNT)%nat ->
  let w := WAVES_at i in
  let q := shaderDisplacementFactorR i x z in
  let a := amplitudeR i x z in
  let f := shaderPhaseR x z t i in
  WaveSurface.waveStep (THREE.mkVector3 (Fin x) y (Fin z)) (Fin t)
    (THREE.mkVector3 (Fin rx) (Fin ry) (Fin rz)) i
  = THREE.mkVector3 (Fin (rx + q * a * toR (dirX w) * cos f))
      (Fin (ry + a * sin f))
      (Fin (rz + q * a * toR (dirZ w) * cos f)).
Proof.
  intros Hi w q a f. unfold WaveSurface.waveStep.
  destruct (shader_waveLocals_a_q i x z Hi y (Fin t)) as [Ea Eq].
  rewrite Ea, Eq, (shader_waveLocals_f i y Hi).
  destruct (shader_uniforms_mirror i Hi) as (Edx & Edz & _).
  rewrite Edx, Edz.
  destruct (WAVES_finite i Hi) as (Ew & _). rewrite Ew.
  reflexivity.
Qed.

End ShaderFinite.

(** At the origin the water is deep: no shoaling and no breaking. *)
Lemma depthR_origin : depthR 0 0 = 10.
Proof. unfold depthR. rminmax. Qed.

Lemma effectiveShoalR_origin (i : nat) : effectiveShoalR i (depthR 0 0) = 1.
Proof.
  unfold effectiveShoalR, shoalFactorR. rewrite depthR_origin.
  replace (Rmax (10 / 10.0) 0.05) with 1 by rminmax.
  rewrite sqrt_1. destruct (Nat.eqb i 0); lra.
Qed.

(** Below the clamp the displacement factor times the amplitude is
    [steepness * wavelength / (3 * twoPi)], for the [twoPi] in use. *)
Lemma unclamped_factor (st lam a twoPi : R) :
  0 < st -> 0 < lam -> 0 < a -> 6 < twoPi -> st * lam <= 9 * a ->
  Rmax 0 (Rmin (st / (twoPi / lam * a * 3)) 0.5) * a
  = st * lam / (3 * twoPi) /\
  Rmin (Rmax (st / (twoPi / lam * a * 3)) 0.0) 0.5 * a
  = st * lam / (3 * twoPi).
Proof.
  intros Hst Hlam Ha Hpi Hle.
  assert (E : st / (twoPi / lam * a * 3) = st * lam / (3 * twoPi * a))
    by (field; lra).
  rewrite E.
  assert (Hd : 0 < 3 * twoPi * a) by nra.
  assert (Hpos : 0 < st * lam / (3 * twoPi * a)).
  { apply Rdiv_lt_0_compat; nra. }
  assert (Hhalf : st * lam / (3 * twoPi * a) <= 0.5).
  { apply Rmult_le_reg_r with (3 * twoPi * a); [exact Hd |].
    unfold Rdiv. rewrite Rmult_assoc, Rinv_l by lra. nra. }
  assert (Ea : st * lam / (3 * twoPi * a) * a = st * lam / (3 * twoPi))
    by (field; lra).
  split; [rewrite <- Ea; f_equal; rminmax | rewrite <- Ea; f_equal; rminmax].
Qed.

Lemma phaseR_origin (i : nat) : phaseR 0 0 0 i = 0.
Proof. unfold phaseR. cbv zeta. ring. Qed.

Lemma shaderPhaseR_origin (i : nat) : shaderPhaseR 0 0 0 i = 0.
Proof. unfold shaderPhaseR. cbv zeta. ring. Qed.

Lemma factor_origin (i : nat) :
  (i < WavePhysicsBridge.WAVE_COUNT)%nat ->
  let w := WAVES_at i in
  displacementFactorR i 0 0 * amplitudeR i 0 0
  = toR (steepness w) * toR (wavelength w) / (3 * (2 * PI)) /\
  shaderDisplacementFactorR i 0 0 * amplitudeR i 0 0
  = toR (steepness w) * toR (wavelength w) / (3 * 6.28318).
Proof.
  intros Hi w. subst w. assert (Hpi := PI_lower).
  unfold displacementFactorR, shaderDisplacementFactorR, steepnessR,
    amplitudeR, waveNumberR, shaderWaveNumberR.
  rewrite effectiveShoalR_origin.
  destruct i as [ | [ | [ | i]]]; [| | | cbn in Hi; lia];
    cbn [WAVES_at WAVES nth steepness wavelength amplitude toR].
  - replace (Rmin (0.12 * 1) 0.4) with 0.12 by rminmax.
    split; apply unclamped_factor; lra.
  - replace (Rmin (0.08 * 1) 0.4) with 0.08 by rminmax.
    split; apply unclamped_factor; lra.
  - replace (Rmin (0.06 * 1) 0.4) with 0.06 by rminmax.
    split; apply unclamped_factor; lra.
Qed.

Lemma breakStrength_origin :
  (smoothstep 5.0 2.0 (getDepth (Fin 0) (Fin 0)) >? 0.001)%js = false.
Proof.
  rewrite getDepth_Fin. fold (depthR 0 0). rewrite depthR_origin.
  rewrite smoothstep_Fin by lra. apply gtb_Fin_false.
  rewrite (proj1 (breakStrength_ramp 10)); lra.
Qed.

Lemma gerstnerDisplace_origin :
  gerstnerDisplace (Fin 0) (Fin 0) (Fin 0)
  = THREE.mkVector3 (Fin (0.084 / (3 * (2 * PI)))) (Fin 0)
      (Fin (4.6584 / (3 * (2 * PI)))).
Proof.
  unfold gerstnerDisplace. rewrite breakStrength_origin.
  unfold waveSum.
  change (seq 0 WavePhysicsBridge.WAVE_COUNT) with [0; 1; 2]%nat.
  cbn [fold_left]. rewrite !waveStep_Fin by (cbn; lia).
  cbn [THREE.x THREE.y THREE.z]. rewrite !phaseR_origin, cos_0, sin_0.
  destruct (factor_origin 0) as [E0 _]; [cbn; lia |].
  destruct (factor_origin 1) as [E1 _]; [cbn; lia |].
  destruct (factor_origin 2) as [E2 _]; [cbn; lia |].
  rewrite E0, E1, E2.
  cbn [WAVES_at WAVES nth steepness wavelength amplitude dirX dirZ toR].
  f_equal; f_equal; lra.
Qed.

Lemma shader_breakStrength_origin :
  (WaveSurface.GLSL.smoothstep 5.0 2.0
     (WaveSurface.getDepth (Fin 0) (Fin 0)) >? 0.001)%js = false.
Proof.
  rewrite shader_getDepth_Fin, depthR_origin.
  unfold WaveSurface.GLSL.smoothstep, WaveSurface.GLSL.clamp.
  cbn [Num.sub]. rewrite div_Fin by lra.
  cbn [Math.max Math.min Num.mul Num.sub]. apply gtb_Fin_false.
  replace (Rmin (Rmax ((10 - 5.0) / (2.0 - 5.0)) 0.0) 1.0) with 0 by rminmax.
  lra.
Qed.

Lemma gerstnerWaves_origin :
  WaveSurface.gerstnerWaves (THREE.mkVector3 (Fin 0) (Fin 0) (Fin 0)) (Fin 0)
  = THREE.mkVector3 (Fin (0.084 / (3 * 6.28318))) (Fin 0)
      (Fin (4.6584 / (3 * 6.28318))).
Proof.
  unfold WaveSurface.gerstnerWaves. cbn [THREE.x THREE.z].
  rewrite shader_breakStrength_origin.
  unfold WaveSurface.waveSum, WaveSurface.WAVE_COUNT. cbn [seq fold_left].
  rewrite !shader_waveStep_Fin by (cbn; lia).
  rewrite !shaderPhaseR_origin, cos_0, sin_0.
  destruct (factor_origin 0) as [_ E0]; [cbn; lia |].
  destruct (factor_origin 1) as [_ E1]; [cbn; lia |].
  destruct (factor_origin 2) as [_ E2]; [cbn; lia |].
  rewrite E0, E1, E2.
  cbn [WAVES_at WAVES nth steepness wavelength amplitude dirX dirZ toR].
  f_equal; f_equal; lra.
Qed.

(** C3 fails at the origin.  The physics bridge takes [2 * Math.PI] for the
    wave number, the vertex shader the truncated constant 6.28318: the
    bridge displaces the point (0, 0, 0) at time 0 to
    [z = 4.6584 / (6 * PI)], the shader to [z = 4.6584 / (3 * 6.28318)],
    and the two differ. *)
Theorem physics_and_display_diverge :
  THREE.z (gerstnerDisplace (Fin 0) (Fin 0) (Fin 0))
  = Fin (4.6584 / (3 * (2 * PI))) /\
  THREE.z (WaveSurface.gerstnerWaves
             (THREE.mkVector3 (Fin 0) (Fin 0) (Fin 0)) (Fin 0))
  = Fin (4.6584 / (3 * 6.28318)) /\
  4.6584 / (3 * (2 * PI)) < 4.6584 / (3 * 6.28318) /\
  gerstnerDisplace (Fin 0) (Fin 0) (Fin 0)
  <> WaveSurface.gerstnerWaves
       (THREE.mkVector3 (Fin 0) (Fin 0) (Fin 0)) (Fin 0).
Proof.
  assert (Hpi := PI_lower).
  assert (Hlt : 4.6584 / (3 * (2 * PI)) < 4.6584 / (3 * 6.28318)).
  { unfold Rdiv. apply Rmult_lt_compat_l; [lra |].
    apply Rinv_lt_contravar; nra. }
  rewrite gerstnerDisplace_origin, gerstnerWaves_origin.
  cbn [THREE.z].
  repeat split; try exact Hlt.
  intro E. injection E as _ Ez. lra.
Qed.

(** * Further properties *)

(** ** DepthModel: shape of the beach *)

(** X1.  The depth never grows towards the shore: at finite points, moving
    towards +Z or towards -X cannot make the water deeper. *)
Theorem getDepth_monotone (x x' z z' : R) :
  x' <= x -> z <= z' ->
  (getDepth (Fin x') (Fin z') <=? getDepth (Fin x) (Fin z))%js = true.
Proof.
  intros Hx Hz. rewrite !getDepth_Fin. apply leb_Fin. rminmax.
Qed.

Lemma getDepth_monotone_witness :
  0 <= 20 /\ 30 <= 60 /\
  (getDepth (Fin 0) (Fin 60) <=? getDepth (Fin 20) (Fin 30))%js = true.
Proof.
  assert (H1 : 0 <= 20) by lra. assert (H2 : 30 <= 60) by lra.
  split; [exact H1 | split; [exact H2 |]].
  exact (getDepth_monotone 20 0 30 60 H1 H2).
Defined.

(** X2.  The depth at a finite point depends on [z - x * 0.42] alone, so it
    is constant along the diagonal shore line; it is the deep 10 exactly
    where that coordinate is at most 30 and the shallow 1.5 exactly where
    it is at least [30 + 8.5 / 0.12]. *)
Theorem getDepth_shoreline (x z : R) :
  (forall s : R,
     getDepth (Fin (x + s)) (Fin (z + s * 0.42)) = getDepth (Fin x) (Fin z)) /\
  (getDepth (Fin x) (Fin z) = Fin 10 <-> z - x * 0.42 <= 30) /\
  (getDepth (Fin x) (Fin z) = Fin 1.5 <-> 30 + 8.5 / 0.12 <= z - x * 0.42).
Proof.
  split; [| split].
  - intro s. rewrite !getDepth_Fin. f_equal.
    replace (z + s * 0.42 - (x + s) * 0.42) with (z - x * 0.42) by lra.
    reflexivity.
  - rewrite getDepth_Fin. split.
    + intro E. injection E as E. revert E. rminmax.
    + intro H. f_equal. rminmax.
  - rewrite getDepth_Fin. split.
    + intro E. injection E as E. revert E. rminmax.
    + intro H. f_equal. rminmax.
Qed.

Lemma getDepth_shoreline_witness :
  0 - 0 * 0.42 <= 30 /\ getDepth (Fin 0) (Fin 0) = Fin 10.
Proof.
  assert (H : 0 - 0 * 0.42 <= 30) by lra.
  split; [exact H |].
  exact (proj2 (proj1 (proj2 (getDepth_shoreline 0 0))) H).
Defined.

Lemma clamp_orders_agree (v lo hi : R) :
  lo <= hi -> Rmin (Rmax v lo) hi = Rmax lo (Rmin hi v).
Proof. intro H. rminmax. Qed.

Lemma glsl_clamp_as_max_min (v : number) (lo hi : R) :
  lo <= hi ->
  WaveSurface.GLSL.clamp v (Fin lo) (Fin hi)
  = Math.max (Fin lo) (Math.min (Fin hi) v).
Proof.
  intro H. destruct v as [ | | | r]; cbn; try reflexivity.
  - f_equal. rminmax.
  - f_equal. rminmax.
  - f_equal. apply clamp_orders_agree, H.
Qed.

(** X3.  [getDepth] on any numbers at all: the result is [NaN] or a finite
    depth between 1.5 and 10, never an infinity; a [NaN] coordinate gives
    [NaN]; with the other coordinate finite, an infinite [z] gives the
    shallow 1.5 towards the shore and the deep 10 out at sea, an infinite
    [x] the deep 10 at plus infinity and the shallow 1.5 at minus. *)
Theorem getDepth_any_number (x z : number) :
  (getDepth x z = NaN \/
   exists d : R, getDepth x z = Fin d /\ 1.5 <= d <= 10) /\
  (x = NaN \/ z = NaN -> getDepth x z = NaN) /\
  (finite x ->
   getDepth x PosInf = Fin 1.5 /\ getDepth x NegInf = Fin 10) /\
  (finite z ->
   getDepth PosInf z = Fin 10 /\ getDepth NegInf z = Fin 1.5).
Proof.
  assert (H42 : 0.42 <> 0) by lra. assert (H12 : 0.12 <> 0) by lra.
  unfold getDepth, SHORE_ANGLE, DEPTH_DEEP, DEPTH_SHALLOW, SHORE_Z_CENTER,
    DEPTH_GRADIENT.
  split; [| split; [| split]].
  - destruct x as [ | | | x], z as [ | | | z]; cbn;
      repeat (destruct (Req_dec_T _ _); try contradiction);
      repeat (destruct (Rlt_dec _ _); try lra); cbn;
      repeat (destruct (Req_dec_T _ _); try contradiction);
      repeat (destruct (Rlt_dec _ _); try lra); cbn;
      try (left; reflexivity);
      right; eexists; (split; [reflexivity | rminmax]).
  - intros [E | E]; subst; [destruct z | destruct x]; cbn;
      repeat (destruct (Req_dec_T _ _); try contradiction);
      repeat (destruct (Rlt_dec _ _); try lra); reflexivity.
  - intros [r E]. subst x. cbn.
    repeat (destruct (Req_dec_T _ _); try contradiction);
      repeat (destruct (Rlt_dec _ _); try lra); cbn.
    split; f_equal; rminmax.
  - intros [r E]. subst z. cbn.
    repeat (destruct (Req_dec_T _ _); try contradiction);
      repeat (destruct (Rlt_dec _ _); try lra); cbn;
      repeat (destruct (Req_dec_T _ _); try contradiction);
      repeat (destruct (Rlt_dec _ _); try lra); cbn.
    split; f_equal; rminmax.
Qed.

Lemma getDepth_any_number_witness :
  finite (Fin 3) /\ getDepth (Fin 3) PosInf = Fin 1.5 /\
  getDepth NaN (Fin 3) = NaN.
Proof.
  assert (F : finite (Fin 3)) by (exists 3; reflexivity).
  destruct (getDepth_any_number (Fin 3) PosInf) as (_ & _ & Hz & _).
  destruct (getDepth_any_number NaN (Fin 3)) as (_ & Hn & _).
  split; [exact F | split; [apply (Hz F) | apply Hn; left; reflexivity]].
Defined.

(** ** Display against physics: what the two copies share *)

Lemma shader_getDepth_agrees (x z : number) :
  WaveSurface.getDepth x z = getDepth x z.
Proof.
  unfold WaveSurface.getDepth, getDepth, WaveSurface.uDepthShallow,
    WaveSurface.uDepthDeep, DEPTH_SHALLOW, DEPTH_DEEP.
  apply glsl_clamp_as_max_min. lra.
Qed.

Lemma Fin_3 : Fin 3.0 = Fin 3.
Proof. f_equal. lra. Qed.

Lemma Fin_2 : Fin 2.0 = Fin 2.
Proof. f_equal. lra. Qed.

Lemma Fin_0 : Fin 0.0 = Fin 0.
Proof. f_equal. lra. Qed.

Lemma glsl_smoothstep_agrees (edge0 edge1 x : number) :
  WaveSurface.GLSL.smoothstep edge0 edge1 x = smoothstep edge0 edge1 x.
Proof.
  unfold WaveSurface.GLSL.smoothstep, smoothstep.
  rewrite glsl_clamp_as_max_min by lra. rewrite Fin_3, Fin_2, Fin_0.
  assert (E : forall v : number, Math.min 1.0 v = Math.min v 1.0).
  { intros [ | | | r]; cbn; try reflexivity. f_equal. rminmax. }
  rewrite E. reflexivity.
Qed.

(** X4.  The vertex shader and the physics bridge compute the same depth
    and the same smoothstep, hence the same break strength, for all
    arguments, finite or not; at a finite point they also give each wave
    the same shoaled amplitude.  Their phases differ by the constant
    factor [6.28318 / (2 * PI)], which is below 1. *)
Theorem display_and_physics_share (x z time : number) :
  WaveSurface.getDepth x z = getDepth x z /\
  (forall edge0 edge1 : number,
     WaveSurface.GLSL.smoothstep edge0 edge1 x = smoothstep edge0 edge1 x) /\
  WaveSurface.GLSL.smoothstep 5.0 2.0 (WaveSurface.getDepth x z)
  = smoothstep 5.0 2.0 (getDepth x z) /\
  (forall (i : nat) (xr zr tr : R) (y : number),
     (i < WavePhysicsBridge.WAVE_COUNT)%nat ->
     x = Fin xr -> z = Fin zr -> time = Fin tr ->
     let pos := THREE.mkVector3 x y z in
     WaveSurface.loc_a (WaveSurface.waveLocals i pos time)
     = loc_a (waveLocals i x z time) /\
     exists f : R,
       loc_f (waveLocals i x z time) = Fin f /\
       WaveSurface.loc_f (WaveSurface.waveLocals i pos time)
       = Fin (f * (6.28318 / (2 * PI)))) /\
  6.28318 / (2 * PI) < 1.
Proof.
  assert (Hpi := PI_lower).
  split; [apply shader_getDepth_agrees |].
  split; [intros; apply glsl_smoothstep_agrees |].
  split; [rewrite shader_getDepth_agrees; apply glsl_smoothstep_agrees |].
  split.
  - intros i xr zr tr y Hi Ex Ez Et pos. subst x z time pos.
    destruct (waveLocals_a_q i xr zr Hi (Fin tr)) as [Ea _].
    destruct (shader_waveLocals_a_q i xr zr Hi y (Fin tr)) as [Ea' _].
    split; [rewrite Ea, Ea'; reflexivity |].
    exists (phaseR xr zr tr i).
    split; [apply waveLocals_f, Hi |].
    rewrite (shader_waveLocals_f xr zr tr i y Hi). f_equal.
    unfold shaderPhaseR, phaseR, shaderWaveNumberR, waveNumberR.
    destruct (WAVES_finite i Hi) as (_ & Hl & _).
    cbv zeta. field. lra.
  - apply Rmult_lt_reg_r with (2 * PI); [lra |].
    unfold Rdiv. rewrite Rmult_assoc, Rinv_l by lra. lra.
Qed.

Lemma display_and_physics_share_witness :
  (0 < WavePhysicsBridge.WAVE_COUNT)%nat /\
  WaveSurface.loc_a
    (WaveSurface.waveLocals 0 (THREE.mkVector3 (Fin 1) (Fin 0) (Fin 2))
       (Fin 3))
  = loc_a (waveLocals 0 (Fin 1) (Fin 2) (Fin 3)).
Proof.
  assert (H0 : (0 < WavePhysicsBridge.WAVE_COUNT)%nat) by (cbn; lia).
  split; [exact H0 |].
  destruct (display_and_physics_share (Fin 1) (Fin 2) (Fin 3))
    as (_ & _ & _ & H & _).
  exact (proj1 (H 0%nat 1 2 3 (Fin 0) H0 eq_refl eq_refl eq_refl)).
Defined.

(** ** smoothstep *)

Lemma smoothstepR_increasing (e0 e1 x x' : R) :
  (x - e0) / (e1 - e0) <= (x' - e0) / (e1 - e0) ->
  smoothstepR e0 e1 x <= smoothstepR e0 e1 x'.
Proof.
  intro H. unfold smoothstepR.
  set (t := Rmax 0 (Rmin ((x - e0) / (e1 - e0)) 1.0)).
  set (t' := Rmax 0 (Rmin ((x' - e0) / (e1 - e0)) 1.0)).
  assert (Ht : 0 <= t <= 1) by (unfold t; rminmax).
  assert (Ht' : 0 <= t' <= 1) by (unfold t'; rminmax).
  assert (Hle : t <= t') by (unfold t, t'; rminmax).
  clearbody t t'.
  assert (E : t' * t' * (3 - 2 * t') - t * t * (3 - 2 * t)
              = (t' - t) * (3 * (t + t') - 2 * (t * t + t * t' + t' * t')))
    by ring.
  assert (H1 : t * t <= t) by nra.
  assert (H2 : t' * t' <= t') by nra.
  assert (H3 : 2 * (t * t') <= t + t') by nra.
  assert (H4 : 0 <= 3 * (t + t') - 2 * (t * t + t * t' + t' * t')) by lra.
  assert (H5 : 0 <= (t' - t) * (3 * (t + t') - 2 * (t * t + t * t' + t' * t')))
    by (apply Rmult_le_pos; lra).
  lra.
Qed.

(** X5.  [smoothstep] on finite arguments with distinct edges is a finite
    value between 0 and 1, 0 at [edge0] and 1 at [edge1]; with the edges
    as the breaking fold passes them, 5 and 2, it never grows with the
    depth.  With equal edges the division by zero makes it a step: 0
    below the edge, 1 above it, and [NaN] at the edge itself. *)
Theorem smoothstep_edges (edge0 edge1 : R) :
  (edge0 <> edge1 ->
   (forall x : R,
      exists s : R,
        smoothstep (Fin edge0) (Fin edge1) (Fin x) = Fin s /\ 0 <= s <= 1) /\
   smoothstep (Fin edge0) (Fin edge1) (Fin edge0) = Fin 0 /\
   smoothstep (Fin edge0) (Fin edge1) (Fin edge1) = Fin 1) /\
  (forall d d' : R,
     d <= d' ->
     (smoothstep 5.0 2.0 (Fin d') <=? smoothstep 5.0 2.0 (Fin d))%js = true) /\
  (forall x : R,
     (x < edge0 -> smoothstep (Fin edge0) (Fin edge0) (Fin x) = Fin 0) /\
     (edge0 < x -> smoothstep (Fin edge0) (Fin edge0) (Fin x) = Fin 1) /\
     smoothstep (Fin edge0) (Fin edge0) (Fin edge0) = NaN).
Proof.
  split; [| split].
  - intro Hne. assert (Hd : edge1 - edge0 <> 0) by lra.
    split; [| split].
    + intro x. exists (smoothstepR edge0 edge1 x).
      split; [apply smoothstep_Fin, Hd | apply smoothstepR_bounds].
    + rewrite smoothstep_Fin by exact Hd. f_equal. unfold smoothstepR.
      replace ((edge0 - edge0) / (edge1 - edge0)) with 0 by (field; exact Hd).
      replace (Rmax 0 (Rmin 0 1.0)) with 0 by rminmax. lra.
    + rewrite smoothstep_Fin by exact Hd. f_equal. unfold smoothstepR.
      replace ((edge1 - edge0) / (edge1 - edge0)) with 1 by (field; exact Hd).
      replace (Rmax 0 (Rmin 1 1.0)) with 1 by rminmax. lra.
  - intros d d' Hle. rewrite !smoothstep_Fin by lra. apply leb_Fin.
    apply smoothstepR_increasing. lra.
  - intro x. unfold smoothstep. cbn [Num.sub].
    replace (edge0 - edge0) with 0 by lra.
    split; [| split].
    + intro Hx. unfold Num.div.
      destruct (Req_dec_T 0 0) as [_ | N]; [| contradiction].
      destruct (Req_dec_T (x - edge0) 0); [lra |].
      destruct (Rlt_dec 0 (x - edge0)); [lra |].
      cbn. f_equal. lra.
    + intro Hx. unfold Num.div.
      destruct (Req_dec_T 0 0) as [_ | N]; [| contradiction].
      destruct (Req_dec_T (x - edge0) 0); [lra |].
      destruct (Rlt_dec 0 (x - edge0)); [| lra].
      cbn. f_equal. rminmax.
    + unfold Num.div.
      destruct (Req_dec_T 0 0) as [_ | N]; [| contradiction].
      destruct (Req_dec_T 0 0) as [_ | N]; [| contradiction].
      reflexivity.
Qed.

Lemma smoothstep_edges_witness :
  5 <> 2 /\ 3 <= 4 /\
  smoothstep (Fin 5) (Fin 2) (Fin 2) = Fin 1 /\
  (smoothstep 5.0 2.0 (Fin 4) <=? smoothstep 5.0 2.0 (Fin 3))%js = true.
Proof.
  assert (H1 : 5 <> 2) by lra. assert (H2 : 3 <= 4) by lra.
  destruct (smoothstep_edges 5 2) as (Hne & Hmono & _).
  destruct (Hne H1) as (_ & _ & E1).
  split; [exact H1 | split; [exact H2 | split; [exact E1 |]]].
  apply Hmono, H2.
Defined.

(** ** SurfaceField: size of the surface *)

Lemma waveSum_explicit (x z t : R) :
  waveSum (Fin x) (Fin z) (Fin t) =
  THREE.mkVector3
    (Fin (x
          + displacementFactorR 0 x z * amplitudeR 0 x z
            * toR (dirX (WAVES_at 0)) * cos (phaseR x z t 0)
          + displacementFactorR 1 x z * amplitudeR 1 x z
            * toR (dirX (WAVES_at 1)) * cos (phaseR x z t 1)
          + displacementFactorR 2 x z * amplitudeR 2 x z
            * toR (dirX (WAVES_at 2)) * cos (phaseR x z t 2)))
    (Fin (waveSumYR x z t))
    (Fin (z
          + displacementFactorR 0 x z * amplitudeR 0 x z
            * toR (dirZ (WAVES_at 0)) * cos (phaseR x z t 0)
          + displacementFactorR 1 x z * amplitudeR 1 x z
            * toR (dirZ (WAVES_at 1)) * cos (phaseR x z t 1)
          + displacementFactorR 2 x z * amplitudeR 2 x z
            * toR (dirZ (WAVES_at 2)) * cos (phaseR x z t 2))).
Proof.
  unfold waveSum.
  change (seq 0 WavePhysicsBridge.WAVE_COUNT) with [0; 1; 2]%nat.
  cbn [fold_left].
  replace (THREE.mkVector3 (Fin x) 0 (Fin z))
    with (THREE.mkVector3 (Fin x) (Fin 0) (Fin z)) by reflexivity.
  rewrite !waveStep_Fin by (cbn; lia). reflexivity.
Qed.

(** The height at a finite point: the wave sum, folded where the wave
    breaks. *)
Lemma gerstnerDisplace_y (x z t : R) :
  let Y := waveSumYR x z t in
  THREE.y (gerstnerDisplace (Fin x) (Fin z) (Fin t)) = Fin Y \/
  exists A : R,
    THREE.y (gerstnerDisplace (Fin x) (Fin z) (Fin t))
    = Fin (Rmin Y 0 + Rmax Y 0 * cos A).
Proof.
  intro Y. unfold gerstnerDisplace.
  rewrite waveSum_explicit, phase0_Fin, getDepth_Fin.
  cbn [THREE.x THREE.y THREE.z Math.sin].
  rewrite !smoothstep_Fin by lra.
  destruct (_ >? _)%js.
  - right. eexists. reflexivity.
  - left. reflexivity.
Qed.

Lemma Rabs_le_inv (a b : R) : Rabs a <= b -> - b <= a <= b.
Proof. unfold Rabs. destruct (Rcase_abs a); lra. Qed.

Lemma sqrt_015 : 0.387 <= sqrt 0.15.
Proof.
  rewrite <- (sqrt_square 0.387) by lra. apply sqrt_le_1_alt. lra.
Qed.

Lemma shoalFactorR_le (d : R) : 1.5 <= d <= 10 -> shoalFactorR d <= 2.584.
Proof.
  intro Hd. unfold shoalFactorR.
  assert (Hs : 0.387 <= sqrt (Rmax (d / 10.0) 0.05)).
  { apply Rle_trans with (sqrt 0.15); [apply sqrt_015 |].
    apply sqrt_le_1_alt. rminmax. }
  apply Rmult_le_reg_r with (sqrt (Rmax (d / 10.0) 0.05)); [lra |].
  unfold Rdiv. rewrite Rmult_assoc, Rinv_l by lra. nra.
Qed.

Lemma amplitudeR_bounds (x z : R) :
  0 < amplitudeR 0 x z <= 3.1008 /\
  0 < amplitudeR 1 x z <= 0.5901 /\
  0 < amplitudeR 2 x z <= 0.2213.
Proof.
  assert (Hd := depthR_bounds x z).
  assert (H1 := shoalFactorR_ge_1 _ Hd). assert (H2 := shoalFactorR_le _ Hd).
  unfold amplitudeR, effectiveShoalR.
  cbn [WAVES_at WAVES nth amplitude toR Nat.eqb].
  repeat split; nra.
Qed.

Lemma waveSumYR_bound (x z t : R) : Rabs (waveSumYR x z t) <= 3.9122.
Proof.
  destruct (amplitudeR_bounds x z) as ((P0 & B0) & (P1 & B1) & (P2 & B2)).
  unfold waveSumYR.
  assert (S0 := SIN_bound (phaseR x z t 0)).
  assert (S1 := SIN_bound (phaseR x z t 1)).
  assert (S2 := SIN_bound (phaseR x z t 2)).
  set (s0 := sin (phaseR x z t 0)) in *.
  set (s1 := sin (phaseR x z t 1)) in *.
  set (s2 := sin (phaseR x z t 2)) in *.
  set (a0 := amplitudeR 0 x z) in *.
  set (a1 := amplitudeR 1 x z) in *.
  set (a2 := amplitudeR 2 x z) in *.
  clearbody s0 s1 s2 a0 a1 a2.
  assert (- a0 <= a0 * s0 <= a0) by nra.
  assert (- a1 <= a1 * s1 <= a1) by nra.
  assert (- a2 <= a2 * s2 <= a2) by nra.
  apply Rabs_le. lra.
Qed.

Lemma fold_shrinks (Y A : R) : Rabs (Rmin Y 0 + Rmax Y 0 * cos A) <= Rabs Y.
Proof.
  assert (C := COS_bound A). set (c := cos A) in *. clearbody c.
  unfold Rabs. repeat destruct (Rcase_abs _); rminmax; nra.
Qed.

Lemma height_bound (x z t : R) :
  exists h : R,
    getWaveHeightAt (Fin x) (Fin z) (Fin t) = Fin h /\ Rabs h <= 3.9122.
Proof.
  unfold getWaveHeightAt. assert (B := waveSumYR_bound x z t).
  destruct (gerstnerDisplace_y x z t) as [E | [A E]]; rewrite E; eexists;
    (split; [reflexivity |]).
  - exact B.
  - apply Rle_trans with (2 := B). apply fold_shrinks.
Qed.

Lemma slope_bound (x z t : R) :
  exists sx sz : R,
    getWaveSlopeAt (Fin x) (Fin z) (Fin t) = mkSlope (Fin sx) (Fin sz) /\
    Rabs sx <= 19.561 /\ Rabs sz <= 19.561.
Proof.
  unfold getWaveSlopeAt, _eps. cbn [Num.add Num.sub Num.mul].
  destruct (height_bound (x + 0.2) z t) as (h1 & E1 & B1).
  destruct (height_bound (x - 0.2) z t) as (h2 & E2 & B2).
  destruct (height_bound x (z + 0.2) t) as (h3 & E3 & B3).
  destruct (height_bound x (z - 0.2) t) as (h4 & E4 & B4).
  unfold getWaveHeightAt in E1, E2, E3, E4.
  rewrite E1, E2, E3, E4. cbn [Num.sub]. rewrite !div_Fin by lra.
  do 2 eexists. split; [reflexivity |].
  apply Rabs_le_inv in B1, B2, B3, B4.
  split; apply Rabs_le; lra.
Qed.

(** X6.  At every finite point and time the sampled height is a finite
    number within 3.9122 of the rest level, whether the wave breaks there
    or not, and the two components of the sampled slope are finite and
    within 19.561. *)
Theorem surface_samples_bounded (x z t : R) :
  (exists h : R,
     getWaveHeightAt (Fin x) (Fin z) (Fin t) = Fin h /\
     -3.9122 <= h <= 3.9122) /\
  (exists sx sz : R,
     getWaveSlopeAt (Fin x) (Fin z) (Fin t) = mkSlope (Fin sx) (Fin sz) /\
     -19.561 <= sx <= 19.561 /\ -19.561 <= sz <= 19.561).
Proof.
  split.
  - destruct (height_bound x z t) as (h & E & B).
    exists h. split; [exact E |]. apply Rabs_le_inv in B. lra.
  - destruct (slope_bound x z t) as (sx & sz & E & Bx & Bz).
    exists sx, sz. split; [exact E |].
    apply Rabs_le_inv in Bx, Bz. lra.
Qed.

(** ** SurfaceField: deep water *)

Lemma effectiveShoalR_deep (i : nat) (x z : R) :
  z - x * 0.42 <= 30 -> effectiveShoalR i (depthR x z) = 1.
Proof.
  intro H. assert (Ed : depthR x z = 10) by (unfold depthR; rminmax).
  unfold effectiveShoalR, shoalFactorR. rewrite Ed.
  replace (Rmax (10 / 10.0) 0.05) with 1 by rminmax.
  rewrite sqrt_1. destruct (Nat.eqb i 0); lra.
Qed.

Lemma factor_deep (i : nat) (x z : R) :
  (i < WavePhysicsBridge.WAVE_COUNT)%nat ->
  z - x * 0.42 <= 30 ->
  amplitudeR i x z = toR (amplitude (WAVES_at i)) /\
  displacementFactorR i x z * amplitudeR i x z = deepFactorR i.
Proof.
  intros Hi Hz. assert (Hpi := PI_lower).
  unfold displacementFactorR, steepnessR, amplitudeR, waveNumberR,
    deepFactorR.
  rewrite (effectiveShoalR_deep i x z Hz).
  destruct i as [ | [ | [ | i]]]; [| | | cbn in Hi; lia];
    cbn [WAVES_at WAVES nth steepness wavelength amplitude toR].
  - replace (Rmin (0.12 * 1) 0.4) with 0.12 by rminmax.
    split; [lra | apply unclamped_factor; lra].
  - replace (Rmin (0.08 * 1) 0.4) with 0.08 by rminmax.
    split; [lra | apply unclamped_factor; lra].
  - replace (Rmin (0.06 * 1) 0.4) with 0.06 by rminmax.
    split; [lra | apply unclamped_factor; lra].
Qed.

Lemma breakStrength_deep (x z : R) :
  z - x * 0.42 <= 30 ->
  (smoothstep 5.0 2.0 (getDepth (Fin x) (Fin z)) >? 0.001)%js = false.
Proof.
  intro H. rewrite getDepth_Fin. fold (depthR x z).
  assert (Ed : depthR x z = 10) by (unfold depthR; rminmax).
  rewrite Ed, smoothstep_Fin by lra. apply gtb_Fin_false.
  rewrite (proj1 (breakStrength_ramp 10)); lra.
Qed.

(** X7.  In deep water, where [z - x * 0.42] is at most 30, there is no
    shoaling and no breaking: the displaced position is the plain sum of
    the three Gerstner waves, of height
    [1.2 sin f0 + 0.4 sin f1 + 0.15 sin f2], within 1.75 of the rest
    level, with the horizontal terms
    [steepness * wavelength / (6 * PI) * dir * cos f] of each wave. *)
Theorem deep_water_surface (x z t : R) :
  z - x * 0.42 <= 30 ->
  let f := phaseR x z t in
  let c := deepFactorR in
  let dx := fun i => toR (dirX (WAVES_at i)) in
  let dz := fun i => toR (dirZ (WAVES_at i)) in
  let h := 1.2 * sin (f 0%nat) + 0.4 * sin (f 1%nat) + 0.15 * sin (f 2%nat) in
  gerstnerDisplace (Fin x) (Fin z) (Fin t) =
  THREE.mkVector3
    (Fin (x + c 0%nat * dx 0%nat * cos (f 0%nat)
          + c 1%nat * dx 1%nat * cos (f 1%nat)
          + c 2%nat * dx 2%nat * cos (f 2%nat)))
    (Fin h)
    (Fin (z + c 0%nat * dz 0%nat * cos (f 0%nat)
          + c 1%nat * dz 1%nat * cos (f 1%nat)
          + c 2%nat * dz 2%nat * cos (f 2%nat))) /\
  -1.75 <= h <= 1.75.
Proof.
  intros Hz f c dx dz h. split.
  - unfold gerstnerDisplace. rewrite (breakStrength_deep x z Hz).
    rewrite waveSum_explicit. cbn [THREE.x THREE.y THREE.z].
    unfold waveSumYR.
    destruct (factor_deep 0 x z) as [A0 E0]; [cbn; lia | exact Hz |].
    destruct (factor_deep 1 x z) as [A1 E1]; [cbn; lia | exact Hz |].
    destruct (factor_deep 2 x z) as [A2 E2]; [cbn; lia | exact Hz |].
    rewrite E0, E1, E2, A0, A1, A2.
    cbn [WAVES_at WAVES nth amplitude toR].
    subst f c dx dz h. cbv beta. f_equal. f_equal. lra.
  - assert (S0 := SIN_bound (f 0%nat)). assert (S1 := SIN_bound (f 1%nat)).
    assert (S2 := SIN_bound (f 2%nat)). subst h. lra.
Qed.

Lemma deep_water_surface_witness :
  0 - 0 * 0.42 <= 30 /\
  THREE.y (gerstnerDisplace (Fin 0) (Fin 0) (Fin 1))
  = Fin (1.2 * sin (phaseR 0 0 1 0) + 0.4 * sin (phaseR 0 0 1 1)
         + 0.15 * sin (phaseR 0 0 1 2)).
Proof.
  assert (H : 0 - 0 * 0.42 <= 30) by lra.
  split; [exact H |].
  rewrite (proj1 (deep_water_surface 0 0 1 H)). reflexivity.
Defined.

(** ** SurfaceField: the full sample *)

Lemma normalize_finite (a b c : R) :
  exists nx ny nz : R,
    THREE.normalize (THREE.mkVector3 (Fin a) (Fin b) (Fin c))
    = THREE.mkVector3 (Fin nx) (Fin ny) (Fin nz) /\
    ((a = 0 /\ b = 0 /\ c = 0 /\ nx = 0 /\ ny = 0 /\ nz = 0) \/
     nx * nx + ny * ny + nz * nz = 1).
Proof.
  unfold THREE.normalize, THREE.divideScalar, THREE.multiplyScalar,
    THREE.length.
  cbn [THREE.x THREE.y THREE.z Num.mul Num.add].
  assert (Hsq : 0 <= a * a + b * b + c * c) by nra.
  rewrite sqrt_Fin by exact Hsq. unfold THREE.orElse.
  destruct (Req_dec_T (sqrt (a * a + b * b + c * c)) 0) as [E0 | Hne].
  - apply sqrt_eq_0 in E0; [| exact Hsq].
    assert (a = 0 /\ b = 0 /\ c = 0) as (Ha & Hb & Hc) by (repeat split; nra).
    subst a b c. rewrite div_Fin by lra. cbn [Num.mul].
    do 3 eexists. split; [reflexivity |]. left. repeat split; lra.
  - rewrite div_Fin by exact Hne. cbn [Num.mul].
    do 3 eexists. split; [reflexivity |]. right.
    set (l := sqrt (a * a + b * b + c * c)) in *.
    assert (El : l * l = a * a + b * b + c * c) by (apply sqrt_sqrt, Hsq).
    clearbody l.
    replace (a * (1 / l) * (a * (1 / l)) + b * (1 / l) * (b * (1 / l))
             + c * (1 / l) * (c * (1 / l)))
      with ((a * a + b * b + c * c) / (l * l)) by (field; exact Hne).
    rewrite <- El. field. exact Hne.
Qed.

(** X8.  At a finite point and time [getWaterSurfaceAt] returns the height
    [getWaveHeightAt] gives there, a finite velocity, and a finite normal
    that has length 1, or is the zero vector when the cross product of
    the two tangents vanishes. *)
Theorem water_surface_sample (x z t : R) :
  let s := getWaterSurfaceAt (Fin x) (Fin z) (Fin t) in
  WaveSurfaceSample.height s = getWaveHeightAt (Fin x) (Fin z) (Fin t) /\
  finite (WaveSurfaceSample.height s) /\
  finiteVector (WaveSurfaceSample.velocity s) /\
  exists nx ny nz : R,
    WaveSurfaceSample.normal s = THREE.mkVector3 (Fin nx) (Fin ny) (Fin nz) /\
    (nx * nx + ny * ny + nz * nz = 1 \/ (nx = 0 /\ ny = 0 /\ nz = 0)).
Proof.
  intro s. subst s. unfold getWaterSurfaceAt, _eps.
  cbn [WaveSurfaceSample.height WaveSurfaceSample.velocity
       WaveSurfaceSample.normal Num.add Num.sub Num.mul].
  destruct (gerstnerDisplace_finite x z t) as (c1 & c2 & c3 & Ec).
  destruct (gerstnerDisplace_finite (x + 0.2) z t) as (? & ? & ? & E1).
  destruct (gerstnerDisplace_finite (x - 0.2) z t) as (? & ? & ? & E2).
  destruct (gerstnerDisplace_finite x (z + 0.2) t) as (? & ? & ? & E3).
  destruct (gerstnerDisplace_finite x (z - 0.2) t) as (? & ? & ? & E4).
  destruct (gerstnerDisplace_finite x z (t + 0.01)) as (? & ? & ? & E5).
  unfold getWaveHeightAt. rewrite Ec, E1, E2, E3, E4, E5.
  cbn [THREE.x THREE.y THREE.z Num.sub]. rewrite !div_Fin by lra.
  split; [reflexivity |].
  split; [eexists; reflexivity |].
  split; [do 3 eexists; reflexivity |].
  unfold THREE.crossVectors. cbn [THREE.x THREE.y THREE.z Num.sub Num.mul].
  match goal with
  | |- context [THREE.normalize (THREE.mkVector3 (Fin ?a) (Fin ?b) (Fin ?c))] =>
      destruct (normalize_finite a b c) as (nx & ny & nz & En & Hn)
  end.
  exists nx, ny, nz. split; [exact En |].
  destruct Hn as [(_ & _ & _ & ? & ? & ?) | H1]; [right | left]; auto.
Qed.

(** ** RiderDynamics: input policy *)

Lemma readInput_cases (keys : Keys) :
  let up := (keys "ArrowUp"%string || keys "KeyW"%string)%bool in
  let down := (keys "ArrowDown"%string || keys "KeyS"%string)%bool in
  let left := (keys "ArrowLeft"%string || keys "KeyA"%string)%bool in
  let right := (keys "ArrowRight"%string || keys "KeyD"%string)%bool in
  let shift :=
    (keys "ShiftLeft"%string || keys "ShiftRight"%string || keys "Shift"%string)%bool in
  readInput keys =
  (if (shift && (left || right))%bool then Fin 0.25
   else if down then Fin 0.3 else if up then Fin (-0.2) else Fin 0.05,
   if right then Fin (-0.55) else if left then Fin 0.55 else Fin 0,
   shift).
Proof.
  intros up down left right shift. subst up down left right shift.
  unfold readInput.
  destruct (keys "ArrowUp"%string || keys "KeyW"%string)%bool,
    (keys "ArrowDown"%string || keys "KeyS"%string)%bool,
    (keys "ArrowLeft"%string || keys "KeyA"%string)%bool,
    (keys "ArrowRight"%string || keys "KeyD"%string)%bool,
    (keys "ShiftLeft"%string || keys "ShiftRight"%string || keys "Shift"%string)%bool;
    cbn [andb orb Math.abs Num.gtb Num.ltb];
    repeat match goal with
           | |- context [Rlt_dec ?a ?b] =>
               destruct (Rlt_dec a b) as [Hlt | Hlt];
               [| try (exfalso; apply Hlt; unfold Rabs;
                       destruct (Rcase_abs _); lra)];
               try (exfalso; revert Hlt; rewrite Rabs_R0; lra)
           end;
    reflexivity.
Qed.

(** ** RiderDynamics: what a frame writes *)

(** The whole outcome of a frame run while playing: the physics state it
    leaves, and either the crash (game over, yaw and group untouched, spray
    switched off) or the turn and the move. *)
Lemma useFrame_outcome (w : World) (g : Group) (t d : number) :
  gameState w = playing ->
  groupRef w = Some g ->
  let s := stateRef w in
  let w' := useFrame t d w in
  let s' := stateRef w' in
  let dt := frame_dt d in
  let slope :=
    getWaveSlopeAt (THREE.x (position g)) (THREE.z (position g)) t in
  pitch s' = frame_pitch w d /\
  roll s' = frame_roll w d /\
  prevPitch s' = pitch s /\
  prevRoll s' = roll s /\
  cameraYaw s' = cameraYaw s /\
  vY s' =
    ((vY s
      + (speed s' / 10.0 * GRAVITY + pitch s' * speed s' * 3.0
         + groundEffectOf (height s) + slopeMag slope * GRAVITY * 0.2
         - GRAVITY) * dt) * 0.85)%js /\
  height s' = (height s + vY s' * dt)%js /\
  clockRef w' = t /\
  keys w' = keys w /\
  ((gameState w' = gameover /\
    fst (crashDetection (height s')) = true /\
    crashReason w' = snd (crashDetection (height s')) /\
    yaw s' = yaw s /\
    groupRef w' = Some g /\
    sprayStateRef w' = SprayState.set_isPlaying false (sprayStateRef w)) \/
   (gameState w' = playing /\
    fst (crashDetection (height s')) = false /\
    crashReason w' = crashReason w /\
    yaw s' = frame_yaw w d (speed s') /\
    groupRef w' =
      Some (mkGroup
              (frame_position g t d (yaw s') (speed s') (height s'))
              (mkEuler (pitch s') (yaw s') (roll s') "YXZ")) /\
    sprayStateRef w' =
      SprayState.mk (roll s') (height s') (speed s') (frame_rollRate w d)
        (snd (readInput (keys w))) true)).
Proof.
  intros Hplay Hgroup s w' s' dt slope. subst s w' s' dt slope.
  unfold frame_yaw, frame_position, frame_rollRate.
  unfold frame_pitch, frame_roll, frame_dt.
  unfold useFrame. rewrite Hplay, Hgroup.
  destruct (readInput (keys w)) as [[targetPitch targetRoll] isSnapping].
  cbn [fst snd].
  match goal with
  | |- context [match crashDetection ?h with pair _ _ => _ end] =>
      destruct (crashDetection h) as [[ | ] reason] eqn:Hc
  end.
  - unfold setGameState, setCrashReason.
    cbn [gameState GameState_eqb resetEffect stateRef pitch roll prevPitch
         prevRoll cameraYaw vY height speed yaw clockRef keys groupRef
         sprayStateRef crashReason].
    rewrite Hc. cbn [fst snd].
    repeat (split; [reflexivity |]). left. repeat split.
  - cbn [gameState stateRef pitch roll prevPitch
         prevRoll cameraYaw vY height speed yaw clockRef keys groupRef
         sprayStateRef crashReason].
    rewrite Hc. cbn [fst snd].
    repeat (split; [reflexivity |]). right. repeat split.
Qed.

Lemma readInput_bounds (keys : Keys) :
  exists tp tr : R,
    fst (fst (readInput keys)) = Fin tp /\
    snd (fst (readInput keys)) = Fin tr /\
    -0.2 <= tp <= 0.3 /\ -0.55 <= tr <= 0.55.
Proof.
  rewrite readInput_cases. cbn [fst snd].
  destruct (keys "ArrowUp"%string || keys "KeyW"%string)%bool,
    (keys "ArrowDown"%string || keys "KeyS"%string)%bool,
    (keys "ArrowLeft"%string || keys "KeyA"%string)%bool,
    (keys "ArrowRight"%string || keys "KeyD"%string)%bool,
    (keys "ShiftLeft"%string || keys "ShiftRight"%string
     || keys "Shift"%string)%bool;
    cbn [andb orb]; do 2 eexists;
    (split; [reflexivity | split; [reflexivity | lra]]).
Qed.

Lemma frame_dt_Fin (dr : R) :
  0 <= dr ->
  frame_dt (Fin dr) = Fin (Rmin dr 0.1) /\ 0 <= Rmin dr 0.1 <= 0.1.
Proof. intro H. split; [reflexivity | rminmax]. Qed.

(** The smoothing keeps pitch and roll between where they were and their
    targets, the frame time being capped at 0.1. *)
Lemma frame_posture (w : World) (dr : R) :
  postureBounded (stateRef w) ->
  0 <= dr ->
  exists p' r' : R,
    frame_pitch w (Fin dr) = Fin p' /\ frame_roll w (Fin dr) = Fin r' /\
    -0.2 <= p' <= 0.3 /\ -0.55 <= r' <= 0.55.
Proof.
  intros (p & r & Ep & Er & Hp & Hr) Hd.
  destruct (readInput_bounds (keys w)) as (tp & tr & Etp & Etr & Htp & Htr).
  destruct (frame_dt_Fin dr Hd) as [Edt Hdt].
  unfold frame_pitch, frame_roll. rewrite Ep, Er, Etp, Etr, Edt.
  set (dt := Rmin dr 0.1) in *. clearbody dt.
  do 2 eexists. split; [reflexivity | split; [reflexivity |]].
  split; nra.
Qed.

Lemma speedFactor_bounds (sp : R) :
  1 <= sp <= 25 -> 0.4 <= 10.0 / Rmax sp 10.0 <= 1.
Proof.
  intro H. assert (Hm : 10 <= Rmax sp 10.0 <= 25) by rminmax.
  set (m := Rmax sp 10.0) in *. clearbody m.
  split.
  - apply Rmult_le_reg_r with m; [lra |].
    unfold Rdiv. rewrite Rmult_assoc, Rinv_l by lra. lra.
  - apply Rmult_le_reg_r with m; [lra |].
    unfold Rdiv. rewrite Rmult_assoc, Rinv_l by lra. lra.
Qed.

Lemma turn_bound (r' dt k : R) :
  -0.55 <= r' <= 0.55 -> 0 <= dt <= 0.1 -> 0 <= k <= 2.5 ->
  -0.75625 <= r' * dt * 5.5 * k <= 0.75625.
Proof.
  intros Hr Hdt Hk.
  assert (H1 : -0.055 <= r' * dt <= 0.055) by nra.
  set (u := r' * dt) in *. clearbody u.
  assert (H2 : -0.1375 <= u * k <= 0.1375) by nra.
  replace (u * 5.5 * k) with (5.5 * (u * k)) by ring. lra.
Qed.

(** The turn of a frame: at most 0.75625 rad, the snap included. *)
Lemma frame_yaw_Fin (w : World) (dr y r' sp : R) :
  yaw (stateRef w) = Fin y ->
  frame_roll w (Fin dr) = Fin r' ->
  -0.55 <= r' <= 0.55 -> 0 <= dr -> 1 <= sp <= 25 ->
  exists y' : R,
    frame_yaw w (Fin dr) (Fin sp) = Fin y' /\
    -0.75625 <= y' - y <= 0.75625.
Proof.
  intros Ey Er Hr Hd Hsp.
  destruct (frame_dt_Fin dr Hd) as [Edt Hdt].
  assert (Hsf := speedFactor_bounds sp Hsp).
  assert (Hm : Rmax sp 10.0 <> 0) by rminmax.
  unfold frame_yaw. rewrite Ey, Er, Edt.
  destruct (snd (readInput (keys w))).
  - cbn [Num.mul Num.add]. eexists. split; [reflexivity |].
    assert (B := turn_bound r' (Rmin dr 0.1) (2.5 * 1.0) Hr Hdt).
    replace (y + r' * Rmin dr 0.1 * 5.5 * 2.5 * 1.0 - y)
      with (r' * Rmin dr 0.1 * 5.5 * (2.5 * 1.0)) by ring.
    apply B. lra.
  - cbn [Math.max]. rewrite div_Fin by exact Hm. cbn [Num.mul Num.add].
    eexists. split; [reflexivity |].
    assert (B := turn_bound r' (Rmin dr 0.1) (1.0 * (10.0 / Rmax sp 10.0))
                   Hr Hdt).
    replace (y + r' * Rmin dr 0.1 * 5.5 * 1.0 * (10.0 / Rmax sp 10.0) - y)
      with (r' * Rmin dr 0.1 * 5.5 * (1.0 * (10.0 / Rmax sp 10.0))) by ring.
    apply B. lra.
Qed.

(** The move of a frame: along the heading by [speed * dt], then onto the
    surface. *)
Lemma frame_position_Fin (g : Group) (a b c tr dr y' sp h' : R) :
  position g = THREE.mkVector3 (Fin a) (Fin b) (Fin c) ->
  0 <= dr ->
  let dt := Rmin dr 0.1 in
  let x' := a + - sin y' * (sp * dt) in
  let z' := c + - cos y' * (sp * dt) in
  exists wy : R,
    getWaveHeightAt (Fin x') (Fin z') (Fin tr) = Fin wy /\
    frame_position g (Fin tr) (Fin dr) (Fin y') (Fin sp) (Fin h')
    = THREE.mkVector3 (Fin x') (Fin (wy + h')) (Fin z').
Proof.
  intros Eg Hd dt x' z'.
  destruct (height_bound x' z' tr) as (wy & Ewy & _).
  exists wy. split; [exact Ewy |].
  unfold frame_position. rewrite forward_vector, Eg.
  unfold multiplyScalar, addVector, frame_dt.
  cbn [THREE.x THREE.y THREE.z Math.min Num.mul Num.add].
  fold dt. fold x'. fold z'. rewrite Ewy. reflexivity.
Qed.

Lemma crashDetection_Fin (h : R) :
  (fst (crashDetection (Fin h)) = true <-> h <= -0.05 \/ 1.3 <= h) /\
  (fst (crashDetection (Fin h)) = false <-> -0.05 < h < 1.3).
Proof.
  unfold crashDetection, Num.geb, Num.leb.
  destruct (Rle_dec h (-0.05)), (Rle_dec 1.3 h); cbn [fst];
    split; split; intro H; try reflexivity; try discriminate; lra.
Qed.

(** A frame run while playing from a sound world, in real numbers. *)
Lemma useFrame_real (w : World) (g : Group) (tr dr : R) :
  sound w ->
  gameState w = playing ->
  groupRef w = Some g ->
  0 <= dr ->
  let w' := useFrame (Fin tr) (Fin dr) w in
  let s := stateRef w in
  let s' := stateRef w' in
  let dt := Rmin dr 0.1 in
  exists p' r' sp' v' h' a b c y : R,
    position g = THREE.mkVector3 (Fin a) (Fin b) (Fin c) /\
    yaw s = Fin y /\
    pitch s' = Fin p' /\ roll s' = Fin r' /\ speed s' = Fin sp' /\
    vY s' = Fin v' /\ height s' = Fin h' /\
    -0.2 <= p' <= 0.3 /\ -0.55 <= r' <= 0.55 /\ 1 <= sp' <= 25 /\
    h' = toR (height s) + v' * dt /\
    (exists sx sz : R,
       getWaveSlopeAt (Fin a) (Fin c) (Fin tr) = mkSlope (Fin sx) (Fin sz) /\
       v' = verticalVelocityR (toR (vY s)) (toR (height s)) sp' p' sx sz dt)
    /\
    prevPitch s' = pitch s /\ prevRoll s' = roll s /\
    cameraYaw s' = cameraYaw s /\ clockRef w' = Fin tr /\
    ((gameState w' = gameover /\ (h' <= -0.05 \/ 1.3 <= h') /\
      yaw s' = Fin y /\ groupRef w' = Some g) \/
     (gameState w' = playing /\ -0.05 < h' < 1.3 /\
      exists y' wy : R,
        yaw s' = Fin y' /\ -0.75625 <= y' - y <= 0.75625 /\
        getWaveHeightAt (Fin (a + - sin y' * (sp' * dt)))
          (Fin (c + - cos y' * (sp' * dt))) (Fin tr) = Fin wy /\
        groupRef w' =
          Some (mkGroup
                  (THREE.mkVector3 (Fin (a + - sin y' * (sp' * dt)))
                     (Fin (wy + h')) (Fin (c + - cos y' * (sp' * dt))))
                  (mkEuler (Fin p') (Fin y') (Fin r') "YXZ")))).
Proof.
  intros (Fs & Pb & Sr & Fc & g0 & Hg0 & Fg) Hplay Hgroup Hd w' s s' dt.
  rewrite Hgroup in Hg0. injection Hg0 as <-.
  destruct Fs as (_ & _ & [y Ey] & _ & [h Eh] & [v Ev] & _).
  destruct Fg as ((a & b & c & Epos) & _).
  destruct (useFrame_outcome w g (Fin tr) (Fin dr) Hplay Hgroup)
    as (Op & Or & Opp & Opr & Ocy & Ov & Oh & Oc & _ & Ocases).
  fold w' in Op, Or, Opp, Opr, Ocy, Ov, Oh, Oc, Ocases.
  fold s s' in Op, Or, Opp, Opr, Ocy, Ov, Oh, Ocases.
  destruct (frame_posture w dr Pb Hd) as (p' & r' & Ep' & Er' & Hp' & Hr').
  destruct (useFrame_playing_speed_range w g (Fin tr) (Fin dr) Hplay Hgroup)
    as (sp' & Esp' & Hsp'). fold w' in Esp'. fold s' in Esp'.
  destruct (frame_dt_Fin dr Hd) as [Edt Hdt]. fold dt in Edt, Hdt.
  rewrite Epos in Ov. cbn [THREE.x THREE.z] in Ov.
  destruct (getWaveSlopeAt_finite a c tr) as (sx & sz & Es).
  rewrite Op, Ep', Esp', Es, slopeMag_Fin, Edt in Ov. fold s in Ev, Eh, Ey.
  rewrite Ev, Eh, groundEffectOf_Fin in Ov. unfold GRAVITY in Ov.
  rewrite div_Fin in Ov by lra. cbn [Num.mul Num.add Num.sub] in Ov.
  fold (groundEffectR h) in Ov.
  fold (verticalVelocityR v h sp' p' sx sz dt) in Ov.
  set (v' := verticalVelocityR v h sp' p' sx sz dt) in *.
  rewrite Ov, Eh, Edt in Oh. cbn [Num.mul Num.add] in Oh.
  exists p', r', sp', v', (h + v' * dt), a, b, c, y.
  rewrite Op, Or. rewrite Eh, Ev. cbn [toR].
  repeat (split; [first [assumption | reflexivity | lra] |]).
  split; [exists sx, sz; split; [exact Es | reflexivity] |].
  repeat (split; [first [assumption | reflexivity | lra] |]).
  rewrite Oh in Ocases.
  destruct Ocases as [(Og & Ocr & _ & Oy & Ogr & _) | (Og & Ocr & _ & Oy & Ogr & _)].
  - left. split; [exact Og |]. split; [apply crashDetection_Fin, Ocr |].
    split; [rewrite Oy; exact Ey | exact Ogr].
  - right. split; [exact Og |]. split; [apply crashDetection_Fin, Ocr |].
    rewrite Esp' in Oy.
    destruct (frame_yaw_Fin w dr y r' sp' Ey Er' Hr' Hd Hsp')
      as (y' & Ey' & Hy').
    rewrite Ey' in Oy.
    destruct (frame_position_Fin g a b c tr dr y' sp' (h + v' * dt) Epos Hd)
      as (wy & Ewy & Efp).
    fold dt in Ewy, Efp.
    exists y', wy. split; [exact Oy |]. split; [exact Hy' |].
    split; [exact Ewy |].
    rewrite Ogr, Oy, Esp', Op, Or, Ep', Er', Efp. reflexivity.
Qed.

(** ** RiderDynamics: the invariants of a ride *)

Lemma START_YAW_Fin : START_YAW = Fin (- PI / 2).
Proof.
  unfold START_YAW, Math.PI. cbn [Num.neg]. apply div_Fin. lra.
Qed.

Lemma finite_Fin (r : R) : finite (Fin r).
Proof. exists r. reflexivity. Qed.

Lemma initialPhysicsState_sound :
  finiteState initialPhysicsState /\ postureBounded initialPhysicsState /\
  speed_in_range initialPhysicsState.
Proof.
  unfold initialPhysicsState. rewrite START_YAW_Fin.
  split; [| split].
  - repeat split; apply finite_Fin.
  - exists 0, 0. cbn. repeat split; lra.
  - exists 12. cbn. split; [reflexivity | lra].
Qed.

Lemma start_group_finite (t : R) (order : string) :
  finiteGroup
    (mkGroup
       (THREE.mkVector3 START_X
          (getWaveHeightAt START_X START_Z (Fin t) + 0.4)%js START_Z)
       (mkEuler 0 START_YAW 0 order)).
Proof.
  unfold START_X, START_Z. destruct (height_bound 5 20 t) as (h & E & _).
  rewrite E, START_YAW_Fin. cbn [Num.add].
  split; [do 3 eexists; reflexivity |]. cbn. repeat split; apply finite_Fin.
Qed.

Lemma initialWorld_sound : sound initialWorld.
Proof.
  destruct initialPhysicsState_sound as (F & P & S).
  unfold sound, initialWorld. cbn [stateRef clockRef groupRef].
  split; [exact F | split; [exact P | split; [exact S |]]].
  split; [apply finite_Fin |].
  eexists. split; [reflexivity |].
  unfold START_X, START_Z. destruct (height_bound 5 20 0) as (h & E & _).
  rewrite E. cbn [Num.add].
  split; [do 3 eexists; reflexivity |]. cbn. repeat split; apply finite_Fin.
Qed.

Lemma setGameState_sound (gs : GameState) (w : World) :
  sound w -> sound (setGameState gs w).
Proof.
  intros (F & P & S & [t Et] & g & Hg & Fg).
  assert (Hw : sound w).
  { split; [exact F | split; [exact P | split; [exact S |]]].
    split; [exists t; exact Et | exists g; split; assumption]. }
  unfold setGameState. destruct (GameState_eqb gs (gameState w)); [exact Hw |].
  unfold resetEffect. cbn [gameState].
  destruct gs; try exact Hw.
  cbn [stateRef clockRef groupRef crashReason keys sprayStateRef].
  destruct initialPhysicsState_sound as (F0 & P0 & S0).
  unfold sound. cbn [stateRef clockRef groupRef].
  split; [exact F0 | split; [exact P0 | split; [exact S0 |]]].
  split; [exists t; exact Et |].
  rewrite Hg, Et. eexists. split; [reflexivity |]. apply start_group_finite.
Qed.

Lemma useFrame_sound (w : World) (tr dr : R) :
  sound w -> 0 <= dr -> sound (useFrame (Fin tr) (Fin dr) w).
Proof.
  intros Hw Hd.
  destruct (gameState w) eqn:Hgs.
  1, 3: destruct Hw as (F & P & S & _ & g & Hg & Fg);
    destruct (useFrame_idle w (Fin tr) (Fin dr)) as (Es & Eg & _);
    [left; rewrite Hgs; discriminate |];
    unfold sound; rewrite Es, Eg;
    (split; [exact F | split; [exact P | split; [exact S |]]]);
    (split; [| exists g; split; assumption]);
    unfold useFrame; rewrite Hgs; destruct (groupRef w); apply finite_Fin.
  assert (Hw' := Hw).
  destruct Hw' as (F & P & S & _ & g & Hg & Fg).
  destruct (useFrame_real w g tr dr Hw Hgs Hg Hd)
    as (p' & r' & sp' & v' & h' & a & b & c & y & Epos & Ey & Ep & Er & Esp
        & Ev & Eh & Hp & Hr & Hsp & _ & _ & Epp & Epr & Ecy & Ec & Hcases).
  destruct F as (Fp & Fr & _ & Fcy & _).
  assert (Fy : finite (yaw (stateRef (useFrame (Fin tr) (Fin dr) w))) /\
               exists g', groupRef (useFrame (Fin tr) (Fin dr) w) = Some g' /\
                          finiteGroup g').
  { destruct Hcases as [(_ & _ & Ey' & Eg') | (_ & _ & y' & wy & Ey' & _ & _ & Eg')].
    - split; [rewrite Ey'; apply finite_Fin |]. exists g. split; assumption.
    - split; [rewrite Ey'; apply finite_Fin |].
      eexists. split; [exact Eg' |].
      split; [do 3 eexists; reflexivity |].
      cbn. repeat split; apply finite_Fin. }
  destruct Fy as (Fy & Fg').
  unfold sound.
  split.
  { unfold finiteState. rewrite Ep, Er, Esp, Ev, Eh, Epp, Epr, Ecy.
    repeat split; try apply finite_Fin; assumption. }
  split; [exists p', r'; repeat split; (assumption || lra) |].
  split; [exists sp'; split; [exact Esp | exact Hsp] |].
  split; [rewrite Ec; apply finite_Fin | exact Fg'].
Qed.

Lemma step_sound (w : World) (e : Event) :
  clockEvent e -> sound w -> sound (step w e).
Proof.
  intros He Hw. destruct e as [t d | code | code | ]; cbn [step].
  - destruct He as (tr & dr & -> & -> & Hd). apply useFrame_sound; assumption.
  - exact Hw.
  - exact Hw.
  - apply setGameState_sound, Hw.
Qed.

Lemma run_sound (es : list Event) (w : World) :
  Forall clockEvent es -> sound w -> sound (run es w).
Proof.
  revert w. induction es as [ | e es IH]; intros w Hes Hw; cbn.
  - exact Hw.
  - inversion Hes as [ | ? ? He Hes']; subst.
    apply IH; [exact Hes' | apply step_sound; assumption].
Qed.

(** X9.  Under frames with a finite clock reading and a finite frame time
    that is not negative, whatever keys are pressed and however often the
    game is restarted, every field of the physics state stays a finite
    number, and so do the position and the rotation of the player group:
    no [NaN] and no infinity reaches the rider. *)
Theorem rider_stays_finite (es : list Event) :
  Forall clockEvent es ->
  finiteState (stateRef (run es initialWorld)) /\
  exists g : Group,
    groupRef (run es initialWorld) = Some g /\ finiteGroup g.
Proof.
  intro Hes.
  destruct (run_sound es initialWorld Hes initialWorld_sound)
    as (F & _ & _ & _ & G).
  split; assumption.
Qed.

(** X10.  Under the same frames the pitch stays between -0.2 and 0.3 and
    the roll between -0.55 and 0.55, the extreme targets of the keys. *)
Theorem posture_stays_bounded (es : list Event) :
  Forall clockEvent es ->
  postureBounded (stateRef (run es initialWorld)).
Proof.
  intro Hes.
  destruct (run_sound es initialWorld Hes initialWorld_sound)
    as (_ & P & _).
  exact P.
Qed.

Lemma rideEvents_clock : Forall clockEvent rideEvents.
Proof.
  unfold rideEvents. repeat constructor.
  - exists 0, 0.016. repeat split; lra.
  - exists 0.016, 0.016. repeat split; lra.
Qed.

Lemma rider_stays_finite_witness :
  Forall clockEvent rideEvents /\
  finiteState (stateRef (run rideEvents initialWorld)).
Proof.
  split; [exact rideEvents_clock |].
  exact (proj1 (rider_stays_finite rideEvents rideEvents_clock)).
Defined.

Lemma posture_stays_bounded_witness :
  Forall clockEvent rideEvents /\
  postureBounded (stateRef (run rideEvents initialWorld)).
Proof.
  split; [exact rideEvents_clock |].
  exact (posture_stays_bounded rideEvents rideEvents_clock).
Defined.

(** ** RiderDynamics: how far a frame can take the rider *)

(** X11.  A frame of a ride that does not end in a crash moves the player
    group horizontally by exactly [speed * dt], at most 2.5 since the
    speed is at most 25 and the frame time is capped at 0.1, and turns the
    rider by at most 0.75625 rad. *)
Theorem frame_change_bounded (es : list Event) (tr dr : R) :
  Forall clockEvent es ->
  0 <= dr ->
  let w := run es initialWorld in
  let w' := useFrame (Fin tr) (Fin dr) w in
  gameState w = playing ->
  gameState w' = playing ->
  exists (g g' : Group) (a b c a' b' c' y y' sp' : R),
    groupRef w = Some g /\ groupRef w' = Some g' /\
    position g = THREE.mkVector3 (Fin a) (Fin b) (Fin c) /\
    position g' = THREE.mkVector3 (Fin a') (Fin b') (Fin c') /\
    yaw (stateRef w) = Fin y /\ yaw (stateRef w') = Fin y' /\
    speed (stateRef w') = Fin sp' /\
    (a' - a) * (a' - a) + (c' - c) * (c' - c)
    = (sp' * Rmin dr 0.1) * (sp' * Rmin dr 0.1) /\
    (a' - a) * (a' - a) + (c' - c) * (c' - c) <= 2.5 * 2.5 /\
    -0.75625 <= y' - y <= 0.75625.
Proof.
  intros Hes Hd w w' Hplay Hplay'.
  assert (Hw : sound w) by (apply run_sound; [exact Hes | apply initialWorld_sound]).
  assert (Hw' := Hw). destruct Hw' as (_ & _ & _ & _ & g & Hg & _).
  destruct (useFrame_real w g tr dr Hw Hplay Hg Hd)
    as (p' & r' & sp' & v' & h' & a & b & c & y & Epos & Ey & _ & _ & Esp
        & _ & _ & _ & _ & Hsp & _ & _ & _ & _ & _ & _ & Hcases).
  fold w' in Esp, Hcases.
  destruct Hcases as [(Hover & _) | (_ & _ & y' & wy & Ey' & Hy' & _ & Eg')].
  { rewrite Hover in Hplay'. discriminate. }
  assert (Hdt : 0 <= Rmin dr 0.1 <= 0.1) by rminmax.
  set (dt := Rmin dr 0.1) in *. clearbody dt.
  eexists g, _, a, b, c, _, _, _, y, y', sp'.
  split; [exact Hg | split; [exact Eg' |]].
  split; [exact Epos | split; [reflexivity |]].
  split; [exact Ey | split; [exact Ey' | split; [exact Esp |]]].
  assert (Hu := sin2_cos2 y'). unfold Rsqr in Hu.
  assert (E : (a + - sin y' * (sp' * dt) - a) * (a + - sin y' * (sp' * dt) - a)
              + (c + - cos y' * (sp' * dt) - c)
                * (c + - cos y' * (sp' * dt) - c)
              = sp' * dt * (sp' * dt)).
  { transitivity ((sin y' * sin y' + cos y' * cos y') * (sp' * dt * (sp' * dt)));
      [ring | rewrite Hu; ring]. }
  split; [exact E |]. split; [| exact Hy'].
  rewrite E. assert (0 <= sp' * dt <= 2.5) by nra. nra.
Qed.

(** ** RiderDynamics: the board and the surface *)

Lemma frame_position_on_surface (g : Group) (t d s_yaw s_speed s_height : number) :
  let pos := frame_position g t d s_yaw s_speed s_height in
  THREE.y pos =
  (getWaveHeightAt (THREE.x pos) (THREE.z pos) t + s_height)%js.
Proof. reflexivity. Qed.

Lemma step_onSurface (w : World) (e : Event) :
  (exists g, groupRef w = Some g) ->
  (gameState w = playing -> onSurface w) ->
  (exists g, groupRef (step w e) = Some g) /\
  (gameState (step w e) = playing -> onSurface (step w e)).
Proof.
  intros [g Hg] Hon. destruct e as [t d | code | code | ]; cbn [step].
  - destruct (gameState w) eqn:Hgs.
    1, 3: destruct (useFrame_idle w t d) as (_ & Eg & Egs & _);
      [left; rewrite Hgs; discriminate |];
      (split; [exists g; rewrite Eg; exact Hg |]);
      rewrite Egs, Hgs; discriminate.
    destruct (useFrame_outcome w g t d Hgs Hg)
      as (_ & _ & _ & _ & _ & _ & _ & Ec & _ & Hcases).
    destruct Hcases as [(Hover & _ & _ & _ & Eg & _) | (_ & _ & _ & _ & Eg & _)].
    + split; [exists g; exact Eg |]. rewrite Hover. discriminate.
    + split; [eexists; exact Eg |]. intros _.
      eexists. split; [exact Eg |]. rewrite Ec. cbn [position].
      apply frame_position_on_surface.
  - split; [exists g; exact Hg | exact Hon].
  - split; [exists g; exact Hg | exact Hon].
  - unfold setGameState.
    destruct (gameState w) eqn:Hgs; cbn [GameState_eqb].
    2: split; [exists g; exact Hg | intros _; apply Hon; reflexivity].
    all: unfold resetEffect; cbn [gameState groupRef clockRef stateRef];
      rewrite Hg; (split; [eexists; reflexivity |]); intros _;
      eexists; (split; [reflexivity |]); reflexivity.
Qed.

Lemma run_onSurface (es : list Event) (w : World) :
  (exists g, groupRef w = Some g) ->
  (gameState w = playing -> onSurface w) ->
  gameState (run es w) = playing -> onSurface (run es w).
Proof.
  revert w. induction es as [ | e es IH]; intros w Hg Hon; cbn.
  - exact Hon.
  - destruct (step_onSurface w e Hg Hon) as [Hg' Hon']. apply IH; assumption.
Qed.

Lemma step_rideHeight (w : World) (e : Event) :
  clockEvent e -> sound w ->
  (gameState w = playing -> rideHeight w) ->
  gameState (step w e) = playing -> rideHeight (step w e).
Proof.
  intros He Hw Hh. destruct e as [t d | code | code | ]; cbn [step].
  - destruct He as (tr & dr & -> & -> & Hd).
    destruct (gameState w) eqn:Hgs.
    1, 3: destruct (useFrame_idle w (Fin tr) (Fin dr)) as (_ & _ & Egs & _);
      [left; rewrite Hgs; discriminate |];
      rewrite Egs, Hgs; discriminate.
    assert (Hw' := Hw). destruct Hw' as (_ & _ & _ & _ & g & Hg & _).
    destruct (useFrame_real w g tr dr Hw Hgs Hg Hd)
      as (p' & r' & sp' & v' & h' & a & b & c & y & _ & _ & _ & _ & _
          & _ & Eh & _ & _ & _ & _ & _ & _ & _ & _ & _ & Hcases).
    destruct Hcases as [(Hover & _) | (_ & Hh' & _)].
    + rewrite Hover. discriminate.
    + intros _. exists h'. split; assumption.
  - exact Hh.
  - exact Hh.
  - unfold setGameState.
    destruct (gameState w) eqn:Hgs; cbn [GameState_eqb].
    2: intros _; apply Hh; reflexivity.
    all: unfold resetEffect; cbn [gameState stateRef]; intros _;
      exists 0.4; (split; [reflexivity | lra]).
Qed.

Lemma run_rideHeight (es : list Event) (w : World) :
  Forall clockEvent es -> sound w ->
  (gameState w = playing -> rideHeight w) ->
  gameState (run es w) = playing -> rideHeight (run es w).
Proof.
  revert w. induction es as [ | e es IH]; intros w Hes Hw Hh; cbn.
  - exact Hh.
  - inversion Hes as [ | ? ? He Hes']; subst.
    apply IH; [exact Hes' | apply step_sound; assumption |].
    apply step_rideHeight; assumption.
Qed.

(** X12.  Whenever the game is in play, after any frames, keys and
    restarts, the player group sits on the surface: its Y is the wave
    height under it, at the last clock reading, plus the ride height; and
    under frames with finite clock and frame time that ride height is
    strictly between -0.05 and 1.3. *)
Theorem board_rides_surface (es : list Event) :
  gameState (run es initialWorld) = playing ->
  onSurface (run es initialWorld) /\
  (Forall clockEvent es -> rideHeight (run es initialWorld)).
Proof.
  intro Hplay. split.
  - apply run_onSurface; [eexists; reflexivity | discriminate | exact Hplay].
  - intro Hes.
    apply run_rideHeight;
      [exact Hes | apply initialWorld_sound | discriminate | exact Hplay].
Qed.

Lemma board_rides_surface_witness :
  gameState (run [ClickStart] initialWorld) = playing /\
  Forall clockEvent [ClickStart] /\
  onSurface (run [ClickStart] initialWorld) /\
  rideHeight (run [ClickStart] initialWorld).
Proof.
  assert (Hc : Forall clockEvent [ClickStart]) by (repeat constructor).
  destruct (board_rides_surface [ClickStart] eq_refl) as [H1 H2].
  split; [reflexivity | split; [exact Hc | split; [exact H1 | exact (H2 Hc)]]].
Defined.

(** ** RiderDynamics: the first frame and the empty frame *)

Lemma slopeMag_bound (sx sz : R) :
  -19.561 <= sx <= 19.561 -> -19.561 <= sz <= 19.561 ->
  0 <= sqrt (sx * sx + sz * sz) <= 27.67.
Proof.
  intros Hx Hz. split; [apply sqrt_pos |].
  rewrite <- (sqrt_square 27.67) by lra. apply sqrt_le_1_alt. nra.
Qed.

(** From rest at the starting height a frame cannot reach either crash
    threshold. *)
Lemma first_frame_height (sp p sx sz dt : R) :
  1 <= sp <= 25 -> -0.2 <= p <= 0.3 ->
  -19.561 <= sx <= 19.561 -> -19.561 <= sz <= 19.561 ->
  0 <= dt <= 0.1 ->
  0.19 < 0.4 + verticalVelocityR 0 0.4 sp p sx sz dt * dt < 1.19.
Proof.
  intros Hsp Hp Hx Hz Hdt.
  assert (Hm := slopeMag_bound sx sz Hx Hz).
  unfold verticalVelocityR, groundEffectR.
  destruct (Rlt_dec 1.0 0.4); [lra |]. destruct (Rlt_dec 0.4 0.3); [lra |].
  set (m := sqrt (sx * sx + sz * sz)) in *. clearbody m.
  assert (Hps : -15 <= p * sp * 3.0 <= 22.5) by nra.
  set (pl := p * sp * 3.0) in *. clearbody pl.
  assert (HL : -23.82 <= sp / 10.0 * 9.8 + pl + 0 + m * 9.8 * 0.2 - 9.8
               <= 91.44) by lra.
  set (L := sp / 10.0 * 9.8 + pl + 0 + m * 9.8 * 0.2 - 9.8) in *.
  clearbody L.
  assert (Hu : 0 <= dt * dt <= 0.01) by nra.
  replace ((0 + L * dt) * 0.85 * dt) with (0.85 * (L * (dt * dt))) by ring.
  set (u := dt * dt) in *. clearbody u.
  assert (-0.2382 <= L * u <= 0.9144) by nra.
  lra.
Qed.

Lemma first_frame_survives (w : World) (g : Group) (tr dr : R) :
  sound w ->
  stateRef w = initialPhysicsState ->
  gameState w = playing ->
  groupRef w = Some g ->
  0 <= dr ->
  gameState (useFrame (Fin tr) (Fin dr) w) = playing /\
  exists h' : R,
    height (stateRef (useFrame (Fin tr) (Fin dr) w)) = Fin h' /\
    0.19 < h' < 1.19.
Proof.
  intros Hw Hs Hplay Hg Hd.
  destruct (useFrame_real w g tr dr Hw Hplay Hg Hd)
    as (p' & r' & sp' & v' & h' & a & b & c & y & _ & _ & _ & _ & _
        & _ & Eh & Hp & _ & Hsp & Eh' & (sx & sz & Es & Ev') & _ & _ & _ & _
        & Hcases).
  rewrite Hs in Eh', Ev'. cbn [initialPhysicsState vY height toR] in Eh', Ev'.
  destruct (slope_bound a c tr) as (sx' & sz' & Es' & Bx & Bz).
  rewrite Es in Es'. injection Es' as <- <-.
  apply Rabs_le_inv in Bx, Bz.
  assert (Bx' : -19.561 <= sx <= 19.561) by lra.
  assert (Bz' : -19.561 <= sz <= 19.561) by lra.
  assert (Hdt : 0 <= Rmin dr 0.1 <= 0.1) by rminmax.
  assert (Hh := first_frame_height sp' p' sx sz (Rmin dr 0.1)
                  Hsp Hp Bx' Bz' Hdt).
  rewrite <- Ev', <- Eh' in Hh.
  destruct Hcases as [(_ & Hcrash & _) | (Hgs & _)].
  - exfalso. lra.
  - split; [exact Hgs |]. exists h'. split; [exact Eh | exact Hh].
Qed.

Lemma setGameState_playing_reset (w : World) :
  gameState w <> playing ->
  gameState (setGameState playing w) = playing /\
  stateRef (setGameState playing w) = initialPhysicsState.
Proof.
  intro H. unfold setGameState.
  destruct (gameState w); [| contradiction |]; cbn; auto.
Qed.

(** X13.  The frame that follows a start or a restart never ends in a
    crash, whatever keys are held, whatever the clock reading and however
    long the frame took: it leaves the ride height between 0.19 and
    1.19. *)
Theorem first_frame_never_crashes (es : list Event) (tr dr : R) :
  Forall clockEvent es ->
  gameState (run es initialWorld) <> playing ->
  0 <= dr ->
  let w' := run (es ++ [ClickStart; Frame (Fin tr) (Fin dr)]) initialWorld in
  gameState w' = playing /\
  exists h' : R, height (stateRef w') = Fin h' /\ 0.19 < h' < 1.19.
Proof.
  intros Hes Hnp Hd w'. subst w'. rewrite run_app.
  cbn [run fold_left step].
  set (w := fold_left step es initialWorld) in *.
  assert (Hw : sound w) by (apply run_sound; [exact Hes | apply initialWorld_sound]).
  destruct (setGameState_playing_reset w Hnp) as [Hplay Hs].
  assert (Hw' := setGameState_sound playing w Hw).
  assert (Hg := Hw'). destruct Hg as (_ & _ & _ & _ & g & Hg & _).
  apply (first_frame_survives _ g tr dr Hw' Hs Hplay Hg Hd).
Qed.

Lemma first_frame_never_crashes_witness :
  Forall clockEvent [] /\
  gameState (run [] initialWorld) <> playing /\
  0 <= 0.1 /\
  gameState (run ([] ++ [ClickStart; Frame (Fin 0) (Fin 0.1)]) initialWorld)
  = playing.
Proof.
  assert (H1 : Forall clockEvent []) by constructor.
  assert (H2 : gameState (run [] initialWorld) <> playing) by discriminate.
  assert (H3 : 0 <= 0.1) by lra.
  split; [exact H1 | split; [exact H2 | split; [exact H3 |]]].
  exact (proj1 (first_frame_never_crashes [] 0 0.1 H1 H2 H3)).
Defined.

(** In a frame of no duration the rate of change of pitch or roll is
    [NaN]: the change, zero or undefined, is divided by zero. *)
Lemma empty_frame_rate (a target : number) (k : R) :
  finite target ->
  (Math.abs (THREE.MathUtils.lerp a target (frame_dt (Fin 0) * Fin k) - a)
   / frame_dt (Fin 0))%js = NaN.
Proof.
  intros [tg ->].
  unfold frame_dt, THREE.MathUtils.lerp. cbn [Math.min Num.mul Num.sub].
  replace (Rmin 0 0.1) with 0 by rminmax.
  replace (0 * k) with 0 by ring. replace (1 - 0) with 1 by ring.
  destruct a as [ | | | a]; cbn [Num.mul Num.mul_infinity Num.add Num.sub
                                   Num.neg Math.abs Num.div];
    repeat (destruct (Req_dec_T _ _); try lra);
    repeat (destruct (Rlt_dec _ _); try lra);
    cbn [Num.infinity Num.mul Num.mul_infinity Num.add Num.sub Num.neg
         Math.abs Num.div negb];
    try reflexivity.
  all: exfalso;
    match goal with
    | H : Rabs ?e <> 0 |- _ =>
        apply H; replace e with 0 by ring; apply Rabs_R0
    end.
Qed.

Lemma useFrame_speed_eq (w : World) (g : Group) (t d : number) :
  gameState w = playing ->
  groupRef w = Some g ->
  exists wst fct drag : number,
    speed (stateRef (useFrame t d w)) =
    integrateSpeed (speed (stateRef w)) wst fct
      (Math.abs (frame_pitch w d - pitch (stateRef w)) / frame_dt d * 3.5
       + frame_rollRate w d * 0.3)%js
      drag (frame_dt d).
Proof.
  intros Hplay Hgroup. unfold frame_rollRate, frame_pitch, frame_roll, frame_dt.
  unfold useFrame. rewrite Hplay, Hgroup.
  destruct (readInput (keys w)) as [[targetPitch targetRoll] isSnapping].
  cbn [fst snd].
  match goal with
  | |- context [match crashDetection ?h with pair _ _ => _ end] =>
      destruct (crashDetection h) as [[ | ] reason]
  end; do 3 eexists; reflexivity.
Qed.

Lemma integrateSpeed_NaN_pump (s wst fct rest drag dt : number) :
  integrateSpeed s wst fct (NaN * 3.5 + rest)%js drag dt = Fin 1.0.
Proof.
  unfold integrateSpeed.
  assert (E : (s + (wst + fct + (NaN * 3.5 + rest) - drag) * dt)%js = NaN).
  { cbn [Num.mul Num.add].
    destruct (wst + fct)%js, drag, dt, s; reflexivity. }
  rewrite E. cbn [isNaN]. apply clamp_zero.
Qed.

(** X14.  A frame whose frame time is 0 cannot measure a pitch rate: the
    pump thrust is [NaN], the [isNaN] guard resets the speed, and the
    frame leaves the speed at the minimum 1.0 whatever it was before; if
    the ride goes on, the roll rate handed to the spray is [NaN]. *)
Theorem empty_frame_drops_speed (w : World) (g : Group) (t : number) :
  gameState w = playing ->
  groupRef w = Some g ->
  let w' := useFrame t (Fin 0) w in
  speed (stateRef w') = Fin 1.0 /\
  (gameState w' = playing ->
   SprayState.rollRate (sprayStateRef w') = NaN /\
   SprayState.speed (sprayStateRef w') = Fin 1.0).
Proof.
  intros Hplay Hgroup w'.
  destruct (readInput_bounds (keys w)) as (tp & tr & Etp & Etr & _).
  assert (Es : speed (stateRef w') = Fin 1.0).
  { destruct (useFrame_speed_eq w g t (Fin 0) Hplay Hgroup)
      as (wst & fct & drag & E).
    fold w' in E. rewrite E. unfold frame_pitch.
    rewrite (empty_frame_rate _ _ 5.0) by (rewrite Etp; apply finite_Fin).
    apply integrateSpeed_NaN_pump. }
  split; [exact Es |]. intro Hplay'.
  destruct (useFrame_outcome w g t (Fin 0) Hplay Hgroup)
    as (_ & _ & _ & _ & _ & _ & _ & _ & _ & Hcases).
  fold w' in Hcases.
  destruct Hcases as [(Hover & _) | (_ & _ & _ & _ & _ & Ess)].
  { rewrite Hover in Hplay'. discriminate. }
  rewrite Ess. cbn [SprayState.rollRate SprayState.speed].
  split; [| exact Es].
  unfold frame_rollRate, frame_roll.
  apply (empty_frame_rate _ _ 6.0). rewrite Etr. apply finite_Fin.
Qed.

Lemma empty_frame_drops_speed_witness :
  gameState startedWorld = playing /\
  groupRef startedWorld = Some startedGroup /\
  speed (stateRef startedWorld) = Fin 12 /\
  speed (stateRef (useFrame 0 (Fin 0) startedWorld)) = Fin 1.0.
Proof.
  split; [reflexivity | split; [reflexivity | split; [reflexivity |]]].
  exact (proj1 (empty_frame_drops_speed startedWorld startedGroup 0
                  eq_refl eq_refl)).
Defined.

(** ** RiderDynamics: a frame time that is not a number *)

Lemma add_NaN_r (a : number) : (a + NaN)%js = NaN.
Proof. destruct a; reflexivity. Qed.

Lemma mul_NaN_r (a : number) : (a * NaN)%js = NaN.
Proof. destruct a; reflexivity. Qed.

Lemma crashDetection_NaN : crashDetection NaN = (false, EmptyString).
Proof. reflexivity. Qed.

(** A frame run while playing with the height or the frame time [NaN]
    leaves the height [NaN] and the game in play. *)
Lemma useFrame_NaN_height (w : World) (g : Group) (t d : number) :
  gameState w = playing ->
  groupRef w = Some g ->
  height (stateRef w) = NaN \/ d = NaN ->
  height (stateRef (useFrame t d w)) = NaN /\
  gameState (useFrame t d w) = playing /\
  exists g', groupRef (useFrame t d w) = Some g'.
Proof.
  intros Hplay Hgroup Hnan.
  destruct (useFrame_outcome w g t d Hplay Hgroup)
    as (_ & _ & _ & _ & _ & Ev & Eh & _ & _ & Hcases).
  assert (E : height (stateRef (useFrame t d w)) = NaN).
  { rewrite Eh. destruct Hnan as [Hh | Hd].
    - rewrite Hh. reflexivity.
    - rewrite Hd. unfold frame_dt. cbn [Math.min].
      replace (Math.min NaN 0.1) with NaN by reflexivity.
      rewrite mul_NaN_r. apply add_NaN_r. }
  split; [exact E |]. rewrite E in Hcases.
  destruct Hcases as [(_ & Hc & _) | (Hgs & _ & _ & _ & Eg & _)].
  - discriminate.
  - split; [exact Hgs | eexists; exact Eg].
Qed.

Lemma step_NaN_height (w : World) (e : Event) :
  gameState w = playing ->
  (exists g, groupRef w = Some g) ->
  height (stateRef w) = NaN ->
  gameState (step w e) = playing /\
  (exists g, groupRef (step w e) = Some g) /\
  height (stateRef (step w e)) = NaN.
Proof.
  intros Hplay [g Hg] Hh. destruct e as [t d | code | code | ]; cbn [step].
  - destruct (useFrame_NaN_height w g t d Hplay Hg (or_introl Hh))
      as (E & Hgs & Hg').
    auto.
  - cbn. eauto.
  - cbn. eauto.
  - unfold setGameState. rewrite Hplay. cbn. eauto.
Qed.

(** X15.  The frame time is not guarded against [NaN]: one frame run
    while playing with a [NaN] frame time makes the ride height [NaN],
    and from then on no sequence of frames, keys and clicks ever ends the
    game or restores the height. *)
Theorem nan_frame_time_never_ends
  (w : World) (g : Group) (t : number) (es : list Event) :
  gameState w = playing ->
  groupRef w = Some g ->
  let w' := run (Frame t NaN :: es) w in
  gameState w' = playing /\ height (stateRef w') = NaN.
Proof.
  intros Hplay Hgroup w'. subst w'. cbn [run fold_left step].
  destruct (useFrame_NaN_height w g t NaN Hplay Hgroup (or_intror eq_refl))
    as (Hh & Hgs & Hg).
  generalize dependent (useFrame t NaN w). clear.
  induction es as [ | e es IH]; intros w0 Hh Hgs Hg; cbn.
  - auto.
  - destruct (step_NaN_height w0 e Hgs Hg Hh) as (Hgs' & Hg' & Hh').
    apply IH; assumption.
Qed.

Lemma nan_frame_time_never_ends_witness :
  gameState startedWorld = playing /\
  groupRef startedWorld = Some startedGroup /\
  gameState (run [Frame 0 NaN; Frame 1 0.016; ClickStart; Frame 2 0.016]
               startedWorld) = playing.
Proof.
  split; [reflexivity | split; [reflexivity |]].
  exact (proj1 (nan_frame_time_never_ends startedWorld startedGroup 0
                  [Frame 1 0.016; ClickStart; Frame 2 0.016]
                  eq_refl eq_refl)).
Defined.

(** ** RiderDynamics: input policy *)

(** X16.  The reading of the keys: with no key held the targets are the
    pitch 0.05 and the roll 0; the down key wins over the up key and the
    right key over the left key; shift held with a roll key sets the
    pitch target to 0.25 whatever the pitch keys say, and without a roll
    key changes no target; W, S, A and D stand for the arrows.  The
    targets always lie between -0.2 and 0.3 and between -0.55 and 0.55. *)
Theorem input_policy (keys : Keys) :
  let up := (keys "ArrowUp"%string || keys "KeyW"%string)%bool in
  let down := (keys "ArrowDown"%string || keys "KeyS"%string)%bool in
  let left := (keys "ArrowLeft"%string || keys "KeyA"%string)%bool in
  let right := (keys "ArrowRight"%string || keys "KeyD"%string)%bool in
  let shift :=
    (keys "ShiftLeft"%string || keys "ShiftRight"%string
     || keys "Shift"%string)%bool in
  let targetPitch := fst (fst (readInput keys)) in
  let targetRoll := snd (fst (readInput keys)) in
  snd (readInput keys) = shift /\
  (right = true -> targetRoll = Fin (-0.55)) /\
  (right = false -> left = true -> targetRoll = Fin 0.55) /\
  (right = false -> left = false -> targetRoll = Fin 0) /\
  (shift = true -> (left || right)%bool = true -> targetPitch = Fin 0.25) /\
  ((shift && (left || right))%bool = false ->
   (down = true -> targetPitch = Fin 0.3) /\
   (down = false -> up = true -> targetPitch = Fin (-0.2)) /\
   (down = false -> up = false -> targetPitch = Fin 0.05)) /\
  (exists tp tr : R,
     targetPitch = Fin tp /\ targetRoll = Fin tr /\
     -0.2 <= tp <= 0.3 /\ -0.55 <= tr <= 0.55).
Proof.
  intros up down left right shift targetPitch targetRoll.
  subst targetPitch targetRoll.
  split; [rewrite readInput_cases; reflexivity |].
  split; [| split; [| split; [| split; [| split]]]];
    try apply readInput_bounds;
    rewrite readInput_cases; cbn [fst snd]; fold up down left right shift.
  - intros ->. reflexivity.
  - intros -> ->. reflexivity.
  - intros -> ->. reflexivity.
  - intros -> ->. reflexivity.
  - intros ->. repeat split.
    + intros ->. reflexivity.
    + intros -> ->. reflexivity.
    + intros -> ->. reflexivity.
Qed.

Lemma input_policy_witness :
  readInput (fun c => String.eqb c "KeyS" || String.eqb c "ArrowUp")%bool
  = (Fin 0.3, Fin 0, false).
Proof.
  destruct (input_policy
              (fun c => String.eqb c "KeyS" || String.eqb c "ArrowUp")%bool)
    as (Es & _ & _ & Er & _ & Ep & _).
  cbn [String.eqb Ascii.eqb Bool.eqb orb andb] in Es, Er, Ep.
  destruct (readInput _) as [[tp tr] sn]. cbn [fst snd] in *.
  destruct (Ep eq_refl) as (Ed & _).
  rewrite (Ed eq_refl), (Er eq_refl eq_refl), Es. reflexivity.
Defined.

(** ** GameScene: the game state and the reason of a crash *)

Lemma useFrame_gameState (w : World) (t d : number) :
  gameState (useFrame t d w) = gameState w \/
  (gameState w = playing /\ gameState (useFrame t d w) = gameover).
Proof.
  destruct (gameState w) eqn:Hgs.
  1, 3: left; destruct (useFrame_idle w t d) as (_ & _ & E & _);
    [left; rewrite Hgs; discriminate | rewrite E; exact Hgs].
  destruct (groupRef w) as [g | ] eqn:Hg.
  - destruct (useFrame_outcome w g t d Hgs Hg)
      as (_ & _ & _ & _ & _ & _ & _ & _ & _ & [(E & _) | (E & _)]).
    + right. auto.
    + left. exact E.
  - left. destruct (useFrame_idle w t d) as (_ & _ & E & _);
      [right; exact Hg | rewrite E; exact Hgs].
Qed.

(** X17.  The game state moves only along three arrows: from the start
    screen or the game-over screen to play by the click, and from play to
    game over by a frame.  A key never changes it, a click during play
    does nothing, and the start screen is never shown again once left. *)
Theorem game_state_machine :
  (forall (w : World) (e : Event),
     gameState (step w e) = gameState w \/
     (gameState w <> playing /\ e = ClickStart /\
      gameState (step w e) = playing) \/
     (gameState w = playing /\ (exists t d, e = Frame t d) /\
      gameState (step w e) = gameover)) /\
  (forall w : World,
     gameState w = playing -> step w ClickStart = w) /\
  (forall (es : list Event) (w : World),
     gameState w <> start -> gameState (run es w) <> start).
Proof.
  assert (Hstep : forall (w : World) (e : Event),
     gameState (step w e) = gameState w \/
     (gameState w <> playing /\ e = ClickStart /\
      gameState (step w e) = playing) \/
     (gameState w = playing /\ (exists t d, e = Frame t d) /\
      gameState (step w e) = gameover)).
  { intros w e. destruct e as [t d | code | code | ]; cbn [step].
    - destruct (useFrame_gameState w t d) as [E | [E1 E2]];
        [left; exact E | right; right; eauto].
    - left. reflexivity.
    - left. reflexivity.
    - unfold setGameState. destruct (gameState w) eqn:Hgs; cbn.
      + right. left. repeat split. discriminate.
      + left. exact Hgs.
      + right. left. repeat split. discriminate. }
  split; [exact Hstep | split].
  - intros w Hplay. cbn [step]. unfold setGameState. rewrite Hplay.
    reflexivity.
  - intros es. induction es as [ | e es IH]; intros w Hw; cbn.
    + exact Hw.
    + apply IH.
      destruct (Hstep w e) as [E | [(_ & _ & E) | (_ & _ & E)]];
        rewrite E; (exact Hw || discriminate).
Qed.

Lemma game_state_machine_witness :
  gameState startedWorld = playing /\
  step startedWorld ClickStart = startedWorld /\
  gameState startedWorld <> start /\
  gameState (run [Frame 0 0.016; ClickStart] startedWorld) <> start.
Proof.
  destruct game_state_machine as (_ & Hclick & Hstart).
  assert (H1 : gameState startedWorld = playing) by reflexivity.
  assert (H2 : gameState startedWorld <> start) by (rewrite H1; discriminate).
  split; [exact H1 | split; [exact (Hclick _ H1) | split; [exact H2 |]]].
  exact (Hstart _ _ H2).
Defined.

Lemma crashDetection_reasons (h : number) :
  crashDetection h = (true, TOUCHDOWN) \/
  crashDetection h = (true, BREACHED) \/
  crashDetection h = (false, EmptyString).
Proof.
  unfold crashDetection. destruct (h <=? Fin (-0.05))%js; [left; reflexivity |].
  destruct (h >=? 1.3)%js; [right; left | right; right]; reflexivity.
Qed.

Lemma step_reasonShown (w : World) (e : Event) :
  reasonShown w -> reasonShown (step w e).
Proof.
  intros (Hset & Hover & Hstart).
  destruct e as [t d | code | code | ]; cbn [step].
  - destruct (gameState w) eqn:Hgs.
    1, 3: destruct (useFrame_idle w t d) as (_ & _ & Eg & Er);
      [left; rewrite Hgs; discriminate |];
      unfold reasonShown; rewrite Eg, Er, Hgs; auto.
    destruct (groupRef w) as [g | ] eqn:Hg.
    + destruct (useFrame_outcome w g t d Hgs Hg)
        as (_ & _ & _ & _ & _ & _ & _ & _ & _ & Hcases).
      destruct Hcases as [(Eg & Ec & Er & _) | (Eg & _ & Er & _)];
        unfold reasonShown; rewrite Eg, Er.
      * destruct (crashDetection_reasons
                    (height (stateRef (useFrame t d w))))
          as [E | [E | E]]; rewrite E in Ec |- *; cbn [fst snd] in *;
          try discriminate; repeat split; intros; auto; discriminate.
      * repeat split; intros; try discriminate. exact Hset.
    + destruct (useFrame_idle w t d) as (_ & _ & Eg & Er);
        [right; exact Hg |].
      unfold reasonShown. rewrite Eg, Er, Hgs. auto.
  - exact (conj Hset (conj Hover Hstart)).
  - exact (conj Hset (conj Hover Hstart)).
  - unfold setGameState, reasonShown.
    destruct (gameState w) eqn:Hgs; cbn;
      repeat split; intros; try discriminate; auto;
      match goal with
      | H1 : gameState w = playing, H2 : gameState w = _ |- _ =>
          rewrite H1 in H2; discriminate
      end.
Qed.

(** X18.  The reason shown is always one the crash detection wrote: it is
    empty on the start screen, it is the touchdown or the breach message
    on the game-over screen, and during play it is empty or the message
    of the last crash, which a restart does not clear. *)
Theorem crash_reason_shown (es : list Event) :
  let w := run es initialWorld in
  (crashReason w = EmptyString \/ crashReason w = TOUCHDOWN \/
   crashReason w = BREACHED) /\
  (gameState w = gameover ->
   crashReason w = TOUCHDOWN \/ crashReason w = BREACHED) /\
  (gameState w = start -> crashReason w = EmptyString) /\
  (gameState w = gameover ->
   gameState (step w ClickStart) = playing /\
   crashReason (step w ClickStart) = crashReason w).
Proof.
  intro w. subst w.
  assert (H : reasonShown (run es initialWorld)).
  { assert (H0 : reasonShown initialWorld).
    { unfold reasonShown, initialWorld. cbn. repeat split; auto; discriminate. }
    generalize dependent initialWorld.
    induction es as [ | e es IH]; intros w H0; cbn; [exact H0 |].
    apply IH, step_reasonShown, H0. }
  destruct H as (Hset & Hover & Hstart).
  split; [exact Hset | split; [exact Hover | split; [exact Hstart |]]].
  intro Hg. cbn [step]. unfold setGameState. rewrite Hg. cbn. auto.
Qed.

Lemma crash_reason_shown_witness :
  gameState (run [Frame 0 0] sunkWorld) = gameover /\
  crashReason (run [Frame 0 0] sunkWorld) = TOUCHDOWN /\
  gameState (run [ClickStart; KeyDown "KeyA"] initialWorld) <> start /\
  (crashReason (run [ClickStart; KeyDown "KeyA"] initialWorld) = EmptyString
   \/ crashReason (run [ClickStart; KeyDown "KeyA"] initialWorld) = TOUCHDOWN
   \/ crashReason (run [ClickStart; KeyDown "KeyA"] initialWorld) = BREACHED).
Proof.
  split; [exact sunkWorld_crashes |].
  split.
  - destruct (useFrame_crash_or_not sunkWorld sunkGroup 0 0 eq_refl eq_refl)
      as [Hc _].
    cbn [run fold_left step].
    rewrite sunkWorld_height in Hc.
    assert (E : crashDetection (Fin (-1)) = (true, TOUCHDOWN)).
    { unfold crashDetection.
      assert (Hh : (Fin (-1) <=? Fin (-0.05))%js = true) by (apply leb_Fin; lra).
      rewrite Hh. reflexivity. }
    rewrite E in Hc. apply (Hc eq_refl).
  - split; [discriminate |].
    exact (proj1 (crash_reason_shown [ClickStart; KeyDown "KeyA"])).
Defined.

(** The first frame after the first click, in one place. *)
Lemma started_frame (tr dr : R) :
  0 <= dr ->
  let w := run [ClickStart] initialWorld in
  Forall clockEvent [ClickStart] /\
  gameState w = playing /\
  gameState (useFrame (Fin tr) (Fin dr) w) = playing /\
  SprayState.isPlaying (sprayStateRef (useFrame (Fin tr) (Fin dr) w)) = true.
Proof.
  intros Hd w.
  assert (Hes : Forall clockEvent [ClickStart]) by (repeat constructor).
  assert (Hw : sound w) by (apply run_sound; [exact Hes | apply initialWorld_sound]).
  assert (Hne : gameState initialWorld <> playing) by discriminate.
  destruct (setGameState_playing_reset initialWorld Hne) as (Hplay & Hst).
  change (setGameState playing initialWorld) with w in Hplay, Hst.
  assert (Hw' := Hw). destruct Hw' as (_ & _ & _ & _ & g & Hg & _).
  destruct (first_frame_survives w g tr dr Hw Hst Hplay Hg Hd) as (Hplay' & _).
  split; [exact Hes | split; [exact Hplay | split; [exact Hplay' |]]].
  destruct (useFrame_outcome w g (Fin tr) (Fin dr) Hplay Hg)
    as (_ & _ & _ & _ & _ & _ & _ & _ & _ & Hcases).
  destruct Hcases as [(Hover & _) | (_ & _ & _ & _ & _ & Ess)].
  - rewrite Hover in Hplay'. discriminate.
  - rewrite Ess. reflexivity.
Qed.

(** The first frame of the first ride moves and turns the board within the
    bounds of [frame_change_bounded]. *)
Lemma frame_change_bounded_witness :
  Forall clockEvent [ClickStart] /\
  0 <= 0.1 /\
  gameState (run [ClickStart] initialWorld) = playing /\
  gameState (useFrame (Fin 0) (Fin 0.1) (run [ClickStart] initialWorld))
  = playing /\
  exists (g g' : Group) (a b c a' b' c' y y' sp' : R),
    groupRef (run [ClickStart] initialWorld) = Some g /\
    groupRef (useFrame (Fin 0) (Fin 0.1) (run [ClickStart] initialWorld))
    = Some g' /\
    position g = THREE.mkVector3 (Fin a) (Fin b) (Fin c) /\
    position g' = THREE.mkVector3 (Fin a') (Fin b') (Fin c') /\
    yaw (stateRef (run [ClickStart] initialWorld)) = Fin y /\
    yaw (stateRef (useFrame (Fin 0) (Fin 0.1) (run [ClickStart] initialWorld)))
    = Fin y' /\
    speed (stateRef (useFrame (Fin 0) (Fin 0.1) (run [ClickStart] initialWorld)))
    = Fin sp' /\
    (a' - a) * (a' - a) + (c' - c) * (c' - c)
    = (sp' * Rmin 0.1 0.1) * (sp' * Rmin 0.1 0.1) /\
    (a' - a) * (a' - a) + (c' - c) * (c' - c) <= 2.5 * 2.5 /\
    -0.75625 <= y' - y <= 0.75625.
Proof.
  assert (Hd : 0 <= 0.1) by lra.
  destruct (started_frame 0 0.1 Hd) as (Hes & Hplay & Hplay' & _).
  split; [exact Hes | split; [exact Hd | split; [exact Hplay |]]].
  split; [exact Hplay' |].
  exact (frame_change_bounded [ClickStart] 0 0.1 Hes Hd Hplay Hplay').
Defined.


(** ** Player and SprayParticles: the shared spray state *)

Lemma step_sprayLive (w : World) (e : Event) :
  sprayLive w -> sprayLive (step w e).
Proof.
  intro Hw. destruct e as [t d | code | code | ]; cbn [step].
  - destruct (gameState w) eqn:Hgs.
    1, 3: unfold sprayLive, useFrame; rewrite Hgs; cbn; discriminate.
    destruct (groupRef w) as [g | ] eqn:Hg.
    + destruct (useFrame_outcome w g t d Hgs Hg)
        as (_ & _ & _ & _ & _ & _ & _ & _ & _ & Hcases).
      destruct Hcases as [(_ & _ & _ & _ & _ & Ess) | (Eg & _ & _ & _ & _ & Ess)];
        unfold sprayLive; rewrite Ess; cbn; [discriminate |].
      intros _. rewrite Eg. repeat split.
    + unfold sprayLive, useFrame. rewrite Hgs, Hg. cbn. discriminate.
  - exact Hw.
  - exact Hw.
  - unfold setGameState. destruct (gameState w) eqn:Hgs; cbn [GameState_eqb].
    2: exact Hw.
    all: unfold sprayLive, resetEffect; cbn [gameState sprayStateRef];
      intro Hp; destruct (Hw Hp) as (Hplay & _);
      rewrite Hgs in Hplay; discriminate.
Qed.

(** X19.  Whenever the spray state says the rider is playing, the game is
    in play and the roll, height and speed it holds are those of the
    physics state: the spray particles, which run only while the flag is
    set, never read a stale or a crashed rider. *)
Theorem spray_state_is_live (es : list Event) :
  let w := run es initialWorld in
  SprayState.isPlaying (sprayStateRef w) = true ->
  gameState w = playing /\
  SprayState.roll (sprayStateRef w) = roll (stateRef w) /\
  SprayState.height (sprayStateRef w) = height (stateRef w) /\
  SprayState.speed (sprayStateRef w) = speed (stateRef w).
Proof.
  intro w. subst w.
  assert (H0 : sprayLive initialWorld) by (unfold sprayLive; cbn; discriminate).
  generalize dependent initialWorld.
  induction es as [ | e es IH]; intros w H0; cbn; [exact H0 |].
  apply IH, step_sprayLive, H0.
Qed.

Lemma spray_state_is_live_witness :
  SprayState.isPlaying
    (sprayStateRef (run [ClickStart; Frame (Fin 0) (Fin 0.1)] initialWorld))
  = true /\
  gameState (run [ClickStart; Frame (Fin 0) (Fin 0.1)] initialWorld) = playing.
Proof.
  assert (Hd : 0 <= 0.1) by lra.
  assert (H : SprayState.isPlaying
                (sprayStateRef
                   (run [ClickStart; Frame (Fin 0) (Fin 0.1)] initialWorld))
              = true)
    by exact (proj2 (proj2 (proj2 (started_frame 0 0.1 Hd)))).
  split; [exact H |].
  exact (proj1 (spray_state_is_live
                  [ClickStart; Frame (Fin 0) (Fin 0.1)] H)).
Defined.

(** ** Player: the keys *)

(** X20.  The key handlers: after a key goes down its code reads true and
    after it goes up false; the other codes read as before; a key event
    changes nothing but the keys, and frames and clicks never change the
    keys. *)
Theorem key_events (w : World) (code : string) :
  keys (step w (KeyDown code)) code = true /\
  keys (step w (KeyUp code)) code = false /\
  (forall (other : string) (down : bool),
     other <> code ->
     keys (step w (if down then KeyDown code else KeyUp code)) other
     = keys w other) /\
  (forall e : Event,
     e = KeyDown code \/ e = KeyUp code ->
     gameState (step w e) = gameState w /\
     stateRef (step w e) = stateRef w /\
     groupRef (step w e) = groupRef w /\
     sprayStateRef (step w e) = sprayStateRef w) /\
  (forall (t d : number) (c : string),
     keys (step w (Frame t d)) c = keys w c /\
     keys (step w ClickStart) c = keys w c).
Proof.
  split; [| split; [| split; [| split]]].
  - cbn. rewrite String.eqb_refl. reflexivity.
  - cbn. rewrite String.eqb_refl. reflexivity.
  - intros other down Hne.
    apply String.eqb_neq in Hne. destruct down; cbn; rewrite Hne; reflexivity.
  - intros e [-> | ->]; cbn; auto.
  - intros t d c. split.
    + cbn [step]. unfold useFrame.
      destruct (gameState w) eqn:Hgs, (groupRef w) as [g | ] eqn:Hg;
        try reflexivity.
      destruct (useFrame_outcome w g t d Hgs Hg)
        as (_ & _ & _ & _ & _ & _ & _ & _ & Ek & _).
      unfold useFrame in Ek. rewrite Hgs, Hg in Ek. rewrite Ek. reflexivity.
    + cbn [step]. unfold setGameState.
      destruct (gameState w); cbn; reflexivity.
Qed.

Lemma key_events_witness :
  "KeyW"%string <> "KeyA"%string /\
  keys (step initialWorld (KeyDown "KeyA"%string)) "KeyA"%string = true /\
  keys (step initialWorld (KeyDown "KeyA"%string)) "KeyW"%string = false.
Proof.
  assert (Hne : "KeyW"%string <> "KeyA"%string) by discriminate.
  destruct (key_events initialWorld "KeyA"%string) as (Hd & _ & Ho & _).
  split; [exact Hne | split; [exact Hd |]].
  exact (Ho "KeyW"%string true Hne).
Defined.

(** ** SprayParticles: the slot search *)

Lemma findSlotLoop_spec (p : Pool) (n j : nat) :
  (findSlotLoop p j n = ((-1)%Z, p) /\
   forall k : nat, (j <= k < j + n)%nat -> slotFree p (slotAt p k) = false) \/
  (exists k : nat,
     (j <= k < j + n)%nat /\
     slotFree p (slotAt p k) = true /\
     (forall k' : nat, (j <= k' < k)%nat -> slotFree p (slotAt p k') = false) /\
     findSlotLoop p j n
     = (Z.of_nat (slotAt p k),
        set_nextSlot ((slotAt p k + 1) mod SPRAY_POOL_SIZE)%nat p)).
Proof.
  revert j. induction n as [ | n IH]; intro j.
  - left. split; [reflexivity | intros k Hk; lia].
  - cbn [findSlotLoop]. fold (slotAt p j). fold (slotFree p (slotAt p j)).
    destruct (slotFree p (slotAt p j)) eqn:Hfree.
    + right. exists j. split; [lia |]. split; [exact Hfree |].
      split; [intros k' Hk'; lia | reflexivity].
    + destruct (IH (S j)) as [(E & Hall) | (k & Hk & Hf & Hbefore & E)].
      * left. split; [exact E |]. intros k Hk.
        destruct (Nat.eq_dec k j) as [-> | Hne]; [exact Hfree |].
        apply Hall. lia.
      * right. exists k. split; [lia |]. split; [exact Hf |].
        split; [| exact E]. intros k' Hk'.
        destruct (Nat.eq_dec k' j) as [-> | Hne]; [exact Hfree |].
        apply Hbefore. lia.
Qed.

Lemma slotAt_lt (p : Pool) (k : nat) : (slotAt p k < SPRAY_POOL_SIZE)%nat.
Proof. unfold slotAt. apply Nat.mod_upper_bound. discriminate. Qed.

Lemma slotAt_covers (p : Pool) (i : nat) :
  (i < SPRAY_POOL_SIZE)%nat ->
  exists k : nat, (k < SPRAY_POOL_SIZE)%nat /\ slotAt p k = i.
Proof.
  unfold slotAt, SPRAY_POOL_SIZE. intro Hi.
  exists ((i + 100 - nextSlot p mod 100) mod 100)%nat.
  split; [apply Nat.mod_upper_bound; discriminate |].
  assert (Hm : (nextSlot p mod 100 < 100)%nat)
    by (apply Nat.mod_upper_bound; discriminate).
  rewrite Nat.Div0.add_mod_idemp_r.
  rewrite <- Nat.Div0.add_mod_idemp_l.
  replace (nextSlot p mod 100 + (i + 100 - nextSlot p mod 100))%nat
    with (i + 1 * 100)%nat by lia.
  rewrite Nat.Div0.mod_add. apply Nat.mod_small. exact Hi.
Qed.

(** X21.  [findSlot] returns -1 and leaves the pool alone exactly when none
    of the 100 slots is free (life at most 0); otherwise it returns the
    first free slot in the cyclic order that starts at [nextSlot], an index
    below 100, and moves [nextSlot] to the slot after it, changing nothing
    else in the pool. *)
Theorem findSlot_first_free (p : Pool) :
  let r := fst (findSlot p) in
  let p' := snd (findSlot p) in
  (-1 <= r < 100)%Z /\
  (r = (-1)%Z <->
   forall i : nat, (i < SPRAY_POOL_SIZE)%nat -> slotFree p i = false) /\
  (r = (-1)%Z -> p' = p) /\
  (r <> (-1)%Z ->
   exists j : nat,
     (j < SPRAY_POOL_SIZE)%nat /\
     r = Z.of_nat (slotAt p j) /\
     slotFree p (slotAt p j) = true /\
     (forall k : nat, (k < j)%nat -> slotFree p (slotAt p k) = false) /\
     p' = set_nextSlot ((slotAt p j + 1) mod SPRAY_POOL_SIZE)%nat p /\
     (nextSlot p' < SPRAY_POOL_SIZE)%nat /\
     lives p' = lives p).
Proof.
  intros r p'. subst r p'. unfold findSlot.
  destruct (findSlotLoop_spec p SPRAY_POOL_SIZE 0)
    as [(E & Hall) | (k & Hk & Hf & Hbefore & E)]; rewrite E; cbn [fst snd].
  - split; [lia |]. split; [| split; [reflexivity | intro H; contradiction]].
    split; [| reflexivity]. intros _ i Hi.
    destruct (slotAt_covers p i Hi) as (k & Hk & <-).
    apply Hall. lia.
  - assert (Hlt := slotAt_lt p k). unfold SPRAY_POOL_SIZE in Hlt.
    split; [lia |]. split; [| split; [intro H; lia |]].
    + split; [intro H; lia |]. intro Hall.
      rewrite (Hall (slotAt p k)) in Hf; [discriminate | exact Hlt].
    + intros _. exists k. split; [lia |]. split; [reflexivity |].
      split; [exact Hf |]. split; [intros k' Hk'; apply Hbefore; lia |].
      split; [reflexivity |]. split; [| reflexivity].
      cbn [nextSlot set_nextSlot]. apply Nat.mod_upper_bound. discriminate.
Qed.

Lemma findSlot_first_free_witness :
  fst (findSlot busyFirstPool) <> (-1)%Z /\
  exists j : nat,
    (j < SPRAY_POOL_SIZE)%nat /\
    fst (findSlot busyFirstPool) = Z.of_nat (slotAt busyFirstPool j) /\
    slotFree busyFirstPool (slotAt busyFirstPool j) = true.
Proof.
  set (p := busyFirstPool).
  assert (E : findSlot p = (1%Z, set_nextSlot 2 p)).
  { unfold findSlot, SPRAY_POOL_SIZE. cbn [findSlotLoop].
    change ((nextSlot p + 0) mod SPRAY_POOL_SIZE)%nat with 0%nat.
    change ((nextSlot p + 1) mod SPRAY_POOL_SIZE)%nat with 1%nat.
    unfold p, busyFirstPool; cbn [nth lives].
    rewrite (proj2 (leb_Fin_false 1 0)) by lra.
    rewrite (proj2 (leb_Fin 0 0)) by lra. reflexivity. }
  assert (Hne : fst (findSlot p) <> (-1)%Z) by (rewrite E; discriminate).
  split; [exact Hne |].
  destruct (proj2 (proj2 (proj2 (findSlot_first_free p))) Hne)
    as (j & Hj & Er & Hf & _).
  exists j. split; [exact Hj | split; [exact Er | exact Hf]].
Defined.

(** ** Player: the camera *)

(** X22.  The camera follow never overshoots: with a finite camera and
    board and a frame time that is not negative, the camera ends the frame
    at the point whose offset from its target (the board moved by 5, 3 and
    10) is the old offset scaled by [1 - 3 dt], a factor between 0.7 and 1,
    so a camera on its target stays there and one away from it closes at
    most 30 percent of the gap in a frame. *)
Theorem camera_closes_in (cx cy cz gx gy gz dr : R) :
  0 <= dr ->
  let dt := Rmin dr 0.1 in
  let camera := THREE.mkVector3 (Fin cx) (Fin cy) (Fin cz) in
  let board := THREE.mkVector3 (Fin gx) (Fin gy) (Fin gz) in
  exists cx' cy' cz' : R,
    cameraFollow camera board (frame_dt (Fin dr))
    = THREE.mkVector3 (Fin cx') (Fin cy') (Fin cz') /\
    (gx + 5) - cx' = (1 - 3 * dt) * ((gx + 5) - cx) /\
    (gy + 3) - cy' = (1 - 3 * dt) * ((gy + 3) - cy) /\
    (gz + 10) - cz' = (1 - 3 * dt) * ((gz + 10) - cz) /\
    0.7 <= 1 - 3 * dt <= 1.
Proof.
  intros Hd dt camera board.
  rewrite (proj1 (frame_dt_Fin dr Hd)).
  unfold cameraFollow, cameraOffset, lerpVector, addVector, camera, board,
    WAVE_DIR_X, WAVE_DIR_Z.
  cbn. fold dt.
  eexists _, _, _. split; [reflexivity |].
  assert (Hdt : 0 <= dt <= 0.1) by (unfold dt; rminmax).
  repeat split; try lra; ring.
Qed.

Lemma camera_closes_in_witness :
  0 <= 0.016 /\
  exists cx' cy' cz' : R,
    cameraFollow (THREE.mkVector3 (Fin 0) (Fin 5) (Fin 10))
      (THREE.mkVector3 (Fin 5) (Fin 0) (Fin 20)) (frame_dt (Fin 0.016))
    = THREE.mkVector3 (Fin cx') (Fin cy') (Fin cz').
Proof.
  assert (Hd : 0 <= 0.016) by lra.
  split; [exact Hd |].
  destruct (camera_closes_in 0 5 10 5 0 20 0.016 Hd)
    as (cx' & cy' & cz' & E & _).
  exists cx', cy', cz'. exact E.
Defined.

(** ** Player: the controls *)

(** X23.  The controls never overshoot: in a frame of a game in play the
    pitch and the roll move toward the targets the keys ask for, the gap
    to the target shrinking by the factor [1 - 5 dt] for the pitch (at
    least a half) and [1 - 6 dt] for the roll (at least 0.4), whatever the
    frame time; only a frame of no duration leaves them where they are. *)
Theorem controls_never_overshoot (w : World) (t : number) (p r dr : R) :
  gameState w = playing ->
  groupRef w <> None ->
  pitch (stateRef w) = Fin p ->
  roll (stateRef w) = Fin r ->
  0 <= dr ->
  let dt := Rmin dr 0.1 in
  let s' := stateRef (useFrame t (Fin dr) w) in
  exists tp tr p' r' : R,
    fst (fst (readInput (keys w))) = Fin tp /\
    snd (fst (readInput (keys w))) = Fin tr /\
    pitch s' = Fin p' /\ roll s' = Fin r' /\
    tp - p' = (1 - 5 * dt) * (tp - p) /\
    tr - r' = (1 - 6 * dt) * (tr - r) /\
    0.5 <= 1 - 5 * dt <= 1 /\ 0.4 <= 1 - 6 * dt <= 1.
Proof.
  intros Hplay Hg Ep Er Hd dt s'.
  destruct (groupRef w) as [g | ] eqn:Eg; [clear Hg | contradiction].
  destruct (useFrame_outcome w g t (Fin dr) Hplay Eg)
    as (Hp' & Hr' & _).
  destruct (readInput_bounds (keys w)) as (tp & tr & Etp & Etr & _).
  destruct (frame_dt_Fin dr Hd) as [Edt Hdt]. fold dt in Edt, Hdt.
  exists tp, tr. fold s' in Hp', Hr'. rewrite Hp', Hr'.
  unfold frame_pitch, frame_roll. rewrite Ep, Er, Etp, Etr, Edt.
  cbn. do 2 eexists.
  split; [reflexivity | split; [reflexivity |]].
  split; [reflexivity | split; [reflexivity |]].
  repeat split; try lra; ring.
Qed.

Lemma controls_never_overshoot_witness :
  0 <= 0.016 /\
  exists tp tr p' r' : R,
    fst (fst (readInput (keys (run [ClickStart] initialWorld)))) = Fin tp /\
    snd (fst (readInput (keys (run [ClickStart] initialWorld)))) = Fin tr /\
    pitch (stateRef (useFrame (Fin 0) (Fin 0.016)
                       (run [ClickStart] initialWorld))) = Fin p' /\
    roll (stateRef (useFrame (Fin 0) (Fin 0.016)
                      (run [ClickStart] initialWorld))) = Fin r'.
Proof.
  assert (Hd : 0 <= 0.016) by lra.
  assert (Hplay : gameState (run [ClickStart] initialWorld) = playing)
    by reflexivity.
  assert (Hg : groupRef (run [ClickStart] initialWorld) <> None)
    by discriminate.
  assert (Ep : pitch (stateRef (run [ClickStart] initialWorld)) = Fin 0)
    by reflexivity.
  assert (Er : roll (stateRef (run [ClickStart] initialWorld)) = Fin 0)
    by reflexivity.
  split; [exact Hd |].
  destruct (controls_never_overshoot (run [ClickStart] initialWorld) (Fin 0)
              0 0 0.016 Hplay Hg Ep Er Hd)
    as (tp & tr & p' & r' & E1 & E2 & E3 & E4 & _).
  exists tp, tr, p', r'. repeat split; assumption.
Defined.

(** ** RiderDynamics: the speed guard over every ride *)

Lemma tame_cases (a : number) : tame a <-> a = NaN \/ finite a.
Proof.
  destruct a as [ | | | r]; cbn; split; intro H;
    try contradiction; try exact I;
    try (destruct H as [H | [r' H]]; discriminate).
  - left. reflexivity.
  - right. exists r. reflexivity.
Qed.

Lemma tame_add (a b : number) : tame a -> tame b -> tame (a + b)%js.
Proof. destruct a, b; cbn; intros; try contradiction; exact I. Qed.

Lemma tame_sub (a b : number) : tame a -> tame b -> tame (a - b)%js.
Proof. destruct a, b; cbn; intros; try contradiction; exact I. Qed.

Lemma tame_mul (a b : number) : tame a -> tame b -> tame (a * b)%js.
Proof. destruct a, b; cbn; intros; try contradiction; exact I. Qed.

Lemma tame_neg (a : number) : tame a -> tame (- a)%js.
Proof. destruct a; cbn; intros; try contradiction; exact I. Qed.

Lemma tame_max (a b : number) : tame a -> tame b -> tame (Math.max a b).
Proof. destruct a, b; cbn; intros; try contradiction; exact I. Qed.

Lemma tame_min (a b : number) : tame a -> tame b -> tame (Math.min a b).
Proof. destruct a, b; cbn; intros; try contradiction; exact I. Qed.

Lemma tame_sqrt (a : number) : tame a -> tame (Math.sqrt a).
Proof.
  destruct a as [ | | | r]; cbn; intro H; try contradiction; try exact I.
  destruct (Rlt_dec r 0); exact I.
Qed.

Lemma tame_sin (a : number) : tame (Math.sin a).
Proof. destruct a; exact I. Qed.

Lemma tame_cos (a : number) : tame (Math.cos a).
Proof. destruct a; exact I. Qed.

Lemma tame_div_Fin (a : number) (r : R) :
  tame a -> r <> 0 -> tame (a / Fin r)%js.
Proof.
  intros Ha Hr. destruct a as [ | | | x]; cbn in *; try contradiction; auto.
  destruct (Req_dec_T r 0); [contradiction | exact I].
Qed.

#[local] Hint Resolve tame_add tame_sub tame_mul tame_neg tame_max tame_min
  tame_sqrt tame_sin tame_cos : tame.

Lemma getDepth_range (x z : number) :
  getDepth x z = NaN \/
  exists d : R, getDepth x z = Fin d /\ 1.5 <= d <= 10.
Proof.
  assert (H42 : 0.42 <> 0) by lra. assert (H12 : 0.12 <> 0) by lra.
  unfold getDepth, SHORE_ANGLE, DEPTH_DEEP, DEPTH_SHALLOW, SHORE_Z_CENTER,
    DEPTH_GRADIENT.
  destruct x as [ | | | x], z as [ | | | z]; cbn;
    repeat (destruct (Req_dec_T _ _); try contradiction);
    repeat (destruct (Rlt_dec _ _); try lra); cbn;
    repeat (destruct (Req_dec_T _ _); try contradiction);
    repeat (destruct (Rlt_dec _ _); try lra); cbn;
    try (left; reflexivity);
    right; eexists; (split; [reflexivity | rminmax]).
Qed.

Lemma WAVES_amplitude_tame (i : nat) : tame (amplitude (WAVES_at i)).
Proof. destruct i as [ | [ | [ | [ | i]]]]; exact I. Qed.

(** The shoaled amplitude of a wave is finite or [NaN] at any point at
    all, the points with infinite or [NaN] coordinates included. *)
Lemma loc_a_tame (i : nat) (x z t : number) :
  tame (loc_a (waveLocals i x z t)).
Proof.
  unfold waveLocals. cbn [loc_a].
  apply tame_mul; [apply WAVES_amplitude_tame |].
  destruct (getDepth_range x z) as [E | (d & E & Hd)]; rewrite E.
  - destruct (Nat.eqb i 0); exact I.
  - unfold DEPTH_DEEP. rewrite (shoalFactor_Fin d Hd).
    destruct (Nat.eqb i 0); exact I.
Qed.

Lemma waveFold_y_tame (x z t : number) (l : list nat) (r : THREE.Vector3) :
  tame (THREE.y r) -> tame (THREE.y (fold_left (waveStep x z t) l r)).
Proof.
  revert r. induction l as [ | i l IH]; intros r Hr; cbn [fold_left].
  - exact Hr.
  - apply IH. unfold waveStep. cbn [THREE.y].
    apply tame_add; [exact Hr |].
    apply tame_mul; [apply loc_a_tame | apply tame_sin].
Qed.

(** The height of the displaced surface is finite or [NaN], never an
    infinity, whatever the point and the time. *)
Lemma gerstnerDisplace_y_tame (x z t : number) :
  tame (THREE.y (gerstnerDisplace x z t)).
Proof.
  assert (Hy : tame (THREE.y (waveSum x z t)))
    by (apply waveFold_y_tame; exact I).
  unfold gerstnerDisplace.
  destruct (smoothstep 5.0 2.0 (getDepth x z) >? 0.001)%js; cbn [THREE.y].
  - apply tame_add; [apply tame_min; [exact Hy | exact I] |].
    apply tame_mul; [apply tame_max; [exact Hy | exact I] | apply tame_cos].
  - exact Hy.
Qed.

Lemma getWaveSlopeAt_tame (x z t : number) :
  tame (slopeX (getWaveSlopeAt x z t)) /\
  tame (slopeZ (getWaveSlopeAt x z t)).
Proof.
  unfold getWaveSlopeAt, _eps. cbn [slopeX slopeZ Num.mul].
  split; (apply tame_div_Fin; [| lra]);
    apply tame_sub; apply gerstnerDisplace_y_tame.
Qed.

Lemma slopeInDirection_tame (slope : Slope) (yaw : number) :
  tame (slopeX slope) -> tame (slopeZ slope) ->
  tame (slopeInDirection slope yaw).
Proof.
  intros Hx Hz. unfold slopeInDirection. auto 6 with tame.
Qed.

Lemma slopeMag_tame (slope : Slope) :
  tame (slopeX slope) -> tame (slopeZ slope) -> tame (slopeMag slope).
Proof. intros Hx Hz. unfold slopeMag. auto 6 with tame. Qed.

Lemma foilCatchThrust_tame (slope : Slope) (yaw : number) :
  tame (slopeX slope) -> tame (slopeZ slope) ->
  tame (foilCatchThrust slope yaw).
Proof.
  intros Hx Hz.
  assert (Hm := slopeMag_tame slope Hx Hz).
  assert (Hd := slopeInDirection_tame slope yaw Hx Hz).
  unfold foilCatchThrust.
  apply tame_mul; [apply tame_mul; [exact Hm | exact I] |].
  apply tame_sub; [exact I |]. apply tame_mul; [exact I |].
  unfold uphillRatio.
  destruct (slopeMag slope) as [ | | | m] eqn:Em; try contradiction.
  - exact I.
  - destruct (Fin m >? 0.001)%js eqn:Egt; [| exact I].
    apply (proj1 (gtb_Fin _ _)) in Egt.
    apply tame_max; [exact I |]. apply tame_div_Fin; [exact Hd | lra].
Qed.

(** The capped frame time is [NaN], minus infinity, or finite and at most
    0.1: the cap removes plus infinity only. *)
Lemma frame_dt_cases (d : number) :
  frame_dt d = NaN \/ frame_dt d = NegInf \/
  exists e : R, frame_dt d = Fin e /\ e <= 0.1.
Proof.
  destruct d as [ | | | dr]; cbn; auto.
  - right. right. exists 0.1. split; [reflexivity | lra].
  - right. right. eexists. split; [reflexivity | rminmax].
Qed.

(** Smoothing a pitch or a roll that is not finite: it stays not finite,
    and its change over the frame is [NaN]. *)
Lemma lerp_wild (x y dt : number) (k : R) :
  0 < k -> 0.1 * k < 1 ->
  ~ finite x ->
  ~ finite (THREE.MathUtils.lerp x y (frame_dt dt * Fin k)) /\
  (THREE.MathUtils.lerp x y (frame_dt dt * Fin k) - x)%js = NaN.
Proof.
  intros Hk Hk1 Hx.
  assert (Hnf : forall a : number,
             a = NaN \/ a = PosInf \/ a = NegInf -> ~ finite a).
  { intros a [-> | [-> | ->]] [r Hr]; discriminate. }
  assert (Hgoal :
    (THREE.MathUtils.lerp x y (frame_dt dt * Fin k) = NaN \/
     THREE.MathUtils.lerp x y (frame_dt dt * Fin k) = x) /\
    (x = NaN \/ x = PosInf \/ x = NegInf)).
  { unfold THREE.MathUtils.lerp.
    destruct (frame_dt_cases dt) as [E | [E | (e & E & He)]]; rewrite E;
      destruct x as [ | | | x]; try (exfalso; apply Hx; eexists; reflexivity);
      destruct y as [ | | | y]; cbn; do 3 (decide_reals; cbn);
      try (exfalso; nra); auto. }
  destruct Hgoal as [[E | E] Hx']; rewrite E.
  - split; [apply Hnf; auto | destruct x; reflexivity].
  - split; [apply Hnf; exact Hx' |].
    destruct Hx' as [-> | [-> | ->]]; reflexivity.
Qed.

(** Smoothing a finite value towards a target that is not 0 over a frame
    time of minus infinity: the result is not finite, and the rate
    measured from it is [NaN]. *)
Lemma lerp_NegInf (p tp k : R) :
  0 < k -> tp <> 0 ->
  let l := THREE.MathUtils.lerp (Fin p) (Fin tp) (NegInf * Fin k) in
  ~ finite l /\ (Math.abs (l - Fin p) / NegInf)%js = NaN.
Proof.
  intros Hk Htp l. subst l. unfold THREE.MathUtils.lerp.
  cbn; do 3 (decide_reals; cbn); try (exfalso; nra);
    (split; [intros [? ?]; discriminate | reflexivity]).
Qed.

Lemma readInput_targets (keys : Keys) :
  exists tp tr : R,
    fst (fst (readInput keys)) = Fin tp /\
    snd (fst (readInput keys)) = Fin tr /\ tp <> 0.
Proof.
  pose proof (readInput_cases keys) as E. cbv zeta in E. rewrite E.
  cbn [fst snd].
  destruct (_ && _)%bool, (keys "ArrowDown"%string || keys "KeyS"%string)%bool,
    (keys "ArrowUp"%string || keys "KeyW"%string)%bool,
    (keys "ArrowRight"%string || keys "KeyD"%string)%bool,
    (keys "ArrowLeft"%string || keys "KeyA"%string)%bool;
    do 2 eexists; (split; [reflexivity | split; [reflexivity | lra]]).
Qed.

Lemma dragOf_Fin (p r sp : R) (snap : bool) :
  finite (dragOf (Fin p) (Fin r) (Fin sp) snap).
Proof.
  unfold dragOf. destruct (snap && _)%bool; cbn; eexists; reflexivity.
Qed.

(** What the smoothing of a frame does to a finite pitch and roll. *)
Lemma frame_posture_cases (w : World) (d : number) :
  finite (pitch (stateRef w)) ->
  finite (roll (stateRef w)) ->
  let pitchRate :=
    (Math.abs (frame_pitch w d - pitch (stateRef w)) / frame_dt d)%js in
  (~ finite (frame_pitch w d) /\ pitchRate = NaN) \/
  (exists e : R,
     frame_dt d = Fin e /\ e <= 0.1 /\
     finite (frame_pitch w d) /\ finite (frame_roll w d) /\
     (pitchRate = NaN \/
      (finite pitchRate /\ finite (frame_rollRate w d)))).
Proof.
  intros [p Ep] [r Er] pitchRate. subst pitchRate.
  destruct (readInput_targets (keys w)) as (tp & tr & Etp & Etr & Htp).
  unfold frame_rollRate, frame_pitch, frame_roll. rewrite Ep, Er, Etp, Etr.
  destruct (frame_dt_cases d) as [E | [E | (e & E & He)]]; rewrite E.
  - left. split; [intros [x Hx]; discriminate | reflexivity].
  - left. apply (lerp_NegInf p tp 5.0); [lra | exact Htp].
  - right. exists e. split; [reflexivity | split; [exact He |]].
    unfold THREE.MathUtils.lerp. cbn [Num.mul Num.sub Num.add Math.abs].
    split; [eexists; reflexivity | split; [eexists; reflexivity |]].
    destruct (Req_dec_T e 0) as [-> | Hne].
    + left. unfold Num.div. decide_reals; try reflexivity; try lra.
      all: exfalso;
        match goal with
        | H : Rabs ?x <> 0 |- _ =>
            apply H; replace x with 0 by ring; apply Rabs_R0
        end.
    + right. rewrite !div_Fin by exact Hne.
      split; eexists; reflexivity.
Qed.

Lemma speedSum_NaN_pump (s wst fct rest drag dt : number) :
  (s + (wst + fct + (NaN * 3.5 + rest) - drag) * dt)%js = NaN.
Proof.
  cbn [Num.mul Num.add].
  destruct (wst + fct)%js, drag, dt, s; reflexivity.
Qed.

(** The sum a frame hands to the [isNaN] guard is finite or [NaN], never
    an infinity, whatever the frame time, the clock, the position and the
    heading, as long as the speed it starts from is finite and the roll
    is finite when the pitch is. *)
Lemma frame_speedSum_tame (w : World) (g : Group) (t d : number) :
  finite (speed (stateRef w)) ->
  postureTied (stateRef w) ->
  tame (frame_speedSum w g t d).
Proof.
  intros [sp Esp] Htied. unfold frame_speedSum.
  destruct (getWaveSlopeAt_tame (THREE.x (position g)) (THREE.z (position g)) t)
    as [Hsx Hsz].
  set (slope := getWaveSlopeAt _ _ _) in *.
  assert (Hwst : tame (- slopeInDirection slope (yaw (stateRef w))
                       * GRAVITY * 0.35)%js).
  { apply tame_mul; [apply tame_mul; [| exact I] | exact I].
    apply tame_neg, slopeInDirection_tame; assumption. }
  assert (Hfc := foilCatchThrust_tame slope (yaw (stateRef w)) Hsx Hsz).
  set (wst := (- slopeInDirection slope (yaw (stateRef w))
               * GRAVITY * 0.35)%js) in *.
  set (fc := foilCatchThrust slope (yaw (stateRef w))) in *.
  clearbody wst fc. clear slope Hsx Hsz.
  assert (Hdec : finite (pitch (stateRef w)) \/ ~ finite (pitch (stateRef w))).
  { destruct (pitch (stateRef w)) as [ | | | p];
      [right | right | right | left; eexists; reflexivity];
      intros [r Hr]; discriminate. }
  destruct Hdec as [Hp | Hp].
  - destruct (frame_posture_cases w d Hp (Htied Hp))
      as [(_ & E) | (e & Edt & He & [p' Ep'] & [r' Er'] & Hrate)].
    + rewrite E, speedSum_NaN_pump. exact I.
    + destruct Hrate as [E | ([pr Epr] & [rr Err])].
      * rewrite E, speedSum_NaN_pump. exact I.
      * rewrite Epr, Err, Ep', Er', Esp, Edt.
        destruct (dragOf_Fin p' r' sp (snd (readInput (keys w))))
          as [dg Edg].
        rewrite Edg.
        apply tame_add; [exact I |].
        apply tame_mul; [| exact I].
        apply tame_sub; [| exact I].
        apply tame_add; [apply tame_add; assumption |].
        apply tame_add; apply tame_mul; exact I.
  - assert (E : (Math.abs (frame_pitch w d - pitch (stateRef w))
                 / frame_dt d)%js = NaN).
    { unfold frame_pitch.
      rewrite (proj2 (lerp_wild (pitch (stateRef w)) _ d 5.0
                        ltac:(lra) ltac:(lra) Hp)).
      destruct (frame_dt d); reflexivity. }
    rewrite E, speedSum_NaN_pump. exact I.
Qed.

(** The frame callback stores the clamp of the guarded sum. *)
Lemma useFrame_speed_guarded (w : World) (g : Group) (t d : number) :
  gameState w = playing ->
  groupRef w = Some g ->
  let v := frame_speedSum w g t d in
  speed (stateRef (useFrame t d w))
  = THREE.MathUtils.clamp (if isNaN v then Fin 0 else v) 1.0 25.0.
Proof.
  intros Hplay Hgroup.
  unfold frame_speedSum, frame_rollRate, frame_pitch, frame_roll, frame_dt.
  unfold useFrame. rewrite Hplay, Hgroup.
  destruct (readInput (keys w)) as [[targetPitch targetRoll] isSnapping].
  cbn [fst snd].
  match goal with
  | |- context [match crashDetection ?h with pair _ _ => _ end] =>
      destruct (crashDetection h) as [[ | ] reason]
  end; reflexivity.
Qed.

Lemma useFrame_postureTied (w : World) (t d : number) :
  postureTied (stateRef w) -> postureTied (stateRef (useFrame t d w)).
Proof.
  intro Hw.
  destruct (gameState w) eqn:Hgs;
    try (destruct (useFrame_idle w t d) as [E _];
         [left; rewrite Hgs; discriminate | rewrite E; exact Hw]).
  destruct (groupRef w) as [g | ] eqn:Hg.
  - destruct (useFrame_outcome w g t d Hgs Hg) as (Ep & Er & _).
    unfold postureTied. rewrite Ep, Er. intro Hfin.
    assert (Hp : finite (pitch (stateRef w))).
    { destruct (pitch (stateRef w)) as [ | | | p] eqn:E;
        [exfalso | exfalso | exfalso | eexists; reflexivity].
      all: unfold frame_pitch in Hfin; rewrite E in Hfin;
        refine (proj1 (lerp_wild _ _ d 5.0 ltac:(lra) ltac:(lra) _) Hfin);
        intros [r Hr]; discriminate. }
    destruct (frame_posture_cases w d Hp (Hw Hp))
      as [(Hnf & _) | (_ & _ & _ & _ & Hr & _)];
      [contradiction | exact Hr].
  - destruct (useFrame_idle w t d) as [E _];
      [right; exact Hg | rewrite E; exact Hw].
Qed.

Lemma step_postureTied (w : World) (e : Event) :
  postureTied (stateRef w) -> postureTied (stateRef (step w e)).
Proof.
  intro Hw. destruct e as [t d | code | code | ]; cbn [step].
  - apply useFrame_postureTied, Hw.
  - exact Hw.
  - exact Hw.
  - destruct (setGameState_stateRef playing w) as [E | (_ & _ & E)];
      rewrite E; [exact Hw |].
    intros _. exists 0. reflexivity.
Qed.

Lemma run_postureTied (es : list Event) (w : World) :
  postureTied (stateRef w) -> postureTied (stateRef (run es w)).
Proof.
  revert w. induction es as [ | e es IH]; intros w Hw; cbn.
  - exact Hw.
  - apply IH, step_postureTied, Hw.
Qed.

(** The sum is never an infinity in a ride: from the mounted scene, after
    any frames, keys and clicks, the frame times and the clock readings
    being any numbers at all. *)
Lemma ride_speedSum_tame (es : list Event) (g : Group) (t d : number) :
  tame (frame_speedSum (run es initialWorld) g t d).
Proof.
  apply frame_speedSum_tame.
  - destruct (run_speed es initialWorld initial_speed_in_range)
      as (r & E & _).
    exists r. exact E.
  - apply run_postureTied. intros _. exists 0. reflexivity.
Qed.

(** A frame of no duration measures no pitch rate: its sum is [NaN]. *)
Lemma empty_frame_speedSum (w : World) (g : Group) (t : number) :
  frame_speedSum w g t (Fin 0) = NaN.
Proof.
  destruct (readInput_targets (keys w)) as (tp & tr & Etp & _).
  unfold frame_speedSum, frame_pitch.
  rewrite (empty_frame_rate (pitch (stateRef w)) _ 5.0)
    by (rewrite Etp; eexists; reflexivity).
  apply speedSum_NaN_pump.
Qed.


